(** * EV charging-network simulation: stations, demand edges, routes, trips

    A shallow embedding of the data-generation core of the visualisation:
    the seeded generator ([seededRandom]), the station generator
    ([generateChargingStations]), the route-network generator
    ([generateEVRouteNetwork], in its three variants), the two route
    fetchers ([fetchRoute] with its cache, [fetchRouteWithRetry] with its
    back-off loop) and the trip expander ([generateTripData]).

    Numbers.  A JavaScript number is an IEEE-754 double.  The generator
    state is an integer-valued double, and the product [seed * 1103515245]
    exceeds 2^53, so the rounding of the product and of the sum is part of
    the behaviour: it is modelled exactly on [Z] by [round53].  Every other
    number is modelled as a rational [Q]; [Math.sin], [Math.cos], [Math.PI]
    and the haversine distance built from them are parameters.  A draw is
    the exact quotient [state / 2147483647]; it differs from every threshold
    a draw is compared with (0.2, 0.3, 0.4, 0.5, 0.6) and, multiplied by an
    array length or a weight range, from every integer boundary by more than
    2^-36, far more than the rounding error of a double, so the comparisons
    of draws and the [Math.floor] of scaled draws agree with the double
    computation. *)

From Stdlib Require Import ZArith QArith Qround Qabs Lia Lqa Permutation.
From stdpp Require Import base list strings pretty gmap.

Local Open Scope Z_scope.

(** ** Rational helpers *)

Definition Qltb (a b : Q) : bool := negb (Qle_bool b a).
Definition Qgtb (a b : Q) : bool := Qltb b a.
Definition Qleb (a b : Q) : bool := Qle_bool a b.
Definition Qgeb (a b : Q) : bool := Qle_bool b a.

Definition Qmax (a b : Q) : Q := if Qle_bool a b then b else a.

(** [Math.floor] *)
Definition Math_floor (x : Q) : Z := Qfloor x.

Definition Qtrunc (x : Q) : Z :=
  if Qle_bool 0 x then Qfloor x else Qceiling x.

(** The remainder operator [%] on numbers: the result takes the sign of the
    dividend (truncated quotient). *)
Definition js_rem (x m : Q) : Q :=
  (x - m * inject_Z (Qtrunc (x / m)))%Q.

(** ** The seeded generator *)

Module Prng.

Definition A : Z := 1103515245.
Definition C : Z := 12345.
Definition MASK : Z := 0x7fffffff.

(** Rounding of an integer to the nearest double (53-bit significand,
    ties to even).  Below 2^53 every integer is a double. *)
Definition round53 (x : Z) : Z :=
  let a := Z.abs x in
  if a <? 2 ^ 53 then x
  else
    let e := Z.log2 a - 52 in
    let q := a / 2 ^ e in
    let r := a mod 2 ^ e in
    let half := 2 ^ (e - 1) in
    let q' := if r <? half then q
              else if half <? r then q + 1
              else if Z.even q then q else q + 1 in
    Z.sgn x * (q' * 2 ^ e).

(** [seed = (seed * 1103515245 + 12345) & 0x7fffffff]: the product and the
    sum are doubles; [&] keeps the low 31 bits of the two's complement. *)
Definition next_state (seed : Z) : Z :=
  Z.land (round53 (round53 (seed * A) + C)) MASK.

(** [return seed / 0x7fffffff] *)
Definition output (seed : Z) : Q := inject_Z seed / inject_Z MASK.

(** The closure returned by [seededRandom(seed)] owns one variable, [seed];
    it is the state. *)
Definition seededRandom (seed : Z) : Z := seed.

(** One call of the closure. *)
Definition random (st : Z) : Q * Z :=
  let st' := next_state st in (output st', st').

(** The state after [n] calls, and the value returned by call [n]
    (calls are numbered from 0). *)
Fixpoint state_after (n : nat) (seed : Z) : Z :=
  match n with
  | O => seed
  | S k => next_state (state_after k seed)
  end.

Definition draw (seed : Z) (n : nat) : Q :=
  fst (random (state_after n (seededRandom seed))).

(** The recurrence of the specification, on exact integers. *)
Definition lcg_exact (state : Z) : Z := (state * A + C) mod 2 ^ 31.
Definition output_pow2 (state : Z) : Q := inject_Z state / inject_Z (2 ^ 31).

End Prng.

(** ** A state monad over the generator state *)

Definition Rand (T : Type) : Type := Z -> T * Z.

Definition rret {T} (x : T) : Rand T := fun st => (x, st).
Definition rbind {T U} (m : Rand T) (k : T -> Rand U) : Rand U :=
  fun st => let '(x, st') := m st in k x st'.

Declare Scope rand_scope.
Delimit Scope rand_scope with rand.
Notation "'do' x <~ m ; k" := (rbind m (fun x => k))
  (at level 10, x name, m at level 100, k at level 200) : rand_scope.

(** [xs.forEach(f)] where [f] pushes onto one output array: the pushes of
    each callback, concatenated in order. *)
Fixpoint forEach {T U} (f : T -> Rand (list U)) (xs : list T) : Rand (list U) :=
  match xs with
  | [] => rret []
  | x :: rest =>
      (do ys <~ f x; do zs <~ forEach f rest; rret (ys ++ zs))%rand
  end.

(** ** Charging stations (chargingStations.ts, and its copy in the
       precomputation script) *)

Inductive StationType : Type := standard | fast | superfast.

Record ChargingStation : Type := {
  id : string;
  name : string;
  coordinates : Q * Q;          (* [longitude, latitude] *)
  chargers : Z;
  type : StationType;
  operator : string;
  available : Z
}.

Record CityHub : Type := {
  hub_name : string;
  hub_coords : Q * Q;
  density : nat
}.

Definition operators : list string :=
  ["Tesla"; "Fastned"; "Shell Recharge"; "Allego"; "Ionity"; "BP Pulse"; "EVBox"].

Definition nameSuffixes : list string :=
  ["Noord"; "Zuid"; "Oost"; "West"; "Centrum"; "Station"; "Park"; "Mall"].

Definition cityHubs : list CityHub :=
  [ {| hub_name := "Amsterdam"; hub_coords := (4.895168, 52.370216)%Q; density := 25 |};
    {| hub_name := "Rotterdam"; hub_coords := (4.462456, 51.926517)%Q; density := 20 |};
    {| hub_name := "The Hague"; hub_coords := (4.288788, 52.078663)%Q; density := 18 |};
    {| hub_name := "Utrecht"; hub_coords := (5.104480, 52.092876)%Q; density := 18 |};
    {| hub_name := "Eindhoven"; hub_coords := (5.47778, 51.44083)%Q; density := 15 |};
    {| hub_name := "Groningen"; hub_coords := (6.56667, 53.21917)%Q; density := 12 |};
    {| hub_name := "Tilburg"; hub_coords := (5.0913, 51.55551)%Q; density := 10 |};
    {| hub_name := "Almere"; hub_coords := (5.222124, 52.371353)%Q; density := 12 |};
    {| hub_name := "Breda"; hub_coords := (4.768323, 51.571915)%Q; density := 10 |};
    {| hub_name := "Nijmegen"; hub_coords := (5.8528, 51.8425)%Q; density := 10 |} ].

Definition highwayStations : list (string * (Q * Q)) :=
  [ ("A1 Amersfoort", (5.387, 52.156)%Q); ("A1 Deventer", (6.155, 52.251)%Q);
    ("A1 Hengelo", (6.793, 52.265)%Q);
    ("A2 Breukelen", (4.989, 52.172)%Q); ("A2 Vianen", (5.091, 51.989)%Q);
    ("A2 Den Bosch", (5.299, 51.688)%Q); ("A2 Eindhoven Noord", (5.462, 51.481)%Q);
    ("A2 Weert", (5.707, 51.252)%Q);
    ("A4 Hoofddorp", (4.689, 52.303)%Q); ("A4 Leiden", (4.497, 52.160)%Q);
    ("A4 Delft", (4.357, 51.998)%Q);
    ("A12 Woerden", (4.881, 52.085)%Q); ("A12 Ede", (5.666, 52.039)%Q);
    ("A12 Arnhem", (5.898, 51.985)%Q);
    ("A28 Amersfoort Zuid", (5.387, 52.130)%Q); ("A28 Harderwijk", (5.620, 52.342)%Q);
    ("A28 Zwolle", (6.083, 52.508)%Q);
    ("A27 Hilversum", (5.176, 52.223)%Q); ("A27 Gorinchem", (4.973, 51.834)%Q);
    ("A58 Roosendaal", (4.465, 51.530)%Q); ("A58 Bergen op Zoom", (4.292, 51.495)%Q);
    ("A67 Venlo", (6.172, 51.370)%Q);
    ("A7 Hoorn", (5.059, 52.642)%Q); ("A7 Afsluitdijk", (5.271, 53.017)%Q);
    ("A7 Heerenveen", (5.924, 52.960)%Q); ("A28 Assen", (6.562, 52.993)%Q) ].

(** [arr[Math.floor(x)]] inside a template literal: an index out of range
    reads [undefined]. *)
Definition pick (arr : list string) (i : Z) : string :=
  default "undefined" (arr !! Z.to_nat i).

Section StationGenerator.
(** [Math.PI], [Math.cos], [Math.sin] *)
Variable Math_PI : Q.
Variables Math_cos Math_sin : Q -> Q.

Import Prng.
Local Open Scope rand_scope.

Definition drawType : Rand StationType :=
  do r <~ random;
  if Qltb r 0.2 then rret superfast
  else do r' <~ random;
       if Qltb r' 0.5 then rret fast else rret standard.

Definition drawChargers (t : StationType) : Rand Z :=
  do r <~ random;
  rret match t with
       | superfast => 8 + Math_floor (r * 8)
       | fast => 4 + Math_floor (r * 6)
       | standard => 2 + Math_floor (r * 4)
       end.

(** One iteration of the [for] loop of [generateStationsAroundCity]. *)
Definition cityStation (cityName : string) (center : Q * Q)
    (startId i : nat) : Rand ChargingStation :=
  do r1 <~ random;
  let angle := (r1 * Math_PI * 2)%Q in
  do r2 <~ random;
  let distance := (0.02 + r2 * 0.06)%Q in
  let lng := (fst center + Math_cos angle * distance)%Q in
  let lat := (snd center + Math_sin angle * distance * 0.7)%Q in
  do t <~ drawType;
  do n <~ drawChargers t;
  do rn <~ random;
  do ro <~ random;
  do ra <~ random;
  rret {| id := "station-" +:+ pretty (startId + i)%nat;
          name := cityName +:+ " " +:+ pick nameSuffixes (Math_floor (rn * 8))
                    +:+ " " +:+ pretty (i + 1)%nat;
          coordinates := (lng, lat);
          chargers := n;
          type := t;
          operator := pick operators (Math_floor (ro * inject_Z (Z.of_nat (length operators))));
          available := Math_floor (ra * inject_Z (n + 1)) |}.

Definition generateStationsAroundCity (cityName : string) (center : Q * Q)
    (count startId : nat) : Rand (list ChargingStation) :=
  forEach (fun i => do s <~ cityStation cityName center startId i; rret [s])
          (seq 0 count).

Definition generateHighwayStation (hname : string) (coords : Q * Q)
    (i : nat) : Rand ChargingStation :=
  do r <~ random;
  let t := if Qltb r 0.4 then superfast else fast in
  do rc <~ random;
  let n := match t with
           | superfast => 12 + Math_floor (rc * 12)
           | _ => 6 + Math_floor (rc * 8)
           end in
  do rx <~ random;
  let lng := (fst coords + (rx - 0.5) * 0.01)%Q in
  do ry <~ random;
  let lat := (snd coords + (ry - 0.5) * 0.01)%Q in
  do ro <~ random;
  do ra <~ random;
  rret {| id := "highway-" +:+ pretty i;
          name := hname +:+ " Charging Plaza";
          coordinates := (lng, lat);
          chargers := n;
          type := t;
          operator := pick operators (Math_floor (ro * inject_Z (Z.of_nat (length operators))));
          available := Math_floor (ra * inject_Z (n + 1)) |}.

(** [cityHubs.forEach(...)] with the running [stationId]. *)
Fixpoint cityPass (hubs : list CityHub) (stationId : nat)
    : Rand (list ChargingStation) :=
  match hubs with
  | [] => rret []
  | city :: rest =>
      do cityStations <~ generateStationsAroundCity
                           (hub_name city) (hub_coords city) (density city) stationId;
      do more <~ cityPass rest (stationId + density city);
      rret (cityStations ++ more)
  end.

(** [highwayStations.forEach((highway, i) => ...)] *)
Definition highwayPass (hws : list (string * (Q * Q))) : Rand (list ChargingStation) :=
  forEach (fun ih => do s <~ generateHighwayStation (fst (snd ih)) (snd (snd ih)) (fst ih);
                     rret [s])
          (imap pair hws).

Definition generateStationsFrom (hubs : list CityHub)
    (hws : list (string * (Q * Q))) : Rand (list ChargingStation) :=
  do cs <~ cityPass hubs 0;
  do hs <~ highwayPass hws;
  rret (cs ++ hs).

(** chargingStations.ts: the generator reads the module-level [random];
    its state on entry is the argument, its state on exit is returned. *)
Definition generateChargingStations : Rand (list ChargingStation) :=
  generateStationsFrom cityHubs highwayStations.

(** [const random = seededRandom(123)] at module level, and
    [export const chargingStations = generateChargingStations()], the
    one call made when the module is loaded. *)
Definition moduleRandom : Z := seededRandom 123.
Definition chargingStations : list ChargingStation :=
  fst (generateChargingStations moduleRandom).

(** The script's copy creates its generator inside the function:
    [const random = seededRandom(123)] is its first statement, and the
    helpers receive [random] as an argument. *)
Definition script_generateChargingStations (_ : unit) : list ChargingStation :=
  let random := seededRandom 123 in
  fst (generateStationsFrom cityHubs highwayStations random).

End StationGenerator.


(** ** Demand edges (tripData.ts, its precomputed-routes variant, and the
       precomputation script) *)

Inductive TripType : Type := commuter | roadtrip | delivery.

Record EVRoute : Type := {
  from : ChargingStation;
  to : ChargingStation;
  tripType : TripType;
  weight : Z
}.

(** [s.id.startsWith('highway-')] *)
Definition isHighway (s : ChargingStation) : bool :=
  String.prefix "highway-" (id s).

(** [str.includes(needle)] *)
Fixpoint includes (needle str : string) : bool :=
  String.prefix needle str ||
  match str with
  | EmptyString => false
  | String _ rest => includes needle rest
  end.

Definition isSuperfast (s : ChargingStation) : bool :=
  match type s with superfast => true | _ => false end.

Definition isFastOrSuperfast (s : ChargingStation) : bool :=
  match type s with superfast | fast => true | standard => false end.

Definition getRouteKey (fromId toId : string) : string :=
  fromId +:+ "-" +:+ toId.

(** [arr.sort(() => random() - 0.5)]: the comparator ignores its arguments
    and draws once per comparison.  Which comparisons are made, hence how
    many draws are consumed and which order comes out, is left to the engine
    by the language; what every engine guarantees is that the result holds
    the same elements. *)
Class ArraySort : Type := {
  sortRandom : forall {T : Type}, list T -> Rand (list T)
}.

Definition SortPermutes (engine : ArraySort) : Prop :=
  forall (T : Type) (l : list T) (st : Z),
    Permutation (fst (sortRandom l st)) l.

(** One engine: the scheme a TimSort-based engine applies to an array of
    fewer than 64 elements: find the run at the front of the array, reverse
    it when it is descending, then place each later element in the sorted
    prefix by binary insertion.  The comparator ignores its arguments, so
    only the sign of [random() - 0.5] matters. *)
Definition compareNegative : Rand bool :=
  (do r <~ Prng.random; rret (Qltb (r - 0.5) 0))%rand.

(** The loop of the run count, from the third element on: compare each
    element with its predecessor and stop at the first comparison that
    breaks the order of the run. *)
Fixpoint extendRun {T} (isDescending : bool) (rest : list T) (runLength : nat)
    : Rand nat :=
  match rest with
  | [] => rret runLength
  | _ :: rest' =>
      (do negative <~ compareNegative;
       if Bool.eqb isDescending negative
       then extendRun isDescending rest' (S runLength)
       else rret runLength)%rand
  end.

(** The run at the front, made ascending, and the elements after it. *)
Definition countAndMakeRun {T} (l : list T) : Rand (list T * list T) :=
  match l with
  | _ :: _ :: rest =>
      (do isDescending <~ compareNegative;
       do runLength <~ extendRun isDescending rest 2;
       let run := take runLength l in
       rret (if isDescending then rev run else run, drop runLength l))%rand
  | _ => rret (l, [])
  end.

(** The binary search of the insertion point in [left, right); it makes at
    most [fuel] comparisons, and [right - left] are enough. *)
Fixpoint findSlot (fuel left right : nat) : Rand nat :=
  match fuel with
  | O => rret left
  | S fuel' =>
      if (left <? right)%nat then
        let mid := (left + (right - left) / 2)%nat in
        (do negative <~ compareNegative;
         if negative then findSlot fuel' left mid
         else findSlot fuel' (mid + 1)%nat right)%rand
      else rret left
  end.

Fixpoint binaryInsertion {T} (sorted todo : list T) : Rand (list T) :=
  match todo with
  | [] => rret sorted
  | pivot :: rest =>
      (do left <~ findSlot (length sorted) 0 (length sorted);
       binaryInsertion (take left sorted ++ pivot :: drop left sorted) rest)%rand
  end.

Definition runInsertionSortRandom {T} (l : list T) : Rand (list T) :=
  (do split <~ countAndMakeRun l;
   binaryInsertion (fst split) (snd split))%rand.

Definition runInsertionEngine : ArraySort :=
  {| sortRandom := @runInsertionSortRandom |}.

Section RouteNetwork.
Context {engine : ArraySort}.
(** [getDistance], the haversine distance in km; it is built from
    [Math.sin], [Math.cos], [Math.atan2] and [Math.sqrt]. *)
Variable getDistance : Q * Q -> Q * Q -> Q.

Import Prng.
Local Open Scope rand_scope.

(** The callback of [filter] in [findNearbyStations]. *)
Definition inWindow (station : ChargingStation) (minKm maxKm : Q)
    (s : ChargingStation) : bool :=
  if String.eqb (id s) (id station) then false
  else
    let dist := getDistance (coordinates station) (coordinates s) in
    Qgeb dist minKm && Qleb dist maxKm.

Definition findNearbyStations (station : ChargingStation)
    (stations : list ChargingStation) (minKm maxKm : Q)
    : Rand (list ChargingStation) :=
  sortRandom (List.filter (inWindow station minKm maxKm) stations).

(** Rule 1, the callback of [highwayStations.forEach]. *)
Definition highwayCorridor (chargingStations : list ChargingStation)
    (station : ChargingStation) : Rand (list EVRoute) :=
  do nearby <~ findNearbyStations station chargingStations 20 80;
  forEach
    (fun target =>
       if isHighway target then
         do r <~ random;
         rret [ {| from := station; to := target; tripType := roadtrip;
                   weight := 3 + Math_floor (r * 4) |} ]
       else rret [])
    (take 3 nearby).

(** Rule 2, the callback of the first [cityStations.forEach]. *)
Definition cityToHighway (highwayStations : list ChargingStation)
    (station : ChargingStation) : Rand (list EVRoute) :=
  do r <~ random;
  if Qgtb r 0.3 then rret []
  else
    do shuffled <~ sortRandom
         (List.filter
            (fun h => Qltb (getDistance (coordinates station) (coordinates h)) 40)
            highwayStations);
    match head shuffled with
    | Some nearbyHighway =>
        rret [ {| from := station; to := nearbyHighway; tripType := roadtrip;
                  weight := 2 |} ]
    | None => rret []
    end.

(** Rule 3, the callback of the second [cityStations.forEach]. *)
Definition localCommuter (chargingStations : list ChargingStation)
    (station : ChargingStation) : Rand (list EVRoute) :=
  do nearbyCity <~ findNearbyStations station chargingStations 3 25;
  forEach
    (fun target =>
       do r <~ random;
       rret [ {| from := station; to := target; tripType := commuter;
                 weight := 4 + Math_floor (r * 4) |} ])
    (take 2 (List.filter (fun s => negb (isHighway s)) nearbyCity)).

(** Rule 4, the callback of [deliveryHubs.forEach]. *)
Definition deliveryRoutes (chargingStations : list ChargingStation)
    (hub : ChargingStation) : Rand (list EVRoute) :=
  do nearbyStations <~ findNearbyStations hub chargingStations 2 15;
  forEach
    (fun target =>
       do r <~ random;
       rret [ {| from := hub; to := target; tripType := delivery;
                 weight := 5 + Math_floor (r * 5) |} ])
    (take 4 nearbyStations).

(** The precomputation script: [generateEVRouteNetwork(chargingStations, random)]. *)
Definition script_generateEVRouteNetwork (chargingStations : list ChargingStation)
    : Rand (list EVRoute) :=
  let highwayStations := List.filter isHighway chargingStations in
  let cityStations := List.filter (fun s => negb (isHighway s)) chargingStations in
  do r1 <~ forEach (highwayCorridor chargingStations) highwayStations;
  do r2 <~ forEach (cityToHighway highwayStations) cityStations;
  do r3 <~ forEach (localCommuter chargingStations) cityStations;
  let deliveryHubs := List.filter isSuperfast cityStations in
  do r4 <~ forEach (deliveryRoutes chargingStations) deliveryHubs;
  rret (r1 ++ r2 ++ r3 ++ r4).

(** tripData.ts: [generateEVRouteNetwork(random)]; the station list is the
    imported module constant [chargingStations], here [moduleStations]. *)
Variable moduleStations : list ChargingStation.

Definition live_generateEVRouteNetwork : Rand (list EVRoute) :=
  let highwayStations := List.filter isHighway moduleStations in
  let cityStations := List.filter (fun s => negb (isHighway s)) moduleStations in
  do r1 <~ forEach (highwayCorridor moduleStations) highwayStations;
  do r2 <~ forEach (cityToHighway highwayStations) cityStations;
  do r3 <~ forEach (localCommuter moduleStations) cityStations;
  let deliveryHubs := List.filter isSuperfast cityStations in
  do r4 <~ forEach (deliveryRoutes moduleStations) deliveryHubs;
  rret (r1 ++ r2 ++ r3 ++ r4).

(** The variant of tripData.ts that reads the precomputed table has a fifth
    group of rules for Amsterdam and Rotterdam. *)
Definition interCity (rotterdamStations : list ChargingStation)
    (amsStation : ChargingStation) : Rand (list EVRoute) :=
  forEach
    (fun rotStation =>
       do r <~ random;
       if Qgtb r 0.6 then rret []
       else
         do r' <~ random;
         rret [ {| from := amsStation; to := rotStation; tripType := roadtrip;
                   weight := 3 + Math_floor (r' * 3) |} ])
    (take 6 rotterdamStations).

Definition internalCommuter (cityGroup : list ChargingStation)
    (station : ChargingStation) : Rand (list EVRoute) :=
  do shuffled <~ sortRandom
       (List.filter (fun s => negb (String.eqb (id s) (id station))) cityGroup);
  forEach
    (fun target =>
       do r <~ random;
       rret [ {| from := station; to := target; tripType := commuter;
                 weight := 5 + Math_floor (r * 5) |} ])
    (take 3 shuffled).

Definition deliveryBoost (chargingStations : list ChargingStation)
    (hub : ChargingStation) : Rand (list EVRoute) :=
  do nearbyStations <~ findNearbyStations hub chargingStations 1 20;
  forEach
    (fun target =>
       do r <~ random;
       rret [ {| from := hub; to := target; tripType := delivery;
                 weight := 6 + Math_floor (r * 6) |} ])
    (take 6 nearbyStations).

Definition extraRoutes (cityStations : list ChargingStation) : Rand (list EVRoute) :=
  let amsterdamStations :=
    List.filter (fun s => includes "Amsterdam" (name s)) cityStations in
  let rotterdamStations :=
    List.filter (fun s => includes "Rotterdam" (name s)) cityStations in
  do e1 <~ forEach (interCity rotterdamStations) (take 8 amsterdamStations);
  do e2 <~ forEach (internalCommuter amsterdamStations) amsterdamStations;
  do e3 <~ forEach (internalCommuter rotterdamStations) rotterdamStations;
  let amsDeliveryHubs := List.filter isFastOrSuperfast amsterdamStations in
  let rotDeliveryHubs := List.filter isFastOrSuperfast rotterdamStations in
  do e4 <~ forEach (deliveryBoost moduleStations) (amsDeliveryHubs ++ rotDeliveryHubs);
  rret (e1 ++ e2 ++ e3 ++ e4).

Definition precomputed_generateEVRouteNetwork : Rand (list EVRoute) :=
  let highwayStations := List.filter isHighway moduleStations in
  let cityStations := List.filter (fun s => negb (isHighway s)) moduleStations in
  do r1 <~ forEach (highwayCorridor moduleStations) highwayStations;
  do r2 <~ forEach (cityToHighway highwayStations) cityStations;
  do r3 <~ forEach (localCommuter moduleStations) cityStations;
  let deliveryHubs := List.filter isSuperfast cityStations in
  do r4 <~ forEach (deliveryRoutes moduleStations) deliveryHubs;
  do r5 <~ extraRoutes cityStations;
  rret (r1 ++ r2 ++ r3 ++ r4 ++ r5).

End RouteNetwork.

(** ** Route pairs and the persisted table *)

Record RouteGeometry : Type := {
  route_coordinates : list (Q * Q);
  duration : Q;                 (* seconds *)
  distance : Q                  (* meters *)
}.

Record RoutePair : Type := {
  pair_from : ChargingStation;
  pair_to : ChargingStation;
  pair_key : string
}.

(** The callback of [evRoutes.forEach] that collects the pairs to fetch;
    the state is [(routePairs, seenKeys)]. *)
Definition collectStep (acc : list RoutePair * gset string) (route : EVRoute)
    : list RoutePair * gset string :=
  let '(routePairs, seenKeys) := acc in
  let key := getRouteKey (id (from route)) (id (to route)) in
  let reverseKey := getRouteKey (id (to route)) (id (from route)) in
  let '(routePairs, seenKeys) :=
    if decide (key ∈ seenKeys) then (routePairs, seenKeys)
    else (routePairs ++ [ {| pair_from := from route; pair_to := to route;
                             pair_key := key |} ],
          {[ key ]} ∪ seenKeys) in
  if decide (reverseKey ∈ seenKeys) then (routePairs, seenKeys)
  else (routePairs ++ [ {| pair_from := to route; pair_to := from route;
                           pair_key := reverseKey |} ],
        {[ reverseKey ]} ∪ seenKeys).

Definition collectRoutePairs (evRoutes : list EVRoute) : list RoutePair :=
  fst (fold_left collectStep evRoutes ([], ∅)).

(** The script's fetch loop: [routeGeometries[key] = route] for every pair
    whose fetch returned a route.  [fetched] stands for
    [fetchRouteWithRetry] against the routing service. *)
Definition persistStep (fetched : Q * Q -> Q * Q -> option RouteGeometry)
    (table : gmap string RouteGeometry) (p : RoutePair) : gmap string RouteGeometry :=
  match fetched (coordinates (pair_from p)) (coordinates (pair_to p)) with
  | Some route => <[ pair_key p := route ]> table
  | None => table
  end.

Definition persistRoutes (fetched : Q * Q -> Q * Q -> option RouteGeometry)
    (routePairs : list RoutePair) : gmap string RouteGeometry :=
  fold_left (persistStep fetched) routePairs ∅.

(** The keys the trip expander looks up for one demand edge. *)
Definition lookupKeys (evRoute : EVRoute) : list string :=
  [ getRouteKey (id (from evRoute)) (id (to evRoute));
    getRouteKey (id (to evRoute)) (id (from evRoute)) ].

(** ** The routing service *)

(** What [await fetch(url)] followed by [await response.json()] can
    produce: an exception, or a response with its status and the
    [routes] array of its body (empty when the field is missing). *)
Inductive FetchResult : Type :=
  | NetworkError
  | Http (status : Z) (routes : list RouteGeometry).

(** [response.ok] *)
Definition isOk (status : Z) : bool := (200 <=? status) && (status <=? 299).

(** The service seen from the client: the answer to the [n]-th request
    issued so far, for the two coordinates of its URL. *)
Definition Service : Type := nat -> Q * Q -> Q * Q -> FetchResult.

(** ** The script's fetcher: retry with back-off *)

Record Net : Type := {
  requests : nat;               (* calls of [fetch] so far *)
  sleeps : list Q               (* arguments of [sleep], in order *)
}.

Definition request (service : Service) (start end_ : Q * Q) (w : Net)
    : FetchResult * Net :=
  (service (requests w) start end_,
   {| requests := S (requests w); sleeps := sleeps w |}).

Definition sleep (ms : Q) (w : Net) : Net :=
  {| requests := requests w; sleeps := sleeps w ++ [ms] |}.

(** The body of [for (let attempt = 0; attempt <= maxRetries; attempt++)];
    [iterations] is the number of iterations left, [maxRetries + 1 - attempt].
    Falling out of the loop returns [null]. *)
Fixpoint retryLoop (service : Service) (start end_ : Q * Q)
    (maxRetries : nat) (retryDelay : Q) (iterations attempt : nat) (w : Net)
    : option RouteGeometry * Net :=
  match iterations with
  | O => (None, w)
  | S rest =>
      let '(response, w) := request service start end_ w in
      match response with
      | NetworkError =>
          if (attempt <? maxRetries)%nat
          then retryLoop service start end_ maxRetries retryDelay rest (S attempt)
                 (sleep retryDelay w)
          else (None, w)
      | Http status routes =>
          if status =? 429 then
            if (attempt <? maxRetries)%nat
            then
              let waitTime := (retryDelay * inject_Z (2 ^ Z.of_nat attempt))%Q in
              retryLoop service start end_ maxRetries retryDelay rest (S attempt)
                (sleep waitTime w)
            else (None, w)
          else if negb (isOk status) then
            if (attempt <? maxRetries)%nat
            then retryLoop service start end_ maxRetries retryDelay rest (S attempt)
                   (sleep retryDelay w)
            else (None, w)
          else
            match routes with
            | [] => (None, w)
            | route :: _ => (Some route, w)
            end
      end
  end.

Definition fetchRouteWithRetry (service : Service) (start end_ : Q * Q)
    (maxRetries : nat) (retryDelay : Q) (w : Net) : option RouteGeometry * Net :=
  retryLoop service start end_ maxRetries retryDelay (S maxRetries) 0 w.

(** The defaults: [maxRetries = 3], [retryDelay = 2000]. *)
Definition defaultMaxRetries : nat := 3.
Definition defaultRetryDelay : Q := 2000.

Definition totalWait (w : Net) : Q := foldr Qplus 0%Q (sleeps w).

(** ** The application's fetcher: the route cache *)

(** [x.toFixed(f)]: the integer [n] nearest to [x * 10^f], the larger one
    on a tie, printed with [f] decimals after a sign. *)
Fixpoint padZeros (fuel width : nat) (digits : string) : string :=
  match fuel with
  | O => digits
  | S fuel' => if (String.length digits <? width)%nat
               then padZeros fuel' width ("0" +:+ digits) else digits
  end.

Definition toFixed (f : nat) (x : Q) : string :=
  let scale := 10 ^ Z.of_nat f in
  let n := Qfloor (Qabs x * inject_Z scale + (1 # 2))%Q in
  (if Qltb x 0 then "-" else "") +:+
  pretty (n / scale) +:+ "." +:+ padZeros f f (pretty (n mod scale)).

Definition getCacheKey (start end_ : Q * Q) : string :=
  toFixed 4 (fst start) +:+ "," +:+ toFixed 4 (snd start) +:+ "-" +:+
  toFixed 4 (fst end_) +:+ "," +:+ toFixed 4 (snd end_).

Record Client : Type := {
  routeCache : gmap string RouteGeometry;
  issued : nat                  (* calls of [fetch] so far *)
}.

Definition fetchRoute (service : Service) (start end_ : Q * Q) (c : Client)
    : option RouteGeometry * Client :=
  let cacheKey := getCacheKey start end_ in
  match routeCache c !! cacheKey with
  | Some cached => (Some cached, c)
  | None =>
      let response := service (issued c) start end_ in
      let c := {| routeCache := routeCache c; issued := S (issued c) |} in
      match response with
      | NetworkError => (None, c)
      | Http status routes =>
          if negb (isOk status) then (None, c)
          else
            match routes with
            | [] => (None, c)
            | route :: _ =>
                (Some route,
                 {| routeCache := <[ cacheKey := route ]> (routeCache c);
                    issued := issued c |})
            end
      end
  end.

(** ** The trip expander *)

Record EVType : Type := {
  ev_type : string;
  brand : string;
  ev_color : Z * Z * Z;
  speedMult : Q;
  rangeKm : Q
}.

Definition evTypes : list EVType :=
  [ {| ev_type := "sedan"; brand := "Tesla Model 3"; ev_color := (255, 255, 255); speedMult := 1.1; rangeKm := 450 |};
    {| ev_type := "sedan"; brand := "Tesla Model 3"; ev_color := (200, 0, 0); speedMult := 1.1; rangeKm := 450 |};
    {| ev_type := "suv"; brand := "Tesla Model Y"; ev_color := (50, 50, 50); speedMult := 1.0; rangeKm := 400 |};
    {| ev_type := "suv"; brand := "Tesla Model X"; ev_color := (0, 0, 150); speedMult := 0.95; rangeKm := 500 |};
    {| ev_type := "hatchback"; brand := "VW ID.3"; ev_color := (0, 180, 255); speedMult := 1.0; rangeKm := 350 |};
    {| ev_type := "suv"; brand := "VW ID.4"; ev_color := (100, 100, 100); speedMult := 0.95; rangeKm := 380 |};
    {| ev_type := "sedan"; brand := "BMW i4"; ev_color := (0, 100, 200); speedMult := 1.05; rangeKm := 400 |};
    {| ev_type := "suv"; brand := "Audi e-tron"; ev_color := (80, 80, 80); speedMult := 0.9; rangeKm := 350 |};
    {| ev_type := "hatchback"; brand := "Hyundai Ioniq 5"; ev_color := (180, 180, 180); speedMult := 1.0; rangeKm := 380 |};
    {| ev_type := "suv"; brand := "Kia EV6"; ev_color := (0, 150, 100); speedMult := 1.0; rangeKm := 400 |};
    {| ev_type := "sedan"; brand := "Polestar 2"; ev_color := (255, 200, 0); speedMult := 1.05; rangeKm := 400 |};
    {| ev_type := "hatchback"; brand := "Nissan Leaf"; ev_color := (0, 100, 150); speedMult := 0.9; rangeKm := 280 |};
    {| ev_type := "van"; brand := "Mercedes eVito"; ev_color := (255, 200, 0); speedMult := 0.85; rangeKm := 250 |};
    {| ev_type := "van"; brand := "VW e-Crafter"; ev_color := (255, 140, 0); speedMult := 0.8; rangeKm := 200 |};
    {| ev_type := "van"; brand := "Rivian EDV"; ev_color := (0, 50, 100); speedMult := 0.85; rangeKm := 300 |} ].

Record TripWaypoint : Type := {
  wp_coordinates : Q * Q;
  timestamp : Q
}.

Record TripData : Type := {
  trip_id : string;
  waypoints : list TripWaypoint;
  vehicle : string;
  color : Z * Z * Z
}.

Definition getBatteryColor (batteryPercent : Q) : Z * Z * Z :=
  if Qgtb batteryPercent 60 then (0, 255, 136)
  else if Qgtb batteryPercent 30 then (255, 200, 0)
  else (255, 80, 80).

(** The local constants of [generateEVTripFromRoute]. *)
Definition scaledDuration (route : RouteGeometry) (ev : EVType) : Q :=
  ((duration route / 60) * 20 / speedMult ev)%Q.

Definition timePerStep (route : RouteGeometry) (ev : EVType) : Q :=
  let numWaypoints := length (route_coordinates route) in
  if (1 <? numWaypoints)%nat
  then (scaledDuration route ev / inject_Z (Z.of_nat numWaypoints - 1))%Q
  else 0%Q.

Definition tripDistanceKm (route : RouteGeometry) : Q := (distance route / 1000)%Q.

(** [startBattery = 30 + random() * 60], from the draw [r] *)
Definition startBattery (r : Q) : Q := (30 + r * 60)%Q.

Definition batteryUsed (route : RouteGeometry) (ev : EVType) : Q :=
  ((tripDistanceKm route / rangeKm ev) * 100)%Q.

Definition endBattery (r : Q) (route : RouteGeometry) (ev : EVType) : Q :=
  Qmax 5 (startBattery r - batteryUsed route ev).

Definition tripColor (evRoute : EVRoute) (avgBattery : Q) : Z * Z * Z :=
  match tripType evRoute with
  | delivery => (255, 160, 0)
  | roadtrip => getBatteryColor avgBattery
  | commuter =>
      let '(r, g, b) := getBatteryColor avgBattery in
      (Z.min 255 (r + 80), Z.min 255 (g + 80), Z.min 255 (b + 80))
  end.

Definition generateEVTripFromRoute (route : RouteGeometry) (startTime : Q)
    (ev : EVType) (tripId : nat) (evRoute : EVRoute) : Rand TripData :=
  (do r <~ Prng.random;
   let avgBattery := ((startBattery r + endBattery r route ev) / 2)%Q in
   rret {| trip_id := "ev-" +:+ pretty tripId +:+ "-" +:+
                      String.substring 0 10 (name (from evRoute)) +:+ "-" +:+
                      String.substring 0 10 (name (to evRoute));
           waypoints :=
             imap (fun i coords =>
                     {| wp_coordinates := coords;
                        timestamp := (startTime + inject_Z (Z.of_nat i) * timePerStep route ev)%Q |})
                  (route_coordinates route);
           vehicle := ev_type ev;
           color := tripColor evRoute avgBattery |})%rand.

Definition LOOP_DURATION : Q := 1800.

Definition isVan (ev : EVType) : bool := String.eqb (ev_type ev) "van".

Definition eligibleEVsFor (evRoute : EVRoute) : list EVType :=
  match tripType evRoute with
  | delivery => List.filter isVan evTypes
  | _ => List.filter (fun ev => negb (isVan ev)) evTypes
  end.

(** [eligibleEVs[Math.floor(random() * eligibleEVs.length)]]; the index is
    in range for every draw below 1 ([drawEV_in_range]), so the default is
    never read. *)
Definition drawEV (eligibleEVs : list EVType) : Rand EVType :=
  (do r <~ Prng.random;
   rret (nth (Z.to_nat (Math_floor (r * inject_Z (Z.of_nat (length eligibleEVs)))))
             eligibleEVs
             {| ev_type := "undefined"; brand := "undefined"; ev_color := (0, 0, 0);
                speedMult := 1; rangeKm := 1 |}))%rand.

Section TripExpander.
Variable routeGeometries : gmap string RouteGeometry.
Import Prng.
Local Open Scope rand_scope.

(** The block under [// Forward trip]: the trips pushed and the counter
    after it. *)
Definition forwardTrip (forwardRoute : option RouteGeometry) (startTime : Q)
    (ev : EVType) (tripId : nat) (evRoute : EVRoute) : Rand (list TripData * nat) :=
  match forwardRoute with
  | Some route =>
      do t <~ generateEVTripFromRoute route startTime ev tripId evRoute;
      rret ([t], S tripId)
  | None => rret ([], tripId)
  end.

(** The block under [// Return trip]: [random() > 0.3 && reverseRoute]
    draws in every case. *)
Definition returnTrip (reverseRoute : option RouteGeometry) (startTime : Q)
    (eligibleEVs : list EVType) (tripId : nat) (evRoute : EVRoute)
    : Rand (list TripData * nat) :=
  do r <~ random;
  match reverseRoute with
  | Some route =>
      if Qgtb r 0.3 then
        do r2 <~ random;
        let returnStartTime :=
          js_rem (startTime + LOOP_DURATION / 2 + r2 * 200) LOOP_DURATION in
        do returnEV <~ drawEV eligibleEVs;
        let returnEvRoute :=
          {| from := to evRoute; to := from evRoute;
             tripType := tripType evRoute; weight := weight evRoute |} in
        do t <~ generateEVTripFromRoute route returnStartTime returnEV tripId returnEvRoute;
        rret ([t], S tripId)
      else rret ([], tripId)
  | None => rret ([], tripId)
  end.

(** One iteration of [for (let i = 0; i < numTrips; i++)]; [tripId] is the
    running counter, returned updated. *)
Definition tripIteration (evRoute : EVRoute) (i : Z) (tripId : nat)
    : Rand (list TripData * nat) :=
  let forwardRoute :=
    routeGeometries !! getRouteKey (id (from evRoute)) (id (to evRoute)) in
  let reverseRoute :=
    routeGeometries !! getRouteKey (id (to evRoute)) (id (from evRoute)) in
  let numTrips := weight evRoute in
  let eligibleEVs := eligibleEVsFor evRoute in
  do r <~ random;
  let startTime :=
    js_rem (inject_Z i * (LOOP_DURATION / inject_Z numTrips) + r * 50) LOOP_DURATION in
  do ev <~ drawEV eligibleEVs;
  do a <~ forwardTrip forwardRoute startTime ev tripId evRoute;
  do b <~ returnTrip reverseRoute startTime eligibleEVs (snd a) evRoute;
  rret (fst a ++ fst b, snd b).

Fixpoint tripLoop (evRoute : EVRoute) (indices : list Z) (tripId : nat)
    : Rand (list TripData * nat) :=
  match indices with
  | [] => rret ([], tripId)
  | i :: rest =>
      do a <~ tripIteration evRoute i tripId;
      do b <~ tripLoop evRoute rest (snd a);
      rret (fst a ++ fst b, snd b)
  end.

(** [evRoutes.forEach((evRoute) => ...)] *)
Fixpoint routesLoop (evRoutes : list EVRoute) (tripId : nat)
    : Rand (list TripData * nat) :=
  match evRoutes with
  | [] => rret ([], tripId)
  | evRoute :: rest =>
      do a <~ tripLoop evRoute (seqZ 0 (weight evRoute)) tripId;
      do b <~ routesLoop rest (snd a);
      rret (fst a ++ fst b, snd b)
  end.

(** [generateTripData()], for the module-level [evRoutes]. *)
Definition generateTripData (evRoutes : list EVRoute) : list TripData :=
  let random := seededRandom 42 in
  fst (fst (routesLoop evRoutes 0 random)).

End TripExpander.

(** The retry policy in the words of the specification: the wait that
    follows the response to attempt [attempt] when that response calls for a
    retry (exponential for status 429, flat for any other failure), [None]
    when the response ends the loop. *)
Definition retryWait (retryDelay : Q) (attempt : nat) (response : FetchResult)
    : option Q :=
  match response with
  | NetworkError => Some retryDelay
  | Http status _ =>
      if status =? 429 then Some (retryDelay * inject_Z (2 ^ Z.of_nat attempt))%Q
      else if negb (isOk status) then Some retryDelay
      else None
  end.

(** Two stubs of the routing service. *)
Definition stubAlways (status : Z) : Service := fun _ _ _ => Http status [].

Definition stubRateLimitedTwice (route : RouteGeometry) : Service :=
  fun n _ _ => if (n <? 2)%nat then Http 429 [] else Http 200 [route].

(** A fresh client: empty cache, nothing requested. *)
Definition freshClient : Client := {| routeCache := ∅; issued := 0 |}.

(** ** Auxiliary definitions of the statements *)

Definition stationId (n : nat) : string := "station-" +:+ pretty n.
Definition highwayId (n : nat) : string := "highway-" +:+ pretty n.

Definition totalDensity (hubs : list CityHub) : nat :=
  foldr (fun h acc => (density h + acc)%nat) 0%nat hubs.

(** The wait after attempt [k] of a run that starts with no request issued. *)
Definition waitAfter (service : Service) (start end_ : Q * Q) (retryDelay : Q)
    (k : nat) : Q :=
  default 0%Q (retryWait retryDelay k (service k start end_)).

Definition sampleRoute : RouteGeometry :=
  {| route_coordinates := [(4.9, 52.37)%Q; (4.7, 52.2)%Q; (4.46, 51.93)%Q];
     duration := 3000; distance := 60000 |}.



(** Stand-ins for [Math.PI], [Math.cos] and [Math.sin] where a statement
    is evaluated on fields that do not read the coordinates. *)
Definition anyPI : Q := 3.141592653589793.
Definition anyTrig (x : Q) : Q := 0.

(** A second implementation of the trigonometric stand-in: another
    function body that returns the same values. *)
Definition branchingTrig (x : Q) : Q := if Qle_bool x 0 then 0%Q else 0%Q.

(** Every field of a station but its coordinates. *)
Definition fieldsButCoordinates (s : ChargingStation)
    : string * string * Z * StationType * string * Z :=
  (id s, name s, chargers s, type s, operator s, available s).


(** The waypoints [generateEVTripFromRoute] builds for [route], [startTime]
    and [ev]. *)
Definition waypointsOf (route : RouteGeometry) (startTime : Q) (ev : EVType)
    : list TripWaypoint :=
  imap (fun i coords =>
          {| wp_coordinates := coords;
             timestamp := (startTime + inject_Z (Z.of_nat i) * timePerStep route ev)%Q |})
       (route_coordinates route).

(** What the statement on timestamps says of the waypoints of one trip:
    they do not decrease along the path, and they are laid out from
    [startTime] in steps of [timePerStep route ev], so that the first one
    is [startTime] and, with two waypoints or more, the last one is
    [startTime] plus the scaled duration of [route] for [ev]. *)
Definition nonDecreasing (ws : list TripWaypoint) : Prop :=
  forall i j wi wj, (i <= j)%nat -> ws !! i = Some wi -> ws !! j = Some wj ->
                    (timestamp wi <= timestamp wj)%Q.

Definition timedBy (route : RouteGeometry) (ev : EVType) (startTime : Q)
    (ws : list TripWaypoint) : Prop :=
  (forall i w, ws !! i = Some w ->
               timestamp w = (startTime + inject_Z (Z.of_nat i) * timePerStep route ev)%Q) /\
  (forall w0, head ws = Some w0 -> (timestamp w0 == startTime)%Q) /\
  (forall wn, last ws = Some wn -> (2 <= length ws)%nat ->
              (timestamp wn == startTime + scaledDuration route ev)%Q).

(** Sample data: one demand edge of weight 2 whose forward route takes
    fifty minutes. *)
Definition sampleCity : ChargingStation :=
  {| id := "station-0"; name := "Amsterdam Noord 1"; coordinates := (4.9, 52.37)%Q;
     chargers := 4; type := standard; operator := "Tesla"; available := 0 |}.

Definition sampleHighway : ChargingStation :=
  {| id := "highway-0"; name := "A1 Amersfoort Charging Plaza";
     coordinates := (5.387, 52.156)%Q;
     chargers := 12; type := superfast; operator := "Fastned"; available := 3 |}.

Definition sampleEdge : EVRoute :=
  {| from := sampleCity; to := sampleHighway; tripType := roadtrip; weight := 2 |}.

Definition sampleTable : gmap string RouteGeometry :=
  {[ "station-0-highway-0" := sampleRoute ]}.

(** Sample network: six stations of an Amsterdam cluster a hundred metres
    apart, and four highway stations to the north of it, all on the meridian
    5.0 E.  For two points on one meridian the haversine distance is the
    earth radius times the difference of latitude, 111.19 km per degree:
    the cluster is 11 km from highway-0, 33 km from highway-1, 55 km from
    highway-2 and 78 km from highway-3; consecutive highway stations are
    22 km apart. *)
Definition meridianDistance (coord1 coord2 : Q * Q) : Q :=
  (Qabs (snd coord2 - snd coord1) * 111.19)%Q.

Definition clusterStation (n : nat) (suffix : string) (lat : Q) (t : StationType)
    : ChargingStation :=
  {| id := "station-" +:+ pretty n;
     name := "Amsterdam " +:+ suffix +:+ " " +:+ pretty (n + 1)%nat;
     coordinates := (5.0, lat)%Q;
     chargers := 4; type := t; operator := "Allego"; available := 2 |}.

Definition corridorStation (n : nat) (label : string) (lat : Q) : ChargingStation :=
  {| id := "highway-" +:+ pretty n;
     name := label +:+ " Charging Plaza";
     coordinates := (5.0, lat)%Q;
     chargers := 12; type := fast; operator := "Fastned"; available := 5 |}.

Definition cluster : list ChargingStation :=
  [ clusterStation 0 "Noord" 52.000 standard;
    clusterStation 1 "Zuid" 52.001 standard;
    clusterStation 2 "Oost" 52.002 standard;
    clusterStation 3 "West" 52.003 standard;
    clusterStation 4 "Park" 52.004 standard;
    clusterStation 5 "Mall" 52.005 standard ].

Definition corridor : list ChargingStation :=
  [ corridorStation 0 "A2 Breukelen" 52.1;
    corridorStation 1 "A2 Vianen" 52.3;
    corridorStation 2 "A2 Den Bosch" 52.5;
    corridorStation 3 "A2 Weert" 52.7 ].

Definition sampleStations : list ChargingStation := cluster ++ corridor.

(** The demand edges leaving the station [sid]. *)
Definition edgesFrom (sid : string) (routes : list EVRoute) : list EVRoute :=
  List.filter (fun r => String.eqb (id (from r)) sid) routes.

Definition edgeIds (r : EVRoute) : string * string * TripType * Z :=
  (id (from r), id (to r), tripType r, weight r).

Definition station3 : ChargingStation := clusterStation 3 "West" 52.003 standard.
Definition highway0 : ChargingStation := corridorStation 0 "A2 Breukelen" 52.1.
Definition highway1 : ChargingStation := corridorStation 1 "A2 Vianen" 52.3.
Definition highway2 : ChargingStation := corridorStation 2 "A2 Den Bosch" 52.5.

(** The script's run on the sample network, and the application's. *)
Definition sampleScriptRoutes : list EVRoute :=
  fst (script_generateEVRouteNetwork (engine := runInsertionEngine) meridianDistance
         sampleStations (Prng.seededRandom 42)).

Definition sampleAppRoutes : list EVRoute :=
  fst (precomputed_generateEVRouteNetwork (engine := runInsertionEngine) meridianDistance
         sampleStations (Prng.seededRandom 42)).

(** One of the application's edges of the sample run. *)
Definition station0 : ChargingStation := clusterStation 0 "Noord" 52.000 standard.
Definition station4 : ChargingStation := clusterStation 4 "Park" 52.004 standard.

(** ** Statements on the station generator *)

(** The range of [chargers] for a station type: the city block draws
    [8 + floor(8r)], [4 + floor(6r)] or [2 + floor(4r)], the highway block
    [12 + floor(12r)] or [6 + floor(8r)]. *)
Definition chargersBand (onHighway : bool) (t : StationType) : Z * Z :=
  match onHighway, t with
  | false, superfast => (8, 15)
  | false, fast => (4, 9)
  | false, standard => (2, 5)
  | true, superfast => (12, 23)
  | true, _ => (6, 13)
  end.

Definition countsInBounds (s : ChargingStation) : Prop :=
  fst (chargersBand (isHighway s) (type s)) <= chargers s
    <= snd (chargersBand (isHighway s) (type s)) /\
  0 <= available s <= chargers s /\
  (isHighway s = true -> type s <> standard).

(** The draws one station consumes: six on the highway; in a city seven,
    and one more for the type unless the first draw gave [superfast]. *)
Definition drawsOfStation (s : ChargingStation) : nat :=
  if isHighway s then 6
  else match type s with superfast => 7 | _ => 8 end.

Definition drawsOfStations (l : list ChargingStation) : nat :=
  foldr (fun s acc => (drawsOfStation s + acc)%nat) 0%nat l.

(** A point within [dLng] degrees of longitude and [dLat] degrees of
    latitude of [centre]. *)
Definition nearPoint (centre : Q * Q) (dLng dLat : Q) (p : Q * Q) : Prop :=
  (Qabs (fst p - fst centre) <= dLng)%Q /\ (Qabs (snd p - snd centre) <= dLat)%Q.

(** A station named after a hub: [`${cityName} ${suffix} ${i + 1}`]. *)
Definition namedAfterHub (hub : CityHub) (s : ChargingStation) : Prop :=
  exists suffix k,
    In suffix nameSuffixes /\ (1 <= k <= density hub)%nat /\
    name s = hub_name hub +:+ " " +:+ suffix +:+ " " +:+ pretty k.

Definition labelled (hubs : list CityHub) (hws : list (string * (Q * Q)))
    (s : ChargingStation) : Prop :=
  In (operator s) operators /\
  if isHighway s
  then exists hw, In hw hws /\ name s = fst hw +:+ " Charging Plaza"
  else exists hub, In hub hubs /\ namedAfterHub hub s.

(** Bounded stand-ins for [Math.cos] and [Math.sin]. *)
Definition unitTrig (x : Q) : Q := 1.

(** ** Statements on the demand edges *)

(** What rules 1 to 4 allow an edge to be: a corridor between two highway
    stations 20 to 80 km apart (weight 3..6), a link from a city station to
    a highway station less than 40 km away (weight 2), a commuter edge
    between two city stations 3 to 25 km apart (weight 4..7), or a delivery
    edge from a superfast city station to any station 2 to 15 km away
    (weight 5..9). *)
Definition edgeFollowsRule (getDistance : Q * Q -> Q * Q -> Q)
    (stations : list ChargingStation) (r : EVRoute) : Prop :=
  In (from r) stations /\ In (to r) stations /\
  match tripType r with
  | roadtrip =>
      (isHighway (from r) = true /\ isHighway (to r) = true /\
       inWindow getDistance (from r) 20 80 (to r) = true /\ 3 <= weight r <= 6) \/
      (isHighway (from r) = false /\ isHighway (to r) = true /\
       (getDistance (coordinates (from r)) (coordinates (to r)) < 40)%Q /\ weight r = 2)
  | commuter =>
      isHighway (from r) = false /\ isHighway (to r) = false /\
      inWindow getDistance (from r) 3 25 (to r) = true /\ 4 <= weight r <= 7
  | delivery =>
      isHighway (from r) = false /\ isSuperfast (from r) = true /\
      inWindow getDistance (from r) 2 15 (to r) = true /\ 5 <= weight r <= 9
  end.

(** What the fifth group of rules adds: Amsterdam to Rotterdam road trips
    (weight 3..5), commuter edges inside Amsterdam or inside Rotterdam with
    no distance window (weight 5..9), and delivery edges from the fast and
    superfast stations of the two cities to any station 1 to 20 km away
    (weight 6..11). *)
Definition inCity (city : string) (s : ChargingStation) : bool :=
  includes city (name s).

Definition edgeFollowsExtraRule (getDistance : Q * Q -> Q * Q -> Q)
    (stations : list ChargingStation) (r : EVRoute) : Prop :=
  In (from r) stations /\ In (to r) stations /\ isHighway (from r) = false /\
  match tripType r with
  | roadtrip =>
      inCity "Amsterdam" (from r) = true /\ inCity "Rotterdam" (to r) = true /\
      isHighway (to r) = false /\ 3 <= weight r <= 5
  | commuter =>
      id (to r) <> id (from r) /\ isHighway (to r) = false /\
      (exists city, (city = "Amsterdam" \/ city = "Rotterdam") /\
                    inCity city (from r) = true /\ inCity city (to r) = true) /\
      5 <= weight r <= 9
  | delivery =>
      isFastOrSuperfast (from r) = true /\
      (inCity "Amsterdam" (from r) = true \/ inCity "Rotterdam" (from r) = true) /\
      inWindow getDistance (from r) 1 20 (to r) = true /\ 6 <= weight r <= 11
  end.

(** ** The script's fetch loop *)

(** A collected pair: its key is the key of its two stations, which are the
    end points of one of the demand edges, in either direction. *)
Definition pairOfEdges (evRoutes : list EVRoute) (p : RoutePair) : Prop :=
  pair_key p = getRouteKey (id (pair_from p)) (id (pair_to p)) /\
  exists r, In r evRoutes /\
    ((pair_from p = from r /\ pair_to p = to r) \/
     (pair_from p = to r /\ pair_to p = from r)).

(** The variables the loop of step 4 updates, and the arguments of the
    [sleep] calls between batches. *)
Record FetchProgress : Type := {
  routeGeometries : gmap string RouteGeometry;
  fetchedCount : nat;
  failedCount : nat;
  batchSleeps : list Q
}.

Definition batchSize : nat := 2.
Definition delayBetweenBatches : Q := 500.

(** The callback of [batch.map].  The callbacks of one batch run
    concurrently; each performs its three updates in one turn of the event
    loop, after its own fetch has settled.  [fetched] stands for
    [fetchRouteWithRetry] against the routing service, as in
    [persistStep]; the callbacks are taken in the order of the batch. *)
Definition batchCallback (fetched : Q * Q -> Q * Q -> option RouteGeometry)
    (acc : FetchProgress) (p : RoutePair) : FetchProgress :=
  match fetched (coordinates (pair_from p)) (coordinates (pair_to p)) with
  | Some route =>
      {| routeGeometries := <[ pair_key p := route ]> (routeGeometries acc);
         fetchedCount := S (fetchedCount acc);
         failedCount := failedCount acc;
         batchSleeps := batchSleeps acc |}
  | None =>
      {| routeGeometries := routeGeometries acc;
         fetchedCount := fetchedCount acc;
         failedCount := S (failedCount acc);
         batchSleeps := batchSleeps acc |}
  end.

(** [for (let i = 0; i < routePairs.length; i += batchSize)]; [fuel] bounds
    the number of iterations, and [routePairs.length] is enough. *)
Fixpoint fetchLoop (fuel : nat) (fetched : Q * Q -> Q * Q -> option RouteGeometry)
    (routePairs : list RoutePair) (i : nat) (acc : FetchProgress) : FetchProgress :=
  match fuel with
  | O => acc
  | S fuel' =>
      if (i <? length routePairs)%nat then
        let batch := take batchSize (drop i routePairs) in
        let acc := fold_left (batchCallback fetched) batch acc in
        let acc :=
          if (i + batchSize <? length routePairs)%nat
          then {| routeGeometries := routeGeometries acc;
                  fetchedCount := fetchedCount acc;
                  failedCount := failedCount acc;
                  batchSleeps := batchSleeps acc ++ [delayBetweenBatches] |}
          else acc in
        fetchLoop fuel' fetched routePairs (i + batchSize) acc
      else acc
  end.

Definition fetchAllPairs (fetched : Q * Q -> Q * Q -> option RouteGeometry)
    (routePairs : list RoutePair) : FetchProgress :=
  fetchLoop (length routePairs) fetched routePairs 0
    {| routeGeometries := ∅; fetchedCount := 0; failedCount := 0; batchSleeps := [] |}.

(** Identifiers the station generator can produce. *)
Definition isGeneratedId (s : string) : Prop :=
  exists n : nat, s = stationId n \/ s = highwayId n.

(** The separator [-] (code 45), and a string without it. *)
Definition dash : Ascii.ascii := Ascii.Ascii true false true true false true false false.

Fixpoint noDash (s : string) : bool :=
  match s with
  | EmptyString => true
  | String c rest => negb (Ascii.eqb c dash) && noDash rest
  end.

(** ** Statements on the trip expander *)

(** [returnEvRoute]: the edge turned round. *)
Definition reverseEdge (evRoute : EVRoute) : EVRoute :=
  {| from := to evRoute; to := from evRoute;
     tripType := tripType evRoute; weight := weight evRoute |}.

(** A trip numbered [n] that [generateEVTripFromRoute] built for [evRoute]
    or for its reverse, from the table's route for that direction, with
    a vehicle eligible for [evRoute] and at a start time inside the loop. *)
Definition builtFor (table : gmap string RouteGeometry) (evRoute : EVRoute)
    (n : nat) (t : TripData) : Prop :=
  exists (edge : EVRoute) (route : RouteGeometry) (startTime : Q) (ev : EVType) (st : Z),
    (edge = evRoute \/ edge = reverseEdge evRoute) /\
    table !! getRouteKey (id (from edge)) (id (to edge)) = Some route /\
    In ev (eligibleEVsFor evRoute) /\
    (0 <= startTime)%Q /\ (startTime < LOOP_DURATION)%Q /\
    t = fst (generateEVTripFromRoute route startTime ev n edge st).

(** A list whose [k]-th element satisfies [P (n + k)]. *)
Definition numberedFrom (P : nat -> TripData -> Prop) (n : nat) (l : list TripData)
    : Prop :=
  forall k t, l !! k = Some t -> P (n + k)%nat t.

(** The colours a trip can get: amber for a delivery, the three battery
    colours for a road trip, their lightened forms for a commuter. *)
Definition amber : Z * Z * Z := (255, 160, 0).

Definition tripPalette : list (Z * Z * Z) :=
  [ amber;
    (0, 255, 136); (255, 200, 0); (255, 80, 80);
    (80, 255, 216); (255, 255, 80); (255, 160, 160) ].

Definition totalWeight (evRoutes : list EVRoute) : nat :=
  foldr (fun r acc => (Z.to_nat (weight r) + acc)%nat) 0%nat evRoutes.

(** ** The legend's filter sets, the layers and the statistics dashboard *)

(** A [Set] of type tags, as the list of its elements in insertion order;
    [Set_has] is [Set.prototype.has], [Set_size] the property [size]. *)
Definition Set_has {T : Type} (eqb : T -> T -> bool) (filters : list T) (type : T) : bool :=
  existsb (eqb type) filters.

Definition Set_size {T : Type} (filters : list T) : nat := length filters.

Definition StationType_eqb (a b : StationType) : bool :=
  match a, b with
  | standard, standard | fast, fast | superfast, superfast => true
  | _, _ => false
  end.

Module Legend.

(** [export type TripType = 'high_battery' | 'medium_battery' |
    'low_battery' | 'delivery'] *)
Inductive TripType : Type := high_battery | medium_battery | low_battery | delivery.

Definition TripType_eqb (a b : TripType) : bool :=
  match a, b with
  | high_battery, high_battery | medium_battery, medium_battery
  | low_battery, low_battery | delivery, delivery => true
  | _, _ => false
  end.

(** [tripItems], the rows of the legend; the CSS colour [rgb(r, g, b)] of a
    row as the triple of its channels. *)
Record TripItem : Type := {
  item_type : TripType;
  item_label : string;
  item_color : Z * Z * Z
}.

Definition tripItems : list TripItem :=
  [ {| item_type := high_battery; item_label := "High Battery"; item_color := (70, 185, 125) |};
    {| item_type := medium_battery; item_label := "Medium Battery"; item_color := (205, 175, 65) |};
    {| item_type := low_battery; item_label := "Low Battery"; item_color := (195, 95, 95) |};
    {| item_type := delivery; item_label := "Delivery"; item_color := (185, 110, 90) |} ].

End Legend.

(** App.tsx: the trip filters the app starts with,
    [new Set(['high_battery', 'medium_battery', 'low_battery', 'delivery'])]. *)
Definition initialTripFilters : list Legend.TripType :=
  [Legend.high_battery; Legend.medium_battery; Legend.low_battery; Legend.delivery].

Module TripsLayer.

(** tripsLayer.ts, [getTripTypeFromColor] *)
Definition getTripTypeFromColor (color : Z * Z * Z) : Legend.TripType :=
  let '(c0, c1, c2) := color in
  if (180 <? c0) && (100 <? c1) && (c1 <? 120) then Legend.delivery
  else if (150 <? c1) && (c0 <? 150) then Legend.high_battery
  else if (180 <? c0) && (c1 <? 140) && (c2 <? 140) then Legend.low_battery
  else Legend.medium_battery.

(** The [data] of the layer [createTripsLayer] returns; [visibleTripTypes]
    is optional. *)
Definition filteredData (data : list TripData)
    (visibleTripTypes : option (list Legend.TripType)) : list TripData :=
  match visibleTripTypes with
  | Some types =>
      if (0 <? Set_size types)%nat
      then List.filter
             (fun d => Set_has Legend.TripType_eqb types (getTripTypeFromColor (color d)))
             data
      else data
  | None => data
  end.

End TripsLayer.

Module ChargingStationLayer.

(** The [data] of the layer [createChargingStationLayer] returns. *)
Definition filteredData (data : list ChargingStation)
    (visibleTypes : option (list StationType)) : list ChargingStation :=
  match visibleTypes with
  | Some types =>
      if (0 <? Set_size types)%nat
      then List.filter (fun d => Set_has StationType_eqb types (type d)) data
      else data
  | None => data
  end.

(** [getElevation] of the station layer, and the [data] and
    [getElevation] of the glow layer. *)
Definition getElevation (d : ChargingStation) : Z := chargers d * 2.

Definition glowData (data : list ChargingStation) : list ChargingStation :=
  List.filter (fun d => 0 <? available d) data.

Definition glowElevation (d : ChargingStation) : Q := (inject_Z (available d) * 1.5)%Q.

End ChargingStationLayer.

(** [Math.round]: the nearest integer, the larger one on a tie. *)
Definition Math_round (x : Q) : Z := Qfloor (x + (1 # 2))%Q.

Module StatsDashboard.

(** StatsDashboard.tsx, [getTripTypeFromColor] *)
Definition getTripTypeFromColor (color : Z * Z * Z) : TripType :=
  let '(c0, c1, c2) := color in
  if (180 <? c0) && (100 <? c1) && (c1 <? 120) then delivery
  else if (100 <? c0) && (100 <? c1) && (100 <? c2) then commuter
  else roadtrip.

Definition TripType_eqb (a b : TripType) : bool :=
  match a, b with
  | commuter, commuter | roadtrip, roadtrip | delivery, delivery => true
  | _, _ => false
  end.

(** The fields of [stats]. *)
Definition totalStations (stations : list ChargingStation) : nat := length stations.

Definition stationsOfType (t : StationType) (stations : list ChargingStation) : nat :=
  length (List.filter (fun s => StationType_eqb (type s) t) stations).

Definition visibleStations (stations : list ChargingStation)
    (stationFilters : list StationType) : nat :=
  length (List.filter (fun s => Set_has StationType_eqb stationFilters (type s)) stations).

Definition totalChargers (stations : list ChargingStation) : Z :=
  fold_left (fun sum s => sum + chargers s) stations 0.

Definition availableChargers (stations : list ChargingStation) : Z :=
  fold_left (fun sum s => sum + available s) stations 0.

Definition utilization (stations : list ChargingStation) : Z :=
  if 0 <? totalChargers stations
  then Math_round
         ((inject_Z (totalChargers stations - availableChargers stations)
           / inject_Z (totalChargers stations)) * 100)%Q
  else 0.

Definition totalTrips (trips : list TripData) : nat := length trips.

Definition tripsOfType (t : TripType) (trips : list TripData) : nat :=
  length (List.filter (fun d => TripType_eqb (getTripTypeFromColor (color d)) t) trips).

Definition visibleTrips (trips : list TripData) (tripFilters : list Legend.TripType)
    : nat :=
  if (0 <? Set_size tripFilters)%nat
  then length
         (List.filter
            (fun t =>
               let '(c0, c1, c2) := color t in
               if (180 <? c0) && (100 <? c1) && (c1 <? 120)
               then Set_has Legend.TripType_eqb tripFilters Legend.delivery
               else if (150 <? c1) && (c0 <? 150)
               then Set_has Legend.TripType_eqb tripFilters Legend.high_battery
               else if (180 <? c0) && (c1 <? 140) && (c2 <? 140)
               then Set_has Legend.TripType_eqb tripFilters Legend.low_battery
               else Set_has Legend.TripType_eqb tripFilters Legend.medium_battery)
            trips)
  else 0%nat.

(** The class of the usage figure. *)
Definition usageClass (stations : list ChargingStation) : string :=
  if 70 <? utilization stations then "high"
  else if 40 <? utilization stations then "medium"
  else "low".

End StatsDashboard.

(** ** The animation clock *)

Definition MAX_TRIP_TIME : Q := 1800.

(** The updater passed to [setCurrentTime] by one animation frame; [delta]
    is the time since the previous frame, in milliseconds. *)
Definition animate (animationSpeed delta t : Q) : Q :=
  let next := (t + (delta * 0.1 * animationSpeed))%Q in
  if Qgtb next MAX_TRIP_TIME then 0%Q else next.

(** The clock after a sequence of frames. *)
Definition runFrames (animationSpeed : Q) (deltas : list Q) (t : Q) : Q :=
  fold_left (fun t delta => animate animationSpeed delta t) deltas t.

(** The speeds the controls offer. *)
Definition speeds : list Q := [0.1; 0.25; 0.5; 1; 2]%Q.

(** ** Statements on the two fetchers *)

(** What a response that ends the retry loop makes the fetcher return. *)
Definition outcome (response : FetchResult) : option RouteGeometry :=
  match response with
  | Http status (route :: _) =>
      if (status =? 429) || negb (isOk status) then None else Some route
  | _ => None
  end.

(** The attempt that ends the loop, counted from [attempt] with
    [iterations] retries left: the first one whose response calls for no
    retry, or the last one allowed. *)
Fixpoint lastAttempt (service : Service) (start end_ : Q * Q) (retryDelay : Q)
    (iterations attempt : nat) : nat :=
  match iterations with
  | O => attempt
  | S rest =>
      match retryWait retryDelay attempt (service attempt start end_) with
      | None => attempt
      | Some _ => lastAttempt service start end_ retryDelay rest (S attempt)
      end
  end.

(** routeService.ts: [getRouteFromCache] and [clearRouteCache]. *)
Definition getRouteFromCache (start end_ : Q * Q) (c : Client) : option RouteGeometry :=
  routeCache c !! getCacheKey start end_.

Definition clearRouteCache (c : Client) : Client :=
  {| routeCache := ∅; issued := issued c |}.

(** A service that answers every request with one route. *)
Definition stubRoute (route : RouteGeometry) : Service :=
  fun _ _ _ => Http 200 [route].

(** ** The station generator with prices, utilisation and the coastal
       boundary (the later chargingStations.ts) *)

Record UtilizationDataPoint : Type := {
  hour : nat;
  utilization : Z
}.

(** The later [ChargingStation]: the fields of the earlier one, then
    [pricePerKwh] and [utilizationHistory]. *)
Record PricedStation : Type := {
  base : ChargingStation;
  pricePerKwh : Q;
  utilizationHistory : list UtilizationDataPoint
}.

(** [coastalBoundaries], a record from city name to [{ minLng }]. *)
Definition coastalBoundaries : list (string * Q) := [("The Hague", 4.30%Q)].

Definition boundaryOf (cityName : string) : option Q :=
  snd <$> List.find (fun entry => String.eqb (fst entry) cityName) coastalBoundaries.

Definition maxAttempts : nat := 10.

(** [boundary && lng < boundary.minLng] *)
Definition belowBoundary (boundary : option Q) (lng : Q) : bool :=
  match boundary with
  | Some minLng => Qltb lng minLng
  | None => false
  end.

(** The hour bands of the two utilisation curves. *)
Definition cityBaseUtil (h : nat) (r : Q) : Q :=
  if (7 <=? h)%nat && (h <=? 9)%nat then (0.7 + r * 0.25)%Q
  else if (17 <=? h)%nat && (h <=? 19)%nat then (0.75 + r * 0.20)%Q
  else if (10 <=? h)%nat && (h <=? 16)%nat then (0.4 + r * 0.3)%Q
  else if (20 <=? h)%nat && (h <=? 23)%nat then (0.3 + r * 0.25)%Q
  else (0.1 + r * 0.15)%Q.

Definition highwayBaseUtil (h : nat) (r : Q) : Q :=
  if (6 <=? h)%nat && (h <=? 22)%nat then (0.5 + r * 0.35)%Q
  else (0.2 + r * 0.2)%Q.

(** [Array.from({ length: 24 }, (_, hour) => ...)]: one draw per hour, in
    order. *)
Definition drawUtilizationHistory (baseUtil : nat -> Q -> Q)
    : Rand (list UtilizationDataPoint) :=
  forEach (fun h => (do r <~ Prng.random;
                     rret [ {| hour := h;
                               utilization := Math_round (baseUtil h r * 100) |} ])%rand)
          (seq 0 24).

(** [Math.round(pricePerKwh * 100) / 100] *)
Definition roundToCents (price : Q) : Q := (inject_Z (Math_round (price * 100)) / 100)%Q.

Definition drawCityPrice (t : StationType) : Rand Q :=
  (do r <~ Prng.random;
   rret match t with
        | superfast => (0.45 + r * 0.20)%Q
        | fast => (0.35 + r * 0.15)%Q
        | standard => (0.25 + r * 0.10)%Q
        end)%rand.

Section PricedStationGenerator.
Variable Math_PI : Q.
Variables Math_cos Math_sin : Q -> Q.

Import Prng.
Local Open Scope rand_scope.

(** The [do ... while] loop of the placement.  [retriesLeft] is
    [maxAttempts - attempts] after the increment: the body runs again only
    while the point is west of the boundary and [attempts < maxAttempts]. *)
Fixpoint samplePosition (retriesLeft : nat) (boundary : option Q) (center : Q * Q)
    : Rand (Q * Q) :=
  do r1 <~ random;
  let angle := (r1 * Math_PI * 2)%Q in
  do r2 <~ random;
  let distance := (0.02 + r2 * 0.06)%Q in
  let lng := (fst center + Math_cos angle * distance)%Q in
  let lat := (snd center + Math_sin angle * distance * 0.7)%Q in
  if belowBoundary boundary lng then
    match retriesLeft with
    | S fewer => samplePosition fewer boundary center
    | O => rret (lng, lat)
    end
  else rret (lng, lat).

(** [if (boundary && lng < boundary.minLng) lng = boundary.minLng + random() * 0.01] *)
Definition clampToBoundary (boundary : option Q) (position : Q * Q) : Rand (Q * Q) :=
  match boundary with
  | Some minLng =>
      if Qltb (fst position) minLng
      then do r <~ random; rret ((minLng + r * 0.01)%Q, snd position)
      else rret position
  | None => rret position
  end.

Definition pricedCityStation (cityName : string) (center : Q * Q)
    (startId i : nat) : Rand PricedStation :=
  let boundary := boundaryOf cityName in
  do sampled <~ samplePosition (maxAttempts - 1) boundary center;
  do position <~ clampToBoundary boundary sampled;
  do t <~ drawType;
  do n <~ drawChargers t;
  do price <~ drawCityPrice t;
  do history <~ drawUtilizationHistory cityBaseUtil;
  do rn <~ random;
  do ro <~ random;
  do ra <~ random;
  rret {| base :=
            {| id := "station-" +:+ pretty (startId + i)%nat;
               name := cityName +:+ " " +:+ pick nameSuffixes (Math_floor (rn * 8))
                         +:+ " " +:+ pretty (i + 1)%nat;
               coordinates := position;
               chargers := n;
               type := t;
               operator := pick operators
                             (Math_floor (ro * inject_Z (Z.of_nat (length operators))));
               available := Math_floor (ra * inject_Z (n + 1)) |};
          pricePerKwh := roundToCents price;
          utilizationHistory := history |}.

Definition pricedStationsAroundCity (cityName : string) (center : Q * Q)
    (count startId : nat) : Rand (list PricedStation) :=
  forEach (fun i => do s <~ pricedCityStation cityName center startId i; rret [s])
          (seq 0 count).

Definition pricedHighwayStation (hname : string) (coords : Q * Q) (i : nat)
    : Rand PricedStation :=
  do r <~ random;
  let t := if Qltb r 0.4 then superfast else fast in
  do rc <~ random;
  let n := match t with
           | superfast => 12 + Math_floor (rc * 12)
           | _ => 6 + Math_floor (rc * 8)
           end in
  do rx <~ random;
  let lng := (fst coords + (rx - 0.5) * 0.01)%Q in
  do ry <~ random;
  let lat := (snd coords + (ry - 0.5) * 0.01)%Q in
  do rp <~ random;
  let price := match t with
               | superfast => (0.50 + rp * 0.20)%Q
               | _ => (0.40 + rp * 0.15)%Q
               end in
  do history <~ drawUtilizationHistory highwayBaseUtil;
  do ro <~ random;
  do ra <~ random;
  rret {| base :=
            {| id := "highway-" +:+ pretty i;
               name := hname +:+ " Charging Plaza";
               coordinates := (lng, lat);
               chargers := n;
               type := t;
               operator := pick operators
                             (Math_floor (ro * inject_Z (Z.of_nat (length operators))));
               available := Math_floor (ra * inject_Z (n + 1)) |};
          pricePerKwh := roundToCents price;
          utilizationHistory := history |}.

Fixpoint pricedCityPass (hubs : list CityHub) (stationId : nat)
    : Rand (list PricedStation) :=
  match hubs with
  | [] => rret []
  | city :: rest =>
      do cityStations <~ pricedStationsAroundCity
                           (hub_name city) (hub_coords city) (density city) stationId;
      do more <~ pricedCityPass rest (stationId + density city);
      rret (cityStations ++ more)
  end.

Definition pricedHighwayPass (hws : list (string * (Q * Q))) : Rand (list PricedStation) :=
  forEach (fun ih => do s <~ pricedHighwayStation (fst (snd ih)) (snd (snd ih)) (fst ih);
                     rret [s])
          (imap pair hws).

Definition pricedStationsFrom (hubs : list CityHub)
    (hws : list (string * (Q * Q))) : Rand (list PricedStation) :=
  do cs <~ pricedCityPass hubs 0;
  do hs <~ pricedHighwayPass hws;
  rret (cs ++ hs).

(** [generateChargingStations()] of the later module. *)
Definition pricedGenerateChargingStations : Rand (list PricedStation) :=
  pricedStationsFrom cityHubs highwayStations.

End PricedStationGenerator.

(** The range of the price in cents, and of the utilisation at an hour. *)
Definition priceBand (onHighway : bool) (t : StationType) : Z * Z :=
  match onHighway, t with
  | false, superfast => (45, 65)
  | false, fast => (35, 50)
  | false, standard => (25, 35)
  | true, superfast => (50, 70)
  | true, _ => (40, 55)
  end.

Definition utilizationBand (onHighway : bool) (h : nat) : Z * Z :=
  if onHighway then
    if (6 <=? h)%nat && (h <=? 22)%nat then (50, 85) else (20, 40)
  else if (7 <=? h)%nat && (h <=? 9)%nat then (70, 95)
  else if (17 <=? h)%nat && (h <=? 19)%nat then (75, 95)
  else if (10 <=? h)%nat && (h <=? 16)%nat then (40, 70)
  else if (20 <=? h)%nat && (h <=? 23)%nat then (30, 55)
  else (10, 25).

Definition pricedWithinBands (s : PricedStation) : Prop :=
  countsInBounds (base s) /\
  (exists cents : Z,
      (pricePerKwh s == inject_Z cents / 100)%Q /\
      fst (priceBand (isHighway (base s)) (type (base s))) <= cents
        <= snd (priceBand (isHighway (base s)) (type (base s)))) /\
  map hour (utilizationHistory s) = seq 0 24 /\
  Forall (fun p => fst (utilizationBand (isHighway (base s)) (hour p)) <= utilization p
                   <= snd (utilizationBand (isHighway (base s)) (hour p)))
         (utilizationHistory s).

(** The weight of the edges whose forward route is in the table. *)
Definition forwardWeight (table : gmap string RouteGeometry) (evRoutes : list EVRoute)
    : nat :=
  foldr (fun r acc =>
           (match table !! getRouteKey (id (from r)) (id (to r)) with
            | Some _ => Z.to_nat (weight r)
            | None => 0
            end + acc)%nat)
        0%nat evRoutes.
(** ** The generator: basic facts *)

Section PrngFacts.
Import Prng.

Lemma round53_small x : Z.abs x < 2 ^ 53 -> round53 x = x.
Proof.
  intros H. unfold round53.
  destruct (Z.ltb_spec (Z.abs x) (2 ^ 53)); [reflexivity | lia].
Qed.

(** From 2^53 on, a double is a multiple of [2^e] with [e >= 1]. *)
Lemma round53_big x :
  2 ^ 53 <= Z.abs x ->
  Z.even (round53 x) = true /\ 2 ^ 53 <= Z.abs (round53 x).
Proof.
  intros H. unfold round53.
  destruct (Z.ltb_spec (Z.abs x) (2 ^ 53)) as [Hlt | _]; [lia |].
  set (a := Z.abs x) in *.
  assert (Ha : 0 < a) by lia.
  assert (Hlog : 53 <= Z.log2 a) by (apply Z.log2_le_pow2; lia).
  set (e := Z.log2 a - 52).
  assert (He : 1 <= e) by (unfold e; lia).
  assert (Hpe : 2 ^ e = 2 * 2 ^ (e - 1)).
  { replace e with (Z.succ (e - 1)) at 1 by lia. apply Z.pow_succ_r. lia. }
  assert (Hpe1 : 0 < 2 ^ (e - 1)) by (apply Z.pow_pos_nonneg; lia).
  assert (Hq : 2 ^ 52 <= a / 2 ^ e).
  { apply Z.div_le_lower_bound; [lia |].
    destruct (Z.log2_spec a Ha) as [Hlo _].
    replace (Z.log2 a) with (e + 52) in Hlo by (unfold e; lia).
    rewrite Z.pow_add_r in Hlo by lia. lia. }
  set (q := a / 2 ^ e) in *.
  set (q' := if a mod 2 ^ e <? 2 ^ (e - 1) then q
             else if 2 ^ (e - 1) <? a mod 2 ^ e then q + 1
             else if Z.even q then q else q + 1).
  assert (Hq' : q <= q') by (unfold q'; repeat case_match; lia).
  assert (Hsgn : Z.sgn x = 1 \/ Z.sgn x = -1) by (unfold a in Ha; lia).
  split.
  - rewrite Hpe. replace (Z.sgn x * (q' * (2 * 2 ^ (e - 1))))
      with (2 * (Z.sgn x * q' * 2 ^ (e - 1))) by ring.
    apply Z.even_mul.
  - assert (2 ^ 53 <= q' * 2 ^ e).
    { change (2 ^ 53) with (2 ^ 52 * 2). rewrite Hpe. nia. }
    destruct Hsgn as [-> | ->]; lia.
Qed.

Lemma next_state_range s : 0 <= next_state s < 2 ^ 31.
Proof.
  unfold next_state. change MASK with (Z.ones 31).
  rewrite Z.land_ones by lia. apply Z.mod_pos_bound. lia.
Qed.

Lemma next_state_mod s :
  next_state s = round53 (round53 (s * A) + C) mod 2 ^ 31.
Proof.
  unfold next_state. change MASK with (Z.ones 31).
  apply Z.land_ones. lia.
Qed.

Lemma even_mod_pow2 z : Z.even z = true -> Z.even (z mod 2 ^ 31) = true.
Proof.
  intros Hz. apply Z.even_spec in Hz. destruct Hz as [k ->].
  apply Z.even_spec.
  exists (k mod 2 ^ 30).
  change (2 ^ 31) with (2 * 2 ^ 30).
  rewrite Z.mul_mod_distr_l by lia. reflexivity.
Qed.

(** While nothing is rounded the state follows the exact recurrence. *)
Lemma next_state_exact s :
  Z.abs (s * A) < 2 ^ 53 -> Z.abs (s * A + C) < 2 ^ 53 ->
  next_state s = lcg_exact s.
Proof.
  intros H1 H2. rewrite next_state_mod.
  rewrite (round53_small (s * A)) by assumption.
  rewrite round53_small by assumption. reflexivity.
Qed.

(** The all-ones state, the only one whose quotient by [0x7fffffff] is 1,
    is never produced: it is odd, so nothing was rounded on the way, and
    the exact recurrence reaches it only from seeds congruent to
    230538014 modulo 2^31, whose product is rounded. *)
Lemma next_state_not_mask s : next_state s <> MASK.
Proof.
  rewrite next_state_mod. unfold MASK.
  set (y := round53 (s * A)).
  destruct (Z_lt_le_dec (Z.abs (y + C)) (2 ^ 53)) as [Hz | Hz].
  - rewrite (round53_small (y + C)) by assumption.
    destruct (Z_lt_le_dec (Z.abs (s * A)) (2 ^ 53)) as [Hy | Hy].
    + unfold y in *. rewrite (round53_small (s * A)) in * by assumption.
      unfold A, C in *. intros Heq.
      pose proof (Z.div_mod (s * 1103515245 + 12345) (2 ^ 31) ltac:(lia)) as Hd.
      rewrite Heq in Hd.
      set (k := (s * 1103515245 + 12345) / 2 ^ 31) in *.
      change (2 ^ 31) with 2147483648 in *.
      change (2 ^ 53) with 9007199254740992 in *.
      lia.
    + destruct (round53_big (s * A) Hy) as [Hev Hbig]. fold y in Hev, Hbig.
      apply Z.even_spec in Hev. destruct Hev as [w Hw].
      unfold C in *. intros Heq.
      pose proof (Z.div_mod (y + 12345) (2 ^ 31) ltac:(lia)) as Hd.
      rewrite Heq in Hd.
      set (k := (y + 12345) / 2 ^ 31) in *.
      change (2 ^ 31) with 2147483648 in *.
      change (2 ^ 53) with 9007199254740992 in *.
      lia.
  - destruct (round53_big (y + C) Hz) as [Hev _].
    apply even_mod_pow2 in Hev. intros Heq. rewrite Heq in Hev.
    discriminate Hev.
Qed.

Lemma output_range s : 0 <= s < MASK -> (0 <= output s)%Q /\ (output s < 1)%Q.
Proof.
  intros [H0 H1]. unfold output, MASK in *.
  split.
  - apply Qle_shift_div_l; [reflexivity |].
    rewrite Qmult_0_l. change 0%Q with (inject_Z 0).
    rewrite <- Zle_Qle. exact H0.
  - apply Qlt_shift_div_r; [reflexivity |].
    rewrite Qmult_1_l. rewrite <- Zlt_Qlt. exact H1.
Qed.

Lemma random_range st : (0 <= fst (random st))%Q /\ (fst (random st) < 1)%Q.
Proof.
  unfold random. cbn [fst]. apply output_range.
  pose proof (next_state_range st) as Hr.
  pose proof (next_state_not_mask st) as Hn.
  unfold MASK in *. change (2 ^ 31) with 2147483648 in Hr. lia.
Qed.

Lemma random_state st : snd (random st) = next_state st.
Proof. reflexivity. Qed.

End PrngFacts.

Example orbit_123 :
  map (fun n => Prng.state_after n 123) [1%nat; 2%nat; 3%nat] =
  [440917656; 1476151040; 1041001216].
Proof. vm_compute. reflexivity. Qed.

Example first_station_type :
  map (fun s => (id s, type s, chargers s, operator s, available s))
      (take 2 (chargingStations 3 (fun _ => 0%Q) (fun _ => 0%Q))) =
  [("station-0", standard, 4, "Tesla", 0); ("station-1", fast, 8, "BP Pulse", 1)].
Proof. vm_compute. reflexivity. Qed.

(** ** The state monad: projections *)

Lemma rbind_fst {T U} (m : Rand T) (k : T -> Rand U) st :
  fst (rbind m k st) = fst (k (fst (m st)) (snd (m st))).
Proof. unfold rbind. destruct (m st). reflexivity. Qed.

Lemma rbind_snd {T U} (m : Rand T) (k : T -> Rand U) st :
  snd (rbind m k st) = snd (k (fst (m st)) (snd (m st))).
Proof. unfold rbind. destruct (m st). reflexivity. Qed.

Lemma forEach_cons {T U} (f : T -> Rand (list U)) x xs st :
  fst (forEach f (x :: xs) st) =
  fst (f x st) ++ fst (forEach f xs (snd (f x st))).
Proof.
  cbn [forEach]. rewrite rbind_fst, rbind_fst. reflexivity.
Qed.

Lemma forEach_cons_snd {T U} (f : T -> Rand (list U)) x xs st :
  snd (forEach f (x :: xs) st) = snd (forEach f xs (snd (f x st))).
Proof.
  cbn [forEach]. rewrite rbind_snd, rbind_snd. reflexivity.
Qed.

(** A loop that pushes one element per iteration, seen through a
    projection that does not depend on the generator state. *)
Lemma forEach_push_map {T U V} (f : T -> Rand U) (g : U -> V) (h : T -> V) :
  (forall x st, g (fst (f x st)) = h x) ->
  forall xs st,
    map g (fst (forEach (fun x => rbind (f x) (fun s => rret [s])) xs st)) = map h xs.
Proof.
  intros Hg xs. induction xs as [| x xs IH]; intros st; [reflexivity |].
  rewrite forEach_cons, map_app, IH, rbind_fst. cbn. rewrite Hg. reflexivity.
Qed.

(** ** Station identifiers *)

Section StationIds.
Variable Math_PI : Q.
Variables Math_cos Math_sin : Q -> Q.

Lemma cityStation_id cityName center startId i st :
  id (fst (cityStation Math_PI Math_cos Math_sin cityName center startId i st))
  = stationId (startId + i).
Proof.
  unfold cityStation.
  repeat (rewrite rbind_fst; cbv beta zeta). reflexivity.
Qed.

Lemma generateHighwayStation_id hname coords i st :
  id (fst (generateHighwayStation hname coords i st)) = highwayId i.
Proof.
  unfold generateHighwayStation.
  repeat (rewrite rbind_fst; cbv beta zeta). reflexivity.
Qed.

Lemma generateStationsAroundCity_ids cityName center count startId st :
  map id (fst (generateStationsAroundCity Math_PI Math_cos Math_sin
                 cityName center count startId st))
  = map stationId (seq startId count).
Proof.
  unfold generateStationsAroundCity.
  rewrite (forEach_push_map _ id (fun i => stationId (startId + i)%nat))
    by (intros; apply cityStation_id).
  replace (seq startId count) with (seq (startId + 0) count) by (f_equal; lia).
  rewrite <- (fmap_add_seq startId 0 count).
  rewrite <- list_fmap_compose. reflexivity.
Qed.

Lemma cityPass_ids hubs : forall stationId0 st,
  map id (fst (cityPass Math_PI Math_cos Math_sin hubs stationId0 st))
  = map stationId (seq stationId0 (totalDensity hubs)).
Proof.
  induction hubs as [| city rest IH]; intros start st; [reflexivity |].
  cbn [cityPass totalDensity foldr].
  rewrite rbind_fst, rbind_fst. cbn [rret fst].
  rewrite map_app, generateStationsAroundCity_ids, IH.
  rewrite seq_app, map_app. reflexivity.
Qed.

Lemma highwayPass_ids hws st :
  map id (fst (highwayPass hws st)) = map highwayId (seq 0 (length hws)).
Proof.
  unfold highwayPass.
  rewrite (forEach_push_map _ id (fun ih => highwayId (fst ih)))
    by (intros; apply generateHighwayStation_id).
  change (map (fun ih : nat * (string * (Q * Q)) => highwayId ih.1) (imap pair hws))
    with ((fun ih : nat * (string * (Q * Q)) => highwayId ih.1) <$> imap pair hws).
  rewrite fmap_imap.
  rewrite (imap_ext _ (fun n _ => highwayId n)) by reflexivity.
  apply imap_seq_0.
Qed.

Lemma generateStationsFrom_ids hubs hws st :
  map id (fst (generateStationsFrom Math_PI Math_cos Math_sin hubs hws st))
  = map stationId (seq 0 (totalDensity hubs)) ++ map highwayId (seq 0 (length hws)).
Proof.
  unfold generateStationsFrom.
  rewrite rbind_fst, rbind_fst. cbn [rret fst].
  rewrite map_app, cityPass_ids, highwayPass_ids. reflexivity.
Qed.

Lemma station_highway_disjoint a b : stationId a <> highwayId b.
Proof. unfold stationId, highwayId. cbn. discriminate. Qed.

Lemma ids_NoDup hubs hws st :
  NoDup (map id (fst (generateStationsFrom Math_PI Math_cos Math_sin hubs hws st))).
Proof.
  rewrite generateStationsFrom_ids. apply NoDup_app. split; [| split].
  - apply (NoDup_fmap_2 (fun n => "station-" +:+ pretty n)). apply NoDup_seq.
  - intros x Hx Hy.
    apply list_elem_of_fmap in Hx as [a [-> _]].
    apply list_elem_of_fmap in Hy as [b [Hab _]].
    exact (station_highway_disjoint a b Hab).
  - apply (NoDup_fmap_2 (fun n => "highway-" +:+ pretty n)). apply NoDup_seq.
Qed.

End StationIds.

(** ** The generated numbers *)

Lemma state_after_range seed n :
  0 <= Prng.state_after (S n) seed < Prng.MASK.
Proof.
  cbn [Prng.state_after].
  pose proof (next_state_range (Prng.state_after n seed)) as Hr.
  pose proof (next_state_not_mask (Prng.state_after n seed)) as Hn.
  unfold Prng.MASK in *. change (2 ^ 31) with 2147483648 in Hr. lia.
Qed.

(** C8, as the code has it: every value returned by the generator lies in
    the half-open interval [0,1), for every seed and every position; the
    value is the state divided by 2^31 - 1 (the mask [0x7fffffff], not
    2^31), and the state is advanced by
    [state = (state * A + C) & 0x7fffffff] in double arithmetic, where the
    product and the sum are rounded to 53 significant bits before the low
    31 bits are kept. *)
Theorem C8_generator_range_and_recurrence :
  (forall (seed : Z) (n : nat),
      (0 <= Prng.draw seed n)%Q /\ (Prng.draw seed n < 1)%Q) /\
  (forall (seed : Z) (n : nat),
      Prng.draw seed n
      = (inject_Z (Prng.state_after (S n) seed) / inject_Z (2 ^ 31 - 1))%Q) /\
  (forall (seed : Z) (n : nat),
      Prng.state_after (S n) seed
      = Prng.round53 (Prng.round53 (Prng.state_after n seed * 1103515245) + 12345)
        mod 2 ^ 31).
Proof.
  split; [| split].
  - intros seed n. unfold Prng.draw, Prng.seededRandom. apply random_range.
  - intros seed n. reflexivity.
  - intros seed n. cbn [Prng.state_after]. apply next_state_mod.
Qed.

(** C8, as the specification words it, fails: from seed 123 the second
    state is not [(state * A + C) mod 2^31] of the first (the product
    exceeds 2^53 and is rounded), and the first value returned is not the
    state divided by 2^31. *)
Lemma C8_exact_recurrence_fails :
  Prng.state_after 2 123 <> Prng.lcg_exact (Prng.state_after 1 123) /\
  ~ (Prng.draw 123 0 == Prng.output_pow2 (Prng.state_after 1 123))%Q.
Proof.
  split.
  - vm_compute. discriminate.
  - vm_compute. discriminate.
Qed.

(** ** The station generator: identifiers and repeated calls *)

Lemma totalDensity_cityHubs : totalDensity cityHubs = 150%nat.
Proof. reflexivity. Qed.

(** C9: station ids are unique across both passes.  Whatever the state of
    the generator, the ids are station-0 .. station-149 for the city pass
    (sequential across hubs) followed by highway-0 .. highway-25, and no two
    of them are equal; the same holds for the list of the script's copy. *)
Theorem C9_station_ids_unique
    (Math_PI : Q) (Math_cos Math_sin : Q -> Q) (st : Z) :
  let stations := fst (generateChargingStations Math_PI Math_cos Math_sin st) in
  map id stations
    = map stationId (seq 0 150) ++ map highwayId (seq 0 26) /\
  NoDup (map id stations) /\
  NoDup (map id (script_generateChargingStations Math_PI Math_cos Math_sin tt)).
Proof.
  cbv zeta. split; [| split].
  - unfold generateChargingStations. rewrite generateStationsFrom_ids. reflexivity.
  - exact (ids_NoDup Math_PI Math_cos Math_sin cityHubs highwayStations st).
  - exact (ids_NoDup Math_PI Math_cos Math_sin cityHubs highwayStations
             (Prng.seededRandom 123)).
Qed.

(** ** Two runs of the station generator *)

(** Two loops that push one element per iteration agree, through a
    projection, when their bodies do. *)
Lemma forEach_agree {T U V} (proj : U -> V) (f g : T -> Rand U) :
  (forall x st, proj (fst (f x st)) = proj (fst (g x st)) /\
                snd (f x st) = snd (g x st)) ->
  forall xs st,
    map proj (fst (forEach (fun x => rbind (f x) (fun s => rret [s])) xs st))
    = map proj (fst (forEach (fun x => rbind (g x) (fun s => rret [s])) xs st)) /\
    snd (forEach (fun x => rbind (f x) (fun s => rret [s])) xs st)
    = snd (forEach (fun x => rbind (g x) (fun s => rret [s])) xs st).
Proof.
  intros Hfg xs. induction xs as [| x xs IH]; intros st; [split; reflexivity |].
  rewrite !forEach_cons, !forEach_cons_snd, !rbind_fst, !rbind_snd.
  cbn [rret fst snd].
  destruct (Hfg x st) as [Hp Hs]. rewrite Hs.
  destruct (IH (snd (g x st))) as [IHp IHs].
  split; [| exact IHs].
  rewrite !map_app, IHp. cbn [map]. rewrite Hp. reflexivity.
Qed.

(** Two computations that make the same first step are related when
    their continuations are. *)
Lemma rbind_rel {S T} (R : T -> T -> Prop) (m : Rand S) (k1 k2 : S -> Rand T) st :
  (forall x st', R (fst (k1 x st')) (fst (k2 x st')) /\ snd (k1 x st') = snd (k2 x st')) ->
  R (fst (rbind m k1 st)) (fst (rbind m k2 st)) /\
  snd (rbind m k1 st) = snd (rbind m k2 st).
Proof. intros H. unfold rbind. destruct (m st) as [x st']. apply H. Qed.

(** Two computations whose steps return the same values return the same
    value and leave the same state. *)
Lemma rbind_same {S T} (m1 m2 : Rand S) (k1 k2 : S -> Rand T) st :
  m1 st = m2 st -> (forall x st', k1 x st' = k2 x st') ->
  rbind m1 k1 st = rbind m2 k2 st.
Proof. intros Hm Hk. unfold rbind. rewrite Hm. destruct (m2 st) as [x st']. apply Hk. Qed.

Lemma forEach_same {T U} (f g : T -> Rand (list U)) :
  (forall x st, f x st = g x st) ->
  forall xs st, forEach f xs st = forEach g xs st.
Proof.
  intros Hfg xs. induction xs as [| x xs IH]; intros st; [reflexivity |].
  cbn [forEach]. apply rbind_same; [apply Hfg |].
  intros ys st'. apply rbind_same; [apply IH | reflexivity].
Qed.

Section StationAgreement.
Variable Math_PI : Q.
Variables cos1 sin1 cos2 sin2 : Q -> Q.

Lemma cityStation_state cityName center startId i st :
  snd (cityStation Math_PI cos1 sin1 cityName center startId i st)
  = snd (cityStation Math_PI cos2 sin2 cityName center startId i st).
Proof.
  unfold cityStation.
  repeat (apply (rbind_rel (fun _ _ => True)); intros ? ?; cbv beta zeta).
  split; reflexivity || exact I.
Qed.

Lemma cityStation_fields cityName center startId i st :
  fieldsButCoordinates (fst (cityStation Math_PI cos1 sin1 cityName center startId i st))
  = fieldsButCoordinates (fst (cityStation Math_PI cos2 sin2 cityName center startId i st)).
Proof.
  unfold cityStation.
  repeat (apply (rbind_rel (fun a b => fieldsButCoordinates a = fieldsButCoordinates b));
          intros ? ?; cbv beta zeta).
  split; reflexivity.
Qed.

Section Projection.
Context {V : Type} (proj : ChargingStation -> V).
Hypothesis station_agrees : forall cityName center startId i st,
  proj (fst (cityStation Math_PI cos1 sin1 cityName center startId i st))
  = proj (fst (cityStation Math_PI cos2 sin2 cityName center startId i st)).

Lemma cityPass_agree hubs : forall stationId0 st,
  map proj (fst (cityPass Math_PI cos1 sin1 hubs stationId0 st))
  = map proj (fst (cityPass Math_PI cos2 sin2 hubs stationId0 st)) /\
  snd (cityPass Math_PI cos1 sin1 hubs stationId0 st)
  = snd (cityPass Math_PI cos2 sin2 hubs stationId0 st).
Proof.
  induction hubs as [| city rest IH]; intros start st; [split; reflexivity |].
  cbn [cityPass].
  rewrite !rbind_fst, !rbind_snd. cbn [rret fst snd].
  unfold generateStationsAroundCity.
  destruct (forEach_agree proj
              (cityStation Math_PI cos1 sin1 (hub_name city) (hub_coords city) start)
              (cityStation Math_PI cos2 sin2 (hub_name city) (hub_coords city) start)
              ltac:(intros x s; split;
                    [apply station_agrees | apply cityStation_state])
              (seq 0 (density city)) st) as [Hp Hs].
  rewrite Hs.
  destruct (IH (start + density city)%nat
               (snd (forEach (fun i => rbind (cityStation Math_PI cos2 sin2 (hub_name city)
                                                (hub_coords city) start i)
                                             (fun s => rret [s]))
                             (seq 0 (density city)) st))) as [IHp IHs].
  split; [| exact IHs].
  rewrite !map_app, Hp, IHp. reflexivity.
Qed.

Lemma generateStationsFrom_agree hubs hws st :
  map proj (fst (generateStationsFrom Math_PI cos1 sin1 hubs hws st))
  = map proj (fst (generateStationsFrom Math_PI cos2 sin2 hubs hws st)) /\
  snd (generateStationsFrom Math_PI cos1 sin1 hubs hws st)
  = snd (generateStationsFrom Math_PI cos2 sin2 hubs hws st).
Proof.
  unfold generateStationsFrom.
  rewrite !rbind_fst, !rbind_snd. cbn [rret fst snd].
  destruct (cityPass_agree hubs 0%nat st) as [Hp Hs].
  rewrite Hs. split; [| reflexivity].
  rewrite !map_app, Hp. reflexivity.
Qed.

End Projection.

Section SameValues.
Hypothesis same_cos : forall x, cos1 x = cos2 x.
Hypothesis same_sin : forall x, sin1 x = sin2 x.

Lemma cityStation_same cityName center startId i st :
  cityStation Math_PI cos1 sin1 cityName center startId i st
  = cityStation Math_PI cos2 sin2 cityName center startId i st.
Proof.
  unfold cityStation.
  repeat (apply rbind_same; [reflexivity | intros ? ?; cbv beta zeta]).
  rewrite same_cos, same_sin. reflexivity.
Qed.

Lemma cityPass_same hubs : forall stationId0 st,
  cityPass Math_PI cos1 sin1 hubs stationId0 st
  = cityPass Math_PI cos2 sin2 hubs stationId0 st.
Proof.
  induction hubs as [| city rest IH]; intros start st; [reflexivity |].
  cbn [cityPass]. apply rbind_same.
  - unfold generateStationsAroundCity. apply forEach_same. intros i st'.
    apply rbind_same; [apply cityStation_same | reflexivity].
  - intros cityStations st'. apply rbind_same; [apply IH | reflexivity].
Qed.

Lemma generateStationsFrom_same hubs hws st :
  generateStationsFrom Math_PI cos1 sin1 hubs hws st
  = generateStationsFrom Math_PI cos2 sin2 hubs hws st.
Proof.
  unfold generateStationsFrom. apply rbind_same; [apply cityPass_same | reflexivity].
Qed.

Lemma samplePosition_same boundary center : forall retriesLeft st,
  samplePosition Math_PI cos1 sin1 retriesLeft boundary center st
  = samplePosition Math_PI cos2 sin2 retriesLeft boundary center st.
Proof.
  induction retriesLeft as [| fewer IH]; intros st; cbn [samplePosition];
    repeat (apply rbind_same; [reflexivity | intros ? ?; cbv beta zeta]);
    rewrite same_cos, same_sin;
    destruct (belowBoundary boundary _); try reflexivity.
  apply IH.
Qed.

Lemma pricedCityStation_same cityName center startId i st :
  pricedCityStation Math_PI cos1 sin1 cityName center startId i st
  = pricedCityStation Math_PI cos2 sin2 cityName center startId i st.
Proof.
  unfold pricedCityStation. cbv zeta.
  apply rbind_same; [apply samplePosition_same | reflexivity].
Qed.

Lemma pricedCityPass_same hubs : forall stationId0 st,
  pricedCityPass Math_PI cos1 sin1 hubs stationId0 st
  = pricedCityPass Math_PI cos2 sin2 hubs stationId0 st.
Proof.
  induction hubs as [| city rest IH]; intros start st; [reflexivity |].
  cbn [pricedCityPass]. apply rbind_same.
  - unfold pricedStationsAroundCity. apply forEach_same. intros i st'.
    apply rbind_same; [apply pricedCityStation_same | reflexivity].
  - intros cityStations st'. apply rbind_same; [apply IH | reflexivity].
Qed.

Lemma pricedStationsFrom_same hubs hws st :
  pricedStationsFrom Math_PI cos1 sin1 hubs hws st
  = pricedStationsFrom Math_PI cos2 sin2 hubs hws st.
Proof.
  unfold pricedStationsFrom. apply rbind_same; [apply pricedCityPass_same | reflexivity].
Qed.

End SameValues.

End StationAgreement.

(** C1: two runs of the station generator from the same seed yield the
    same stations in the same order.  Whatever the seed, and whichever
    implementations of [Math.cos] and [Math.sin] the two runs use, the ids,
    names, charger counts, types, operators and availability agree station
    by station, and both runs leave the generator in the same state: the
    trigonometric values never reach the draws.  When the two
    implementations return the same values the coordinates agree as well,
    and the two runs return the same list.  The same holds of the script's
    copy, which seeds its generator with 123 on every call.  In the later
    module, with prices, utilisation and the coastal boundary, a sampled
    position decides whether the placement draws again; there too two runs
    return the same list when the trigonometric values are the same. *)
Theorem C1_station_generator_deterministic
    (Math_PI : Q) (seed : Z) (cos1 sin1 cos2 sin2 : Q -> Q) :
  let run1 := generateChargingStations Math_PI cos1 sin1 (Prng.seededRandom seed) in
  let run2 := generateChargingStations Math_PI cos2 sin2 (Prng.seededRandom seed) in
  let script1 := script_generateChargingStations Math_PI cos1 sin1 tt in
  let script2 := script_generateChargingStations Math_PI cos2 sin2 tt in
  let later1 := pricedGenerateChargingStations Math_PI cos1 sin1 (Prng.seededRandom seed) in
  let later2 := pricedGenerateChargingStations Math_PI cos2 sin2 (Prng.seededRandom seed) in
  map fieldsButCoordinates (fst run1) = map fieldsButCoordinates (fst run2) /\
  snd run1 = snd run2 /\
  map fieldsButCoordinates script1 = map fieldsButCoordinates script2 /\
  ((forall x, cos1 x = cos2 x) -> (forall x, sin1 x = sin2 x) ->
   run1 = run2 /\ script1 = script2 /\ later1 = later2).
Proof.
  cbv zeta.
  unfold generateChargingStations, script_generateChargingStations,
    pricedGenerateChargingStations.
  destruct (generateStationsFrom_agree Math_PI cos1 sin1 cos2 sin2 fieldsButCoordinates
              (cityStation_fields Math_PI cos1 sin1 cos2 sin2)
              cityHubs highwayStations (Prng.seededRandom seed)) as [Hp Hs].
  destruct (generateStationsFrom_agree Math_PI cos1 sin1 cos2 sin2 fieldsButCoordinates
              (cityStation_fields Math_PI cos1 sin1 cos2 sin2)
              cityHubs highwayStations (Prng.seededRandom 123)) as [Hp' _].
  split; [exact Hp |]. split; [exact Hs |]. split; [exact Hp' |].
  intros Hcos Hsin. split; [| split].
  - apply generateStationsFrom_same; assumption.
  - f_equal. apply generateStationsFrom_same; assumption.
  - apply pricedStationsFrom_same; assumption.
Qed.

(** Two runs from seed 123, one with each of two implementations of the
    trigonometric functions that return the same values. *)
Lemma C1_same_values_same_stations :
  generateChargingStations anyPI anyTrig anyTrig (Prng.seededRandom 123)
  = generateChargingStations anyPI branchingTrig branchingTrig (Prng.seededRandom 123).
Proof.
  assert (Hsame : forall x, anyTrig x = branchingTrig x)
    by (intros x; unfold anyTrig, branchingTrig; destruct (Qle_bool x 0); reflexivity).
  destruct (C1_station_generator_deterministic anyPI 123
              anyTrig anyTrig branchingTrig branchingTrig) as (_ & _ & _ & H).
  exact (proj1 (H Hsame Hsame)).
Defined.

(** ** Retry with back-off *)

Section Retry.
Variable service : Service.
Variables start end_ : Q * Q.
Variable maxRetries : nat.
Variable retryDelay : Q.

(** Every attempt from [attempt] on fails: the loop runs to its last
    iteration, sleeps after each attempt but the last, and returns null. *)
Lemma retryLoop_exhausted : forall iterations attempt w,
  (attempt + iterations = S maxRetries)%nat ->
  requests w = attempt ->
  (forall k, (attempt <= k <= maxRetries)%nat ->
             is_Some (retryWait retryDelay k (service k start end_))) ->
  retryLoop service start end_ maxRetries retryDelay iterations attempt w
  = (None, {| requests := S maxRetries;
              sleeps := sleeps w ++ map (waitAfter service start end_ retryDelay) (seq attempt (maxRetries - attempt)) |}).
Proof.
  induction iterations as [| rest IH]; intros attempt w Hsum Hreq Hfail.
  { cbn [retryLoop]. replace (maxRetries - attempt)%nat with 0%nat by lia.
    cbn [seq map]. rewrite app_nil_r. destruct w as [n l]. cbn in *.
    do 2 f_equal. lia. }
  assert (Hk : (attempt <= attempt <= maxRetries)%nat) by lia.
  pose proof (Hfail attempt Hk) as [d Hd].
  cbn [retryLoop]. unfold request. rewrite Hreq.
  destruct (Nat.ltb_spec attempt maxRetries) as [Hlt | Hge].
  - assert (Hnext :
      retryLoop service start end_ maxRetries retryDelay rest (S attempt)
        (sleep d {| requests := S attempt; sleeps := sleeps w |})
      = (None, {| requests := S maxRetries;
                  sleeps := sleeps w ++ map (waitAfter service start end_ retryDelay) (seq attempt (maxRetries - attempt)) |})).
    { rewrite IH; [| lia | reflexivity | intros k Hk'; apply Hfail; lia].
      cbn [sleep sleeps]. rewrite <- app_assoc. do 3 f_equal.
      replace (maxRetries - attempt)%nat with (S (maxRetries - S attempt)) by lia.
      cbn [seq map]. unfold waitAfter at 2. rewrite Hd. reflexivity. }
    unfold retryWait in Hd.
    destruct (service attempt start end_) as [| status routes].
    + injection Hd as <-. exact Hnext.
    + destruct (status =? 429).
      * injection Hd as <-. exact Hnext.
      * destruct (negb (isOk status)); [| discriminate Hd].
        injection Hd as <-. exact Hnext.
  - assert (attempt = maxRetries) as -> by lia.
    rewrite Nat.sub_diag. cbn [seq map]. rewrite app_nil_r.
    unfold retryWait in Hd.
    destruct (service maxRetries start end_) as [| status routes]; [reflexivity |].
    destruct (status =? 429); [reflexivity |].
    destruct (negb (isOk status)); [reflexivity | discriminate Hd].
Qed.

(** Attempts [attempt .. m-1] fail and attempt [m] is answered with a
    route: the loop returns it after [m] requests have failed. *)
Lemma retryLoop_succeeds (m : nat) status route more :
  (m <= maxRetries)%nat ->
  service m start end_ = Http status (route :: more) ->
  status <> 429 -> isOk status = true ->
  forall iterations attempt w,
  (attempt + iterations = S maxRetries)%nat ->
  (attempt <= m)%nat ->
  requests w = attempt ->
  (forall k, (attempt <= k < m)%nat ->
             is_Some (retryWait retryDelay k (service k start end_))) ->
  retryLoop service start end_ maxRetries retryDelay iterations attempt w
  = (Some route, {| requests := S m;
                    sleeps := sleeps w ++ map (waitAfter service start end_ retryDelay) (seq attempt (m - attempt)) |}).
Proof.
  intros Hm Hgood Hne Hok.
  induction iterations as [| rest IH]; intros attempt w Hsum Hle Hreq Hfail; [lia |].
  cbn [retryLoop]. unfold request. rewrite Hreq.
  destruct (decide (attempt = m)) as [-> | Hneq].
  - rewrite Hgood. rewrite (proj2 (Z.eqb_neq status 429) Hne). rewrite Hok.
    cbn [negb]. rewrite Nat.sub_diag. cbn [seq map]. rewrite app_nil_r. reflexivity.
  - assert (Hk : (attempt <= attempt < m)%nat) by lia.
    pose proof (Hfail attempt Hk) as [d Hd].
    assert (Hlt : (attempt <? maxRetries)%nat = true) by (apply Nat.ltb_lt; lia).
    rewrite Hlt.
    assert (Hnext :
      retryLoop service start end_ maxRetries retryDelay rest (S attempt)
        (sleep d {| requests := S attempt; sleeps := sleeps w |})
      = (Some route, {| requests := S m;
                        sleeps := sleeps w ++ map (waitAfter service start end_ retryDelay) (seq attempt (m - attempt)) |})).
    { rewrite IH; [| lia | lia | reflexivity | intros k Hk'; apply Hfail; lia].
      cbn [sleep sleeps]. rewrite <- app_assoc. do 3 f_equal.
      replace (m - attempt)%nat with (S (m - S attempt)) by lia.
      cbn [seq map]. unfold waitAfter at 2. rewrite Hd. reflexivity. }
    unfold retryWait in Hd.
    destruct (service attempt start end_) as [| status' routes].
    + injection Hd as <-. exact Hnext.
    + destruct (status' =? 429).
      * injection Hd as <-. exact Hnext.
      * destruct (negb (isOk status')); [| discriminate Hd].
        injection Hd as <-. exact Hnext.
Qed.

End Retry.

Lemma totalWait_repeat d n :
  (totalWait {| requests := S n; sleeps := repeat d n |} == d * inject_Z (Z.of_nat n))%Q.
Proof.
  unfold totalWait. cbn [sleeps].
  induction n as [| n IH].
  - cbn. ring.
  - cbn [repeat foldr]. rewrite IH. rewrite Nat2Z.inj_succ. unfold Z.succ.
    rewrite inject_Z_plus. ring.
Qed.

Lemma map_seq_ext {T} (f g : nat -> T) start len :
  (forall k, (start <= k < start + len)%nat -> f k = g k) ->
  map f (seq start len) = map g (seq start len).
Proof.
  intros H. apply map_ext_in. intros k Hk. apply in_seq in Hk. apply H. lia.
Qed.

Lemma map_seq_const {T} (x : T) start len :
  map (fun _ => x) (seq start len) = repeat x len.
Proof.
  revert start. induction len as [| n IH]; intros start; [reflexivity |].
  cbn [seq map repeat]. rewrite IH. reflexivity.
Qed.

(** C5: [fetchRouteWithRetry] issues at most [maxRetries + 1] requests.
    While the response is status 429 it sleeps [retryDelay * 2^attempt]
    before the next attempt; while it is any other failure (another non-ok
    status, or an exception) it sleeps the flat [retryDelay] ([retryWait]);
    when the attempts are used up it returns null, and when attempt [m]
    is answered with a route it returns the route after [m] retries.  A service that answers 429
    exactly twice and then succeeds gives the route after exactly two
    retries, with waits [retryDelay * 2^0] and [retryDelay * 2^1]; a service
    that always fails otherwise (status 500, say) gives null after
    [maxRetries] retries with a total wait of [retryDelay * maxRetries]. *)
Theorem C5_retry_backoff
    (service : Service) (start end_ : Q * Q) (maxRetries : nat) (retryDelay : Q) :
  let w0 := {| requests := 0; sleeps := [] |} in
  let result := fetchRouteWithRetry service start end_ maxRetries retryDelay w0 in
  ((forall k, (k <= maxRetries)%nat ->
              is_Some (retryWait retryDelay k (service k start end_))) ->
   result = (None, {| requests := S maxRetries;
                      sleeps := map (waitAfter service start end_ retryDelay)
                                    (seq 0 maxRetries) |})) /\
  (forall m status route more,
      (m <= maxRetries)%nat ->
      (forall k, (k < m)%nat -> is_Some (retryWait retryDelay k (service k start end_))) ->
      service m start end_ = Http status (route :: more) ->
      isOk status = true ->
      result = (Some route,
                {| requests := S m;
                   sleeps := map (waitAfter service start end_ retryDelay) (seq 0 m) |})) /\
  ((forall k, (k <= maxRetries)%nat ->
              exists routes, service k start end_ = Http 429 routes) ->
   result = (None, {| requests := S maxRetries;
                      sleeps := map (fun k => (retryDelay * inject_Z (2 ^ Z.of_nat k))%Q)
                                    (seq 0 maxRetries) |})) /\
  ((forall k, (k <= maxRetries)%nat ->
              service k start end_ = NetworkError \/
              exists status routes, service k start end_ = Http status routes /\
                                    status <> 429 /\ isOk status = false) ->
   result = (None, {| requests := S maxRetries; sleeps := repeat retryDelay maxRetries |}) /\
   (totalWait (snd result) == retryDelay * inject_Z (Z.of_nat maxRetries))%Q) /\
  (forall status route more,
      (2 <= maxRetries)%nat ->
      (forall k, (k < 2)%nat -> exists routes, service k start end_ = Http 429 routes) ->
      service 2%nat start end_ = Http status (route :: more) ->
      isOk status = true ->
      result = (Some route,
                {| requests := 3;
                   sleeps := [ (retryDelay * inject_Z (2 ^ Z.of_nat 0))%Q;
                               (retryDelay * inject_Z (2 ^ Z.of_nat 1))%Q ] |})).
Proof.
  cbv zeta. unfold fetchRouteWithRetry. split; [| split; [| split; [| split]]].
  - intros Hall.
    rewrite (retryLoop_exhausted service start end_ maxRetries retryDelay
               (S maxRetries) 0 {| requests := 0; sleeps := [] |});
      [| lia | reflexivity | intros k Hk; apply Hall; lia].
    cbn [sleeps app]. rewrite Nat.sub_0_r. reflexivity.
  - intros m status route more Hm Hfail Hgood Hok.
    assert (Hne : status <> 429).
    { intros ->. discriminate Hok. }
    rewrite (retryLoop_succeeds service start end_ maxRetries retryDelay m
               status route more Hm Hgood Hne Hok
               (S maxRetries) 0 {| requests := 0; sleeps := [] |});
      [| lia | lia | reflexivity | intros k Hk; apply Hfail; lia].
    cbn [sleeps app]. rewrite Nat.sub_0_r. reflexivity.
  - intros Hall.
    rewrite (retryLoop_exhausted service start end_ maxRetries retryDelay
               (S maxRetries) 0 {| requests := 0; sleeps := [] |});
      [| lia | reflexivity |].
    + cbn [sleeps app]. rewrite Nat.sub_0_r. do 2 f_equal.
      apply map_seq_ext. intros k Hk.
      destruct (Hall k ltac:(lia)) as [routes Hr].
      unfold waitAfter, retryWait. rewrite Hr. reflexivity.
    + intros k Hk. destruct (Hall k ltac:(lia)) as [routes Hr].
      unfold retryWait. rewrite Hr. cbn. eauto.
  - intros Hall.
    assert (Hwait : forall k, (k <= maxRetries)%nat ->
              retryWait retryDelay k (service k start end_) = Some retryDelay).
    { intros k Hk. unfold retryWait.
      destruct (Hall k Hk) as [-> | (status & routes & -> & Hne & Hok)]; [reflexivity |].
      rewrite (proj2 (Z.eqb_neq status 429) Hne), Hok. reflexivity. }
    assert (Heq :
      retryLoop service start end_ maxRetries retryDelay (S maxRetries) 0
        {| requests := 0; sleeps := [] |}
      = (None, {| requests := S maxRetries; sleeps := repeat retryDelay maxRetries |})).
    { rewrite (retryLoop_exhausted service start end_ maxRetries retryDelay
                 (S maxRetries) 0 {| requests := 0; sleeps := [] |});
        [| lia | reflexivity | intros k Hk; rewrite Hwait by lia; eauto].
      cbn [sleeps app]. rewrite Nat.sub_0_r. do 2 f_equal.
      rewrite <- (map_seq_const retryDelay 0 maxRetries).
      apply map_seq_ext. intros k Hk. unfold waitAfter.
      rewrite Hwait by lia. reflexivity. }
    split; [exact Heq |]. rewrite Heq. cbn [snd]. apply totalWait_repeat.
  - intros status route more Hmax Hfirst Hthird Hok.
    assert (Hne : status <> 429).
    { intros ->. discriminate Hok. }
    rewrite (retryLoop_succeeds service start end_ maxRetries retryDelay 2
               status route more Hmax Hthird Hne Hok
               (S maxRetries) 0 {| requests := 0; sleeps := [] |});
      [| lia | lia | reflexivity |].
    + cbn [sleeps app Nat.sub seq map]. unfold waitAfter, retryWait.
      destruct (Hfirst 0%nat ltac:(lia)) as [r0 ->].
      destruct (Hfirst 1%nat ltac:(lia)) as [r1 ->].
      reflexivity.
    + intros k Hk. destruct (Hfirst k ltac:(lia)) as [routes ->]. cbn. eauto.
Qed.

(** The two scenarios of C5 on the stubs, with the defaults
    [maxRetries = 3] and [retryDelay = 2000]. *)
Lemma C5_retry_backoff_on_stubs :
  (fetchRouteWithRetry (stubAlways 500) (0, 0)%Q (1, 1)%Q
     defaultMaxRetries defaultRetryDelay {| requests := 0; sleeps := [] |}
   = (None, {| requests := 4; sleeps := repeat defaultRetryDelay 3 |})) /\
  (forall route,
      fetchRouteWithRetry (stubRateLimitedTwice route) (0, 0)%Q (1, 1)%Q
        defaultMaxRetries defaultRetryDelay {| requests := 0; sleeps := [] |}
      = (Some route,
         {| requests := 3;
            sleeps := [ (defaultRetryDelay * inject_Z (2 ^ Z.of_nat 0))%Q;
                        (defaultRetryDelay * inject_Z (2 ^ Z.of_nat 1))%Q ] |})).
Proof.
  split.
  - apply (proj1 (proj2 (proj2 (proj2
             (C5_retry_backoff (stubAlways 500) (0, 0)%Q (1, 1)%Q
                defaultMaxRetries defaultRetryDelay))))).
    intros k _. right. exists 500, []. split; [reflexivity | split; [discriminate | reflexivity]].
  - intros route.
    apply (proj2 (proj2 (proj2 (proj2
             (C5_retry_backoff (stubRateLimitedTwice route) (0, 0)%Q (1, 1)%Q
                defaultMaxRetries defaultRetryDelay)))) 200 route []).
    + unfold defaultMaxRetries. lia.
    + intros k Hk. exists []. unfold stubRateLimitedTwice.
      destruct k as [| [| k]]; [reflexivity | reflexivity | lia].
    + reflexivity.
    + reflexivity.
Defined.

(** ** The route cache *)

Example toFixed_samples :
  map (toFixed 4) [4.895168; -0.00001; 52.37005; 0.5; 0.00005]%Q
  = ["4.8952"; "-0.0000"; "52.3701"; "0.5000"; "0.0001"].
Proof. vm_compute. reflexivity. Qed.

Example getCacheKey_sample :
  getCacheKey (4.895168, 52.370216)%Q (4.462456, 51.926517)%Q
  = "4.8952,52.3702-4.4625,51.9265".
Proof. vm_compute. reflexivity. Qed.

Lemma fetchRoute_hit service start end_ c cached :
  routeCache c !! getCacheKey start end_ = Some cached ->
  fetchRoute service start end_ c = (Some cached, c).
Proof. intros H. unfold fetchRoute. rewrite H. reflexivity. Qed.

(** C6, as the code has it: a cache hit returns the cached route without
    any request.  When a call of [fetchRoute] returns a route, the route is
    in the cache under the rounded-coordinate key, and a second call on the
    same pair returns the same route and issues no request, so the two
    calls issue at most one.  When a call returns null (failed response, no
    route, exception) it has issued one request and cached nothing. *)
Theorem C6_cache_after_success
    (service : Service) (start end_ : Q * Q) (c : Client) :
  let first := fetchRoute service start end_ c in
  let second := fetchRoute service start end_ (snd first) in
  match fst first with
  | Some route =>
      fst second = Some route /\
      snd second = snd first /\
      (issued (snd second) <= S (issued c))%nat /\
      routeCache (snd first) !! getCacheKey start end_ = Some route
  | None =>
      routeCache (snd first) = routeCache c /\
      issued (snd first) = S (issued c)
  end.
Proof.
  cbv zeta.
  destruct (fetchRoute service start end_ c) as [r1 c1] eqn:H1.
  cbn [fst snd]. unfold fetchRoute in H1.
  destruct (routeCache c !! getCacheKey start end_) as [cached |] eqn:Hc.
  - injection H1 as <- <-.
    rewrite (fetchRoute_hit _ _ _ _ _ Hc). cbn [fst snd].
    split; [reflexivity | split; [reflexivity | split; [lia | exact Hc]]].
  - destruct (service (issued c) start end_) as [| status routes];
      [injection H1 as <- <-; split; reflexivity |].
    destruct (negb (isOk status)); [injection H1 as <- <-; split; reflexivity |].
    destruct routes as [| route more]; [injection H1 as <- <-; split; reflexivity |].
    injection H1 as <- <-. cbn [routeCache issued].
    assert (Hin : <[getCacheKey start end_ := route]> (routeCache c)
                    !! getCacheKey start end_ = Some route)
      by apply lookup_insert_eq.
    rewrite (fetchRoute_hit service start end_ _ route) by exact Hin.
    cbn [fst snd issued].
    split; [reflexivity | split; [reflexivity | split; [lia | exact Hin]]].
Qed.

(** C6, as stated, fails: against a service that answers status 500, two
    calls of [fetchRoute] on the same pair issue two requests, and nothing
    is cached. *)
Lemma C6_failed_call_not_cached :
  let first := fetchRoute (stubAlways 500) (4.9, 52.4)%Q (4.5, 51.9)%Q freshClient in
  let second := fetchRoute (stubAlways 500) (4.9, 52.4)%Q (4.5, 51.9)%Q (snd first) in
  fst first = None /\ fst second = None /\
  issued (snd second) = 2%nat /\ routeCache (snd second) = ∅.
Proof. cbv zeta. vm_compute. repeat split. Qed.

(** ** Rational helpers: facts *)

Lemma Qltb_lt a b : Qltb a b = true <-> (a < b)%Q.
Proof.
  unfold Qltb. rewrite negb_true_iff. split.
  - intros H. apply Qnot_le_lt. intros Hle.
    apply Qle_bool_iff in Hle. congruence.
  - intros H. destruct (Qle_bool b a) eqn:E; [| reflexivity].
    apply Qle_bool_iff in E. apply Qlt_not_le in H. contradiction.
Qed.


Lemma Qfloor_nonneg x : (0 <= x)%Q -> 0 <= Qfloor x.
Proof.
  intros H. rewrite <- (Qfloor_Z 0). apply Qfloor_resp_le. exact H.
Qed.

Lemma Qfloor_lt_int x n : (x < inject_Z n)%Q -> Qfloor x < n.
Proof.
  intros H. rewrite Zlt_Qlt. eapply Qle_lt_trans; [apply Qfloor_le | exact H].
Qed.

(** [Math.floor(r * n)] for a draw [r] in [0,1) and a positive integer [n]
    is one of 0 .. n-1. *)
Lemma floor_draw_range r n :
  (0 <= r)%Q -> (r < 1)%Q -> 0 < n ->
  0 <= Math_floor (r * inject_Z n) < n.
Proof.
  intros H0 H1 Hn. unfold Math_floor.
  assert (Hq : (0 < inject_Z n)%Q)
    by (change 0%Q with (inject_Z 0); rewrite <- Zlt_Qlt; exact Hn).
  split.
  - apply Qfloor_nonneg. apply Qmult_le_0_compat; [exact H0 | lra].
  - apply Qfloor_lt_int. rewrite <- (Qmult_1_l (inject_Z n)) at 2.
    apply Qmult_lt_compat_r; assumption.
Qed.

Lemma Qdiv_nonneg a b : (0 <= a)%Q -> (0 < b)%Q -> (0 <= a / b)%Q.
Proof.
  intros Ha Hb. apply Qle_shift_div_l; [exact Hb |]. now rewrite Qmult_0_l.
Qed.

(** ** Battery *)


Lemma evTypes_positive :
  Forall (fun ev => (0 < speedMult ev)%Q /\ (0 < rangeKm ev)%Q) evTypes.
Proof. unfold evTypes. repeat constructor. Qed.




(** ** Trip timestamps *)

Example js_rem_samples :
  map (fun x => Qred (js_rem x 1800)) [29.5; 1800; 1937.25; 3700]%Q
  = [59 # 2; 0; 549 # 4; 100]%Q.
Proof. vm_compute. reflexivity. Qed.

Lemma js_rem_range x m :
  (0 <= x)%Q -> (0 < m)%Q -> (0 <= js_rem x m)%Q /\ (js_rem x m < m)%Q.
Proof.
  intros Hx Hm. unfold js_rem, Qtrunc.
  assert (Hq : (0 <= x / m)%Q) by (apply Qdiv_nonneg; assumption).
  apply Qle_bool_iff in Hq as Hb. rewrite Hb.
  pose proof (Qfloor_le (x / m)) as Hlo.
  pose proof (Qlt_floor (x / m)) as Hhi.
  rewrite inject_Z_plus in Hhi. change (inject_Z 1) with 1%Q in Hhi.
  set (f := inject_Z (Qfloor (x / m))) in *.
  assert (Hxm : (x == m * (x / m))%Q).
  { symmetry. apply Qmult_div_r. intros H0. rewrite H0 in Hm. discriminate Hm. }
  set (q := (x / m)%Q) in *.
  assert (H1 : (x - m * f == m * (q - f))%Q) by (rewrite Hxm at 1; ring).
  rewrite H1. split.
  - apply Qmult_le_0_compat; [apply Qlt_le_weak; exact Hm | lra].
  - rewrite <- (Qmult_1_r m) at 2. apply Qmult_lt_l; [exact Hm | lra].
Qed.

Lemma scaledDuration_nonneg route ev :
  (0 <= duration route)%Q -> (0 < speedMult ev)%Q -> (0 <= scaledDuration route ev)%Q.
Proof.
  intros Hd Hs. unfold scaledDuration.
  apply Qdiv_nonneg; [| exact Hs].
  apply Qmult_le_0_compat; [| discriminate].
  apply Qdiv_nonneg; [exact Hd | reflexivity].
Qed.

Lemma timePerStep_nonneg route ev :
  (0 <= duration route)%Q -> (0 < speedMult ev)%Q -> (0 <= timePerStep route ev)%Q.
Proof.
  intros Hd Hs. unfold timePerStep.
  destruct (Nat.ltb_spec 1 (length (route_coordinates route))) as [Hn | Hn];
    [| apply Qle_refl].
  apply Qdiv_nonneg; [apply scaledDuration_nonneg; assumption |].
  change 0%Q with (inject_Z 0). rewrite <- Zlt_Qlt. lia.
Qed.

Lemma waypointsOf_lookup route startTime ev i w :
  waypointsOf route startTime ev !! i = Some w ->
  timestamp w = (startTime + inject_Z (Z.of_nat i) * timePerStep route ev)%Q /\
  (i < length (route_coordinates route))%nat.
Proof.
  unfold waypointsOf. rewrite list_lookup_imap.
  destruct (route_coordinates route !! i) as [c |] eqn:Hc; [| discriminate].
  cbn. intros [= <-]. split; [reflexivity |].
  apply lookup_lt_Some in Hc. exact Hc.
Qed.

Lemma waypointsOf_nonDecreasing route startTime ev :
  (0 <= timePerStep route ev)%Q -> nonDecreasing (waypointsOf route startTime ev).
Proof.
  intros Hstep i j wi wj Hij Hi Hj.
  apply waypointsOf_lookup in Hi as [-> _].
  apply waypointsOf_lookup in Hj as [-> _].
  assert (Hz : (inject_Z (Z.of_nat i) <= inject_Z (Z.of_nat j))%Q)
    by (rewrite <- Zle_Qle; lia).
  apply Qplus_le_r. apply Qmult_le_compat_r; assumption.
Qed.

Lemma waypointsOf_head route startTime ev w0 :
  head (waypointsOf route startTime ev) = Some w0 -> (timestamp w0 == startTime)%Q.
Proof.
  rewrite head_lookup. intros H. apply waypointsOf_lookup in H as [-> _].
  cbn. ring.
Qed.

Lemma waypointsOf_length route startTime ev :
  length (waypointsOf route startTime ev) = length (route_coordinates route).
Proof. unfold waypointsOf. apply length_imap. Qed.

Lemma waypointsOf_last route startTime ev wn :
  (0 < speedMult ev)%Q ->
  last (waypointsOf route startTime ev) = Some wn ->
  (2 <= length (route_coordinates route))%nat ->
  (timestamp wn == startTime + scaledDuration route ev)%Q.
Proof.
  intros Hs Hl Hn. rewrite last_lookup in Hl.
  rewrite waypointsOf_length in Hl.
  apply waypointsOf_lookup in Hl as [-> _].
  unfold timePerStep.
  destruct (Nat.ltb_spec 1 (length (route_coordinates route))) as [_ | Hle]; [| lia].
  set (n := length (route_coordinates route)) in *.
  replace (Z.of_nat (Nat.pred n)) with (Z.of_nat n - 1) by lia.
  assert (Hnz : ~ (inject_Z (Z.of_nat n - 1) == 0)%Q).
  { change 0%Q with (inject_Z 0). rewrite inject_Z_injective. lia. }
  field. exact Hnz.
Qed.

Lemma generateEVTripFromRoute_waypoints route startTime ev tripId evRoute st :
  waypoints (fst (generateEVTripFromRoute route startTime ev tripId evRoute st))
  = waypointsOf route startTime ev.
Proof. unfold generateEVTripFromRoute. rewrite rbind_fst. reflexivity. Qed.

Lemma catalog_positive ev :
  In ev evTypes -> (0 < speedMult ev)%Q /\ (0 < rangeKm ev)%Q.
Proof.
  intros Hev. pose proof evTypes_positive as Hall.
  rewrite Forall_forall in Hall. apply Hall. apply list_elem_of_In. exact Hev.
Qed.

Lemma eligibleEVs_catalog evRoute ev :
  In ev (eligibleEVsFor evRoute) -> In ev evTypes.
Proof.
  unfold eligibleEVsFor. intros Hin.
  destruct (tripType evRoute); apply filter_In in Hin; tauto.
Qed.

Lemma eligibleEVs_positive evRoute ev :
  In ev (eligibleEVsFor evRoute) -> (0 < speedMult ev)%Q /\ (0 < rangeKm ev)%Q.
Proof.
  intros Hin. apply catalog_positive. exact (eligibleEVs_catalog evRoute ev Hin).
Qed.

(** The draw of a vehicle never reads past the end of the eligible list. *)
Lemma drawEV_in_range evRoute st :
  In (fst (drawEV (eligibleEVsFor evRoute) st)) (eligibleEVsFor evRoute).
Proof.
  unfold drawEV. rewrite rbind_fst. cbn [rret fst].
  destruct (random_range st) as [H0 H1].
  set (r := fst (Prng.random st)) in *.
  set (l := eligibleEVsFor evRoute).
  assert (Hlen : (0 < length l)%nat).
  { unfold l, eligibleEVsFor. destruct (tripType evRoute); vm_compute; lia. }
  apply nth_In.
  pose proof (floor_draw_range r (Z.of_nat (length l)) H0 H1 ltac:(lia)) as Hf.
  lia.
Qed.

Lemma startTime_range i numTrips r :
  0 <= i < numTrips -> (0 <= r)%Q ->
  let startTime :=
    js_rem (inject_Z i * (LOOP_DURATION / inject_Z numTrips) + r * 50) LOOP_DURATION in
  (0 <= startTime)%Q /\ (startTime < LOOP_DURATION)%Q.
Proof.
  intros Hi Hr. cbv zeta. apply js_rem_range; [| reflexivity].
  assert (Hn : (0 < inject_Z numTrips)%Q)
    by (change 0%Q with (inject_Z 0); rewrite <- Zlt_Qlt; lia).
  assert (Hi0 : (0 <= inject_Z i)%Q)
    by (change 0%Q with (inject_Z 0); rewrite <- Zle_Qle; lia).
  assert (Hd : (0 <= LOOP_DURATION / inject_Z numTrips)%Q)
    by (apply Qdiv_nonneg; [discriminate | exact Hn]).
  pose proof (Qmult_le_0_compat _ _ Hi0 Hd). lra.
Qed.

Lemma returnStart_range startTime r :
  (0 <= startTime)%Q -> (0 <= r)%Q ->
  let returnStartTime := js_rem (startTime + LOOP_DURATION / 2 + r * 200) LOOP_DURATION in
  (0 <= returnStartTime)%Q /\ (returnStartTime < LOOP_DURATION)%Q.
Proof.
  intros Hs Hr. cbv zeta. apply js_rem_range; [| reflexivity].
  assert (Hhalf : (LOOP_DURATION / 2 == 900)%Q) by reflexivity.
  rewrite Hhalf. lra.
Qed.

(** C7, as stated, fails on the upper bound: for the sample edge (weight 2,
    a fifty-minute route) the second trip starts at about 937 and its last
    waypoint has timestamp about 1937, beyond the loop length 1800. *)
Lemma C7_timestamp_beyond_loop :
  exists t w,
    generateTripData sampleTable [sampleEdge] !! 1%nat = Some t /\
    last (waypoints t) = Some w /\
    (LOOP_DURATION < timestamp w)%Q.
Proof.
  eexists. eexists. split; [| split].
  - vm_compute. reflexivity.
  - vm_compute. reflexivity.
  - vm_compute. reflexivity.
Qed.

(** ** The sort engine *)

Lemma binaryInsertion_perm {T} (todo : list T) : forall sorted st,
  Permutation (fst (binaryInsertion sorted todo st)) (sorted ++ todo).
Proof.
  induction todo as [| pivot rest IH]; intros sorted st.
  - cbn. rewrite app_nil_r. reflexivity.
  - cbn [binaryInsertion]. rewrite rbind_fst. rewrite IH.
    set (left := fst (findSlot (length sorted) 0 (length sorted) st)).
    rewrite <- (take_drop left sorted) at 3.
    rewrite <- !app_assoc. cbn [app].
    apply Permutation_app_head. apply Permutation_middle.
Qed.

Lemma countAndMakeRun_perm {T} (l : list T) st :
  let split := fst (countAndMakeRun l st) in
  Permutation (fst split ++ snd split) l.
Proof.
  cbv zeta. unfold countAndMakeRun.
  destruct l as [| a [| b rest]]; [reflexivity | reflexivity |].
  rewrite rbind_fst, rbind_fst. cbn [rret fst snd].
  set (n := fst (extendRun _ rest 2 _)).
  apply (Permutation_trans
           (l' := take n (a :: b :: rest) ++ drop n (a :: b :: rest)));
    [| rewrite take_drop; reflexivity].
  apply Permutation_app_tail.
  destruct (fst (compareNegative st)); [| reflexivity].
  symmetry. apply Permutation_rev.
Qed.

Lemma runInsertionEngine_permutes : SortPermutes runInsertionEngine.
Proof.
  intros T l st. cbn. unfold runInsertionSortRandom.
  rewrite rbind_fst. rewrite binaryInsertion_perm.
  apply countAndMakeRun_perm.
Qed.

(** ** Rule 2: city to highway *)

Lemma Qgtb_false_le a b : Qgtb a b = false <-> (a <= b)%Q.
Proof.
  unfold Qgtb, Qltb. rewrite negb_false_iff. apply Qle_bool_iff.
Qed.

Lemma Qgtb_true_lt a b : Qgtb a b = true <-> (b < a)%Q.
Proof. unfold Qgtb. apply Qltb_lt. Qed.

(** C3, as the code has it: for a non-highway station the rule draws once;
    on a draw above 0.3 it adds no edge; on a draw of at most 0.3 it adds
    no edge when no highway station is closer than 40 km, and otherwise
    exactly one roadtrip edge of weight 2 from the station to a highway
    station closer than 40 km, the first of the shuffled candidates. *)
Theorem C3_city_to_highway
    (engine : ArraySort) (getDistance : Q * Q -> Q * Q -> Q)
    (highwayStations : list ChargingStation) (station : ChargingStation) (st : Z) :
  SortPermutes engine ->
  let r := fst (Prng.random st) in
  let candidates :=
    List.filter
      (fun h => Qltb (getDistance (coordinates station) (coordinates h)) 40)
      highwayStations in
  let edges := fst (cityToHighway getDistance highwayStations station st) in
  ((0.3 < r)%Q -> edges = []) /\
  ((r <= 0.3)%Q -> candidates = [] -> edges = []) /\
  ((r <= 0.3)%Q -> candidates <> [] ->
   exists nearbyHighway,
     edges = [ {| from := station; to := nearbyHighway; tripType := roadtrip;
                  weight := 2 |} ] /\
     In nearbyHighway highwayStations /\
     (getDistance (coordinates station) (coordinates nearbyHighway) < 40)%Q /\
     head (fst (sortRandom candidates (snd (Prng.random st)))) = Some nearbyHighway).
Proof.
  intros Hperm. cbv zeta. unfold cityToHighway. rewrite rbind_fst. cbv beta.
  set (r := fst (Prng.random st)).
  set (st1 := snd (Prng.random st)).
  set (candidates := List.filter _ highwayStations).
  split; [| split].
  - intros Hr. apply Qgtb_true_lt in Hr. rewrite Hr. reflexivity.
  - intros Hr Hnil. apply Qgtb_false_le in Hr. rewrite Hr.
    rewrite rbind_fst.
    pose proof (Hperm _ candidates st1) as Hp. rewrite Hnil in Hp.
    symmetry in Hp. apply Permutation_nil in Hp. rewrite Hnil, Hp. reflexivity.
  - intros Hr Hne. apply Qgtb_false_le in Hr. rewrite Hr.
    rewrite rbind_fst.
    pose proof (Hperm _ candidates st1) as Hp.
    destruct (fst (sortRandom candidates st1)) as [| h rest] eqn:Es.
    + apply Permutation_nil in Hp. contradiction.
    + exists h. cbn [head rret fst].
      assert (Hin : In h candidates).
      { eapply Permutation_in; [exact Hp | left; reflexivity]. }
      apply filter_In in Hin as [Hin Hd]. apply Qltb_lt in Hd.
      split; [reflexivity | split; [exact Hin | split; [exact Hd | reflexivity]]].
Qed.

Lemma C3_city_to_highway_sample :
  let r := fst (Prng.random 7) in
  let candidates :=
    List.filter
      (fun h => Qltb (meridianDistance (coordinates station3) (coordinates h)) 40)
      corridor in
  let edges :=
    fst (cityToHighway (engine := runInsertionEngine) meridianDistance corridor station3 7) in
  ((0.3 < r)%Q -> edges = []) /\
  ((r <= 0.3)%Q -> candidates = [] -> edges = []) /\
  ((r <= 0.3)%Q -> candidates <> [] ->
   exists nearbyHighway,
     edges = [ {| from := station3; to := nearbyHighway; tripType := roadtrip;
                  weight := 2 |} ] /\
     In nearbyHighway corridor /\
     (meridianDistance (coordinates station3) (coordinates nearbyHighway) < 40)%Q /\
     head (fst (sortRandom (ArraySort := runInsertionEngine) candidates
                  (snd (Prng.random 7)))) = Some nearbyHighway).
Proof.
  exact (C3_city_to_highway runInsertionEngine meridianDistance corridor station3 7
           runInsertionEngine_permutes).
Defined.

(** C3, as stated, fails: in the script's run on the sample network
    (seed 42) station-3 is connected to highway-1, 33 km away, although
    highway-0 is 11 km away. *)
Lemma C3_not_the_nearest :
  map edgeIds (edgesFrom "station-3" sampleScriptRoutes)
  = [("station-3", "highway-1", roadtrip, 2)] /\
  In highway0 sampleStations /\
  (meridianDistance (coordinates station3) (coordinates highway0)
   < meridianDistance (coordinates station3) (coordinates highway1))%Q /\
  (meridianDistance (coordinates station3) (coordinates highway1) < 40)%Q.
Proof.
  split; [vm_compute; reflexivity |].
  split; [unfold sampleStations, cluster, corridor, highway0; cbn; tauto |].
  split; vm_compute; reflexivity.
Qed.

(** ** Rule 1: highway corridor *)

Section Corridor.
Context {engine : ArraySort}.
Variable getDistance : Q * Q -> Q * Q -> Q.

(** The edges of one highway station: the highway stations among the
    first three of the shuffled window, which was filtered over all
    stations; each weight is 3, 4, 5 or 6. *)
Lemma highwayCorridor_edges chargingStations station st :
  let nearby := fst (findNearbyStations getDistance station chargingStations 20 80 st) in
  let edges := fst (highwayCorridor getDistance chargingStations station st) in
  map (fun r => (from r, to r, tripType r)) edges
  = map (fun target => (station, target, roadtrip)) (List.filter isHighway (take 3 nearby)) /\
  Forall (fun r => 3 <= weight r <= 6) edges.
Proof.
  cbv zeta. unfold highwayCorridor. rewrite rbind_fst.
  set (nearby := fst (findNearbyStations getDistance station chargingStations 20 80 st)).
  generalize (snd (findNearbyStations getDistance station chargingStations 20 80 st)).
  generalize (take 3 nearby) as targets. clear nearby.
  induction targets as [| target rest IH]; intros st'; [split; [reflexivity | constructor] |].
  rewrite forEach_cons. cbn [List.filter].
  destruct (isHighway target) eqn:Eh.
  - rewrite rbind_fst, rbind_snd. cbn [rret fst snd].
    destruct (IH (snd (Prng.random st'))) as [IHm IHw].
    split.
    + cbn [app map]. rewrite IHm. reflexivity.
    + constructor; [| exact IHw]. cbn [weight].
      destruct (random_range st') as [H0 H1].
      pose proof (floor_draw_range _ 4 H0 H1 ltac:(lia)) as Hf.
      change (inject_Z 4) with 4%Q in Hf. lia.
  - cbn [rret fst snd app]. apply IH.
Qed.

End Corridor.

(** C4 on the sample network (seed 42): three other highway stations lie
    between 20 and 80 km from highway-2, and no highway-corridor edge
    leaves it; two leave highway-1, which has three in its window too.
    The window is filtered over all stations, the first three of the
    shuffle are taken, and only then are the non-highway ones dropped. *)
Theorem C4_corridor_truncates_before_filter :
  map id (List.filter (fun s => isHighway s && inWindow meridianDistance highway2 20 80 s)
                      sampleStations)
  = ["highway-0"; "highway-1"; "highway-3"] /\
  edgesFrom "highway-2" sampleScriptRoutes = [] /\
  map edgeIds (edgesFrom "highway-1" sampleScriptRoutes)
  = [("highway-1", "highway-0", roadtrip, 3); ("highway-1", "highway-3", roadtrip, 6)].
Proof.
  split; [vm_compute; reflexivity |].
  split; vm_compute; reflexivity.
Qed.

(** ** The precomputation pipeline and the trip expander *)

Section Pipeline.
Context {engine : ArraySort}.
Variable getDistance : Q * Q -> Q * Q -> Q.

(** tripData.ts generates the edges by the script's rules. *)
Lemma live_network_is_script_network stations st :
  live_generateEVRouteNetwork getDistance stations st
  = script_generateEVRouteNetwork getDistance stations st.
Proof. reflexivity. Qed.

(** The variant that reads the precomputed table generates the script's
    edges followed by those of its fifth group of rules. *)
Lemma precomputed_network_extends stations st :
  let scriptRun := script_generateEVRouteNetwork getDistance stations st in
  fst (precomputed_generateEVRouteNetwork getDistance stations st)
  = fst scriptRun ++
    fst (extraRoutes getDistance stations
           (List.filter (fun s => negb (isHighway s)) stations) (snd scriptRun)).
Proof.
  cbv zeta. unfold precomputed_generateEVRouteNetwork, script_generateEVRouteNetwork.
  repeat (rewrite ?rbind_fst, ?rbind_snd; cbv beta zeta).
  cbn [rret fst snd]. rewrite <- !app_assoc. reflexivity.
Qed.

End Pipeline.

Local Ltac key_in :=
  cbv beta; rewrite ?elem_of_union, ?elem_of_singleton in *; intuition auto.

Lemma collectStep_spec acc route :
  let acc' := collectStep acc route in
  (forall k, k ∈ snd acc <-> In k (map pair_key (fst acc))) ->
  (forall k, k ∈ snd acc' <-> In k (map pair_key (fst acc'))) /\
  (forall k, k ∈ snd acc -> k ∈ snd acc') /\
  Forall (fun k => k ∈ snd acc') (lookupKeys route).
Proof.
  cbv zeta. destruct acc as [routePairs seenKeys]. cbn [fst snd]. intros Hinv.
  unfold collectStep, lookupKeys.
  set (key := getRouteKey (id (from route)) (id (to route))).
  set (reverseKey := getRouteKey (id (to route)) (id (from route))).
  destruct (decide (key ∈ seenKeys)) as [Hk | Hk].
  - destruct (decide (reverseKey ∈ seenKeys)) as [Hr | Hr]; cbn [fst snd].
    + split; [exact Hinv | split; [tauto |]]. repeat constructor; assumption.
    + split; [| split].
      * intros k. rewrite map_app, in_app_iff. cbn [map pair_key].
        rewrite elem_of_union, elem_of_singleton, Hinv. cbn. intuition congruence.
      * intros k Hin. key_in.
      * constructor; [key_in | constructor; [key_in | constructor]].
  - destruct (decide (reverseKey ∈ {[key]} ∪ seenKeys)) as [Hr | Hr]; cbn [fst snd].
    + split; [| split].
      * intros k. rewrite map_app, in_app_iff. cbn [map pair_key].
        rewrite elem_of_union, elem_of_singleton, Hinv. cbn. intuition congruence.
      * intros k Hin. key_in.
      * constructor; [key_in | constructor; [key_in | constructor]].
    + split; [| split].
      * intros k. rewrite !map_app, !in_app_iff. cbn [map pair_key].
        rewrite !elem_of_union, !elem_of_singleton, Hinv. cbn. intuition congruence.
      * intros k Hin. key_in.
      * constructor; [key_in | constructor; [key_in | constructor]].
Qed.

Lemma collect_fold_spec evRoutes : forall acc,
  (forall k, k ∈ snd acc <-> In k (map pair_key (fst acc))) ->
  let acc' := fold_left collectStep evRoutes acc in
  (forall k, k ∈ snd acc' <-> In k (map pair_key (fst acc'))) /\
  (forall k, k ∈ snd acc -> k ∈ snd acc') /\
  Forall (fun route => Forall (fun k => k ∈ snd acc') (lookupKeys route)) evRoutes.
Proof.
  induction evRoutes as [| route rest IH]; intros acc Hinv; cbv zeta.
  - cbn. split; [exact Hinv | split; [tauto | constructor]].
  - cbn [fold_left].
    destruct (collectStep_spec acc route Hinv) as (Hinv1 & Hmono1 & Hkeys1).
    destruct (IH (collectStep acc route) Hinv1) as (Hinv2 & Hmono2 & Hrest).
    split; [exact Hinv2 | split; [auto |]].
    constructor; [| exact Hrest].
    eapply Forall_impl; [exact Hkeys1 |]. intros k Hk. apply Hmono2. exact Hk.
Qed.

(** The pairs collected from a list of demand edges hold the key of each
    edge and of its reverse: every key the trip expander looks up for
    these edges is among the pairs the script fetches. *)
Lemma collectRoutePairs_covers evRoutes :
  Forall (fun route =>
            Forall (fun k => In k (map pair_key (collectRoutePairs evRoutes)))
                   (lookupKeys route))
         evRoutes.
Proof.
  destruct (collect_fold_spec evRoutes ([], ∅)) as (Hinv & _ & Hall).
  { intros k. cbn. set_solver. }
  unfold collectRoutePairs.
  eapply Forall_impl; [exact Hall |]. intros route Hr.
  eapply Forall_impl; [exact Hr |]. intros k Hk. apply Hinv. exact Hk.
Qed.

Lemma persist_fold_keys fetched routePairs :
  forall (table : gmap string RouteGeometry) (k : string),
  fold_left (persistStep fetched) routePairs table !! k <> None ->
  table !! k <> None \/ In k (map pair_key routePairs).
Proof.
  induction routePairs as [| p rest IH]; intros table k H; [left; exact H |].
  cbn [fold_left] in H. apply IH in H as [H | H]; [| right; right; exact H].
  unfold persistStep in H.
  destruct (fetched _ _); [| left; exact H].
  destruct (decide (pair_key p = k)) as [<- | Hne].
  - right. left. reflexivity.
  - rewrite lookup_insert_ne in H by exact Hne. left. exact H.
Qed.

(** The persisted table has no key outside the collected pairs. *)
Lemma persistRoutes_keys fetched routePairs k :
  ~ In k (map pair_key routePairs) -> persistRoutes fetched routePairs !! k = None.
Proof.
  intros Hnot. unfold persistRoutes.
  destruct (fold_left (persistStep fetched) routePairs ∅ !! k) eqn:E; [| reflexivity].
  exfalso.
  destruct (persist_fold_keys fetched routePairs ∅ k) as [H | H].
  - rewrite E. discriminate.
  - rewrite lookup_empty in H. congruence.
  - contradiction.
Qed.

(** A demand edge with no geometry in either direction expands into no
    trip. *)
Lemma missing_geometry_no_trips (table : gmap string RouteGeometry) evRoute :
  Forall (fun k => table !! k = None) (lookupKeys evRoute) ->
  generateTripData table [evRoute] = [].
Proof.
  unfold lookupKeys. intros Hmiss.
  inversion Hmiss as [| ? ? Hf Hrest]; subst.
  inversion Hrest as [| ? ? Hr _]; subst.
  assert (Hloop : forall indices tripId st,
            fst (fst (tripLoop table evRoute indices tripId st)) = []).
  { induction indices as [| i rest IH]; intros tripId st; [reflexivity |].
    cbn [tripLoop]. rewrite rbind_fst, rbind_fst. cbn [rret fst].
    rewrite IH, app_nil_r.
    unfold tripIteration. rewrite Hf, Hr. unfold forwardTrip, returnTrip.
    repeat (rewrite ?rbind_fst, ?rbind_snd; cbv beta zeta).
    reflexivity. }
  unfold generateTripData. cbn [routesLoop].
  rewrite rbind_fst, rbind_fst. cbn [rret fst routesLoop]. rewrite Hloop. reflexivity.
Qed.

(** C2 on the sample network (seed 42 on both sides): the application's
    generator yields the commuter edge station-0 -> station-4 of its fifth
    group of rules, which the script's generator has not; neither of the two
    keys the trip expander looks up for that edge is among the pairs the
    script fetches, so whatever the routing service answers the persisted
    table has no entry for them and the edge expands into no trip. *)
Theorem C2_table_misses_extra_edges :
  let routePairs := collectRoutePairs sampleScriptRoutes in
  let evRoute := {| from := station0; to := station4; tripType := commuter; weight := 5 |} in
  In evRoute sampleAppRoutes /\
  ~ In evRoute sampleScriptRoutes /\
  lookupKeys evRoute = ["station-0-station-4"; "station-4-station-0"] /\
  (forall fetched,
      Forall (fun k => persistRoutes fetched routePairs !! k = None) (lookupKeys evRoute)) /\
  (forall fetched,
      generateTripData (persistRoutes fetched routePairs) [evRoute] = []).
Proof.
  cbv zeta.
  set (evRoute := {| from := station0; to := station4; tripType := commuter; weight := 5 |}).
  assert (Hkeys : map pair_key (collectRoutePairs sampleScriptRoutes)
                  = ["highway-0-highway-1"; "highway-1-highway-0";
                     "highway-0-highway-2"; "highway-2-highway-0";
                     "highway-0-highway-3"; "highway-3-highway-0";
                     "highway-1-highway-3"; "highway-3-highway-1";
                     "station-0-highway-0"; "highway-0-station-0";
                     "station-2-highway-0"; "highway-0-station-2";
                     "station-3-highway-1"; "highway-1-station-3";
                     "station-4-highway-1"; "highway-1-station-4";
                     "station-5-highway-1"; "highway-1-station-5"])
    by (vm_compute; reflexivity).
  assert (Hmiss : forall fetched,
            Forall (fun k => persistRoutes fetched (collectRoutePairs sampleScriptRoutes) !! k = None)
                   (lookupKeys evRoute)).
  { intros fetched. unfold lookupKeys, evRoute. cbn [from to].
    repeat constructor; apply persistRoutes_keys; rewrite Hkeys;
      vm_compute; intuition discriminate. }
  split; [vm_compute; tauto |].
  split.
  { intros Hin. apply (in_map edgeIds) in Hin. vm_compute in Hin.
    intuition discriminate. }
  split; [vm_compute; reflexivity |].
  split; [exact Hmiss |].
  intros fetched. apply missing_geometry_no_trips. exact (Hmiss fetched).
Qed.

(** * Further properties of the code *)

(** ** Loops that push onto one array *)

Lemma forEach_Forall {T U} (P : U -> Prop) (f : T -> Rand (list U)) (xs : list T) :
  (forall x st, In x xs -> Forall P (fst (f x st))) ->
  forall st, Forall P (fst (forEach f xs st)).
Proof.
  induction xs as [| x xs IH]; intros Hf st.
  - constructor.
  - rewrite forEach_cons. apply Forall_app. split.
    + apply Hf. left. reflexivity.
    + apply IH. intros y st' Hy. apply Hf. right. exact Hy.
Qed.

Lemma forEach_length_le {T U} (f : T -> Rand (list U)) (bound : nat) (xs : list T) :
  (forall x st, (length (fst (f x st)) <= bound)%nat) ->
  forall st, (length (fst (forEach f xs st)) <= bound * length xs)%nat.
Proof.
  intros Hf. induction xs as [| x xs IH]; intros st.
  - cbn. lia.
  - rewrite forEach_cons, length_app. cbn [length].
    specialize (Hf x st). specialize (IH (snd (f x st))). lia.
Qed.

(** ** The station generator: counts, labels, placement, draws *)

Local Ltac next_draw :=
  match goal with
  | |- context [Prng.random ?s] =>
      let H := fresh "Hr" in
      let r := fresh "r" in
      let s' := fresh "s" in
      pose proof (random_range s) as H;
      destruct (Prng.random s) as [r s'] eqn:?; cbn [fst snd] in H;
      cbv beta iota zeta
  end.

Lemma available_range ra n :
  (0 <= ra)%Q -> (ra < 1)%Q -> 0 <= n ->
  0 <= Math_floor (ra * inject_Z (n + 1)) <= n.
Proof.
  intros H0 H1 Hn.
  pose proof (floor_draw_range ra (n + 1) H0 H1 ltac:(lia)). lia.
Qed.

Lemma floor_scaled r k :
  (0 <= r)%Q -> (r < 1)%Q -> 0 < k -> 0 <= Math_floor (r * inject_Z k) < k.
Proof. apply floor_draw_range. Qed.

Lemma prefix_station x : String.prefix "highway-" ("station-" +:+ x) = false.
Proof. reflexivity. Qed.

Lemma prefix_highway x : String.prefix "highway-" ("highway-" +:+ x) = true.
Proof. destruct x; reflexivity. Qed.

Local Ltac counts_goal :=
  unfold countsInBounds, isHighway;
  cbn [fst snd id type chargers available];
  rewrite ?prefix_station, ?prefix_highway;
  cbn [chargersBand fst snd].

Lemma generateHighwayStation_counts hname coords i st :
  countsInBounds (fst (generateHighwayStation hname coords i st)).
Proof.
  unfold generateHighwayStation, rbind, rret.
  do 6 next_draw.
  destruct (Qltb r 0.4); counts_goal.
  - pose proof (floor_scaled r0 12 ltac:(tauto) ltac:(tauto) ltac:(lia)) as Hc.
    change (inject_Z 12) with 12%Q in Hc.
    pose proof (available_range r4 (12 + Math_floor (r0 * 12)) ltac:(tauto) ltac:(tauto) ltac:(lia)).
    repeat split; try lia; try (intros; discriminate).
  - pose proof (floor_scaled r0 8 ltac:(tauto) ltac:(tauto) ltac:(lia)) as Hc.
    change (inject_Z 8) with 8%Q in Hc.
    pose proof (available_range r4 (6 + Math_floor (r0 * 8)) ltac:(tauto) ltac:(tauto) ltac:(lia)).
    repeat split; try lia; try (intros; discriminate).
Qed.


Lemma pick_In arr i : 0 <= i < Z.of_nat (length arr) -> In (pick arr i) arr.
Proof.
  intros Hi. unfold pick.
  destruct (arr !! Z.to_nat i) as [x |] eqn:E.
  - cbn. apply list_elem_of_In. eapply list_elem_of_lookup_2. exact E.
  - apply lookup_ge_None in E. lia.
Qed.

Lemma pick_operator r :
  (0 <= r)%Q -> (r < 1)%Q ->
  In (pick operators (Math_floor (r * inject_Z (Z.of_nat (length operators))))) operators.
Proof.
  intros H0 H1. apply pick_In. apply floor_draw_range; [assumption .. |].
  cbn. lia.
Qed.

Lemma pick_suffix r :
  (0 <= r)%Q -> (r < 1)%Q -> In (pick nameSuffixes (Math_floor (r * 8))) nameSuffixes.
Proof.
  intros H0 H1. apply pick_In.
  pose proof (floor_draw_range r 8 H0 H1 ltac:(lia)) as H.
  change (inject_Z 8) with 8%Q in H. cbn [length nameSuffixes]. lia.
Qed.

Lemma generateHighwayStation_shape hname coords i st :
  let s := fst (generateHighwayStation hname coords i st) in
  exists rx ry : Q,
    ((0 <= rx)%Q /\ (rx < 1)%Q) /\ ((0 <= ry)%Q /\ (ry < 1)%Q) /\
    coordinates s
    = ((fst coords + (rx - 0.5) * 0.01)%Q, (snd coords + (ry - 0.5) * 0.01)%Q) /\
    In (operator s) operators /\
    name s = hname +:+ " Charging Plaza".
Proof.
  unfold generateHighwayStation, rbind, rret.
  do 6 next_draw. cbn [fst coordinates operator name].
  exists r1, r2. split; [tauto |]. split; [tauto |].
  split; [reflexivity |]. split; [apply pick_operator; tauto | reflexivity].
Qed.

Lemma generateHighwayStation_draws hname coords i st :
  let run := generateHighwayStation hname coords i st in
  snd run = Prng.state_after (drawsOfStation (fst run)) st.
Proof.
  unfold generateHighwayStation, rbind, rret, drawsOfStation, isHighway.
  unfold Prng.random. cbv beta iota zeta.
  cbn [fst snd id type]. rewrite prefix_highway. cbn [Prng.state_after]. reflexivity.
Qed.


Lemma push_one_fst {T U} (f : T -> Rand U) x st :
  fst (rbind (f x) (fun s => rret [s]) st) = [fst (f x st)].
Proof. rewrite rbind_fst. reflexivity. Qed.

Lemma push_one_snd {T U} (f : T -> Rand U) x st :
  snd (rbind (f x) (fun s => rret [s]) st) = snd (f x st).
Proof. rewrite rbind_snd. reflexivity. Qed.

Lemma highwayPass_Forall (P : ChargingStation -> Prop) hws :
  (forall hw i st, hws !! i = Some hw ->
                   P (fst (generateHighwayStation (fst hw) (snd hw) i st))) ->
  forall st, Forall P (fst (highwayPass hws st)).
Proof.
  intros HP st. unfold highwayPass. apply forEach_Forall.
  intros [i hw] st' Hin. rewrite push_one_fst. constructor; [| constructor].
  cbn [fst snd]. apply HP.
  apply list_elem_of_In, list_elem_of_lookup_1 in Hin as [j Hj].
  rewrite list_lookup_imap in Hj.
  destruct (hws !! j) as [hw' |] eqn:E; cbn in Hj; [| discriminate].
  injection Hj as <- <-. exact E.
Qed.

Lemma generateHighwayStation_highway hname coords i st :
  isHighway (fst (generateHighwayStation hname coords i st)) = true.
Proof. unfold isHighway. rewrite generateHighwayStation_id. apply prefix_highway. Qed.

Section StationFacts.
Variable Math_PI : Q.
Variables Math_cos Math_sin : Q -> Q.

Lemma cityStation_counts cityName center startId i st :
  countsInBounds (fst (cityStation Math_PI Math_cos Math_sin cityName center startId i st)).
Proof.
  unfold cityStation, drawType, drawChargers, rbind, rret.
  do 3 next_draw.
  destruct (Qltb r1 0.2).
  - do 4 next_draw. counts_goal.
    pose proof (floor_scaled r2 8 ltac:(tauto) ltac:(tauto) ltac:(lia)) as Hc.
    change (inject_Z 8) with 8%Q in Hc.
    pose proof (available_range r5 (8 + Math_floor (r2 * 8)) ltac:(tauto) ltac:(tauto) ltac:(lia)).
    repeat split; try lia; try (intros; discriminate).
  - next_draw. destruct (Qltb r2 0.5).
    + do 4 next_draw. counts_goal.
      pose proof (floor_scaled r3 6 ltac:(tauto) ltac:(tauto) ltac:(lia)) as Hc.
      change (inject_Z 6) with 6%Q in Hc.
      pose proof (available_range r6 (4 + Math_floor (r3 * 6)) ltac:(tauto) ltac:(tauto) ltac:(lia)).
      repeat split; try lia; try (intros; discriminate).
    + do 4 next_draw. counts_goal.
      pose proof (floor_scaled r3 4 ltac:(tauto) ltac:(tauto) ltac:(lia)) as Hc.
      change (inject_Z 4) with 4%Q in Hc.
      pose proof (available_range r6 (2 + Math_floor (r3 * 4)) ltac:(tauto) ltac:(tauto) ltac:(lia)).
      repeat split; try lia; try (intros; discriminate).
Qed.

(** What one iteration of the city loop builds, in terms of its draws. *)
Lemma cityStation_shape cityName center startId i st :
  let s := fst (cityStation Math_PI Math_cos Math_sin cityName center startId i st) in
  exists r1 r2 : Q,
    ((0 <= r1)%Q /\ (r1 < 1)%Q) /\ ((0 <= r2)%Q /\ (r2 < 1)%Q) /\
    coordinates s
    = ((fst center + Math_cos (r1 * Math_PI * 2) * (0.02 + r2 * 0.06))%Q,
       (snd center + Math_sin (r1 * Math_PI * 2) * (0.02 + r2 * 0.06) * 0.7)%Q) /\
    In (operator s) operators /\
    exists suffix, In suffix nameSuffixes /\
      name s = cityName +:+ " " +:+ suffix +:+ " " +:+ pretty (i + 1)%nat.
Proof.
  unfold cityStation, drawType, drawChargers, rbind, rret.
  do 3 next_draw.
  exists r, r0. split; [tauto |]. split; [tauto |].
  destruct (Qltb r1 0.2); [| next_draw; destruct (Qltb r2 0.5)];
    do 4 next_draw; cbn [fst coordinates operator name];
    (split; [reflexivity |]); (split; [apply pick_operator; tauto |]);
    eexists; (split; [apply pick_suffix | reflexivity]); tauto.
Qed.

(** The generator state after one station. *)
Lemma cityStation_draws cityName center startId i st :
  let run := cityStation Math_PI Math_cos Math_sin cityName center startId i st in
  snd run = Prng.state_after (drawsOfStation (fst run)) st.
Proof.
  unfold cityStation, drawType, drawChargers, rbind, rret, drawsOfStation, isHighway.
  unfold Prng.random. cbv beta iota zeta.
  destruct (Qltb _ 0.2); [| destruct (Qltb _ 0.5)];
    cbn [fst snd id type]; rewrite prefix_station; cbn [Prng.state_after]; reflexivity.
Qed.

Lemma cityPass_Forall (P : ChargingStation -> Prop) hubs :
  (forall city startId i st,
      In city hubs -> (i < density city)%nat ->
      P (fst (cityStation Math_PI Math_cos Math_sin
                (hub_name city) (hub_coords city) startId i st))) ->
  forall stationId0 st,
    Forall P (fst (cityPass Math_PI Math_cos Math_sin hubs stationId0 st)).
Proof.
  induction hubs as [| city rest IH]; intros HP start st; [constructor |].
  cbn [cityPass]. rewrite rbind_fst, rbind_fst. cbn [rret fst].
  apply Forall_app. split.
  - unfold generateStationsAroundCity. apply forEach_Forall.
    intros i st' Hi. rewrite push_one_fst. constructor; [| constructor].
    apply HP; [left; reflexivity |].
    apply in_seq in Hi. lia.
  - apply IH. intros c s0 i st' Hc Hi. apply HP; [right; exact Hc | exact Hi].
Qed.

Lemma generateStationsFrom_Forall (P : ChargingStation -> Prop) hubs hws st :
  (forall city startId i st,
      In city hubs -> (i < density city)%nat ->
      P (fst (cityStation Math_PI Math_cos Math_sin
                (hub_name city) (hub_coords city) startId i st))) ->
  (forall hw i st, hws !! i = Some hw ->
                   P (fst (generateHighwayStation (fst hw) (snd hw) i st))) ->
  Forall P (fst (generateStationsFrom Math_PI Math_cos Math_sin hubs hws st)).
Proof.
  intros Hc Hh. unfold generateStationsFrom.
  rewrite rbind_fst, rbind_fst. cbn [rret fst].
  apply Forall_app. split; [apply cityPass_Forall | apply highwayPass_Forall]; assumption.
Qed.

Lemma cityStation_not_highway cityName center startId i st :
  isHighway (fst (cityStation Math_PI Math_cos Math_sin cityName center startId i st))
  = false.
Proof. unfold isHighway. rewrite cityStation_id. apply prefix_station. Qed.

End StationFacts.

(** X1.  Whatever the generator state and the hub lists, every generated
    station has a charger count inside the range of its type (2..5, 4..9 or
    8..15 in a city; 6..13 or 12..23 on a highway, where no station is
    [standard]), and an availability between 0 and its charger count. *)
Theorem station_counts_within_bounds
    (Math_PI : Q) (Math_cos Math_sin : Q -> Q)
    (hubs : list CityHub) (hws : list (string * (Q * Q))) (st : Z) :
  Forall countsInBounds
         (fst (generateStationsFrom Math_PI Math_cos Math_sin hubs hws st)).
Proof.
  apply generateStationsFrom_Forall.
  - intros. apply cityStation_counts.
  - intros. apply generateHighwayStation_counts.
Qed.

(** X2.  The indices drawn for the operator and for the name suffix never
    leave their arrays: every station's operator is one of the seven
    operators; a city station is named [hub suffix k] for a hub of the list,
    one of the eight suffixes and a number [k] from 1 to the hub's density;
    a highway station is named [point Charging Plaza] for a point of the
    list. *)
Theorem station_labels_from_catalogue
    (Math_PI : Q) (Math_cos Math_sin : Q -> Q)
    (hubs : list CityHub) (hws : list (string * (Q * Q))) (st : Z) :
  Forall (labelled hubs hws)
         (fst (generateStationsFrom Math_PI Math_cos Math_sin hubs hws st)).
Proof.
  apply generateStationsFrom_Forall.
  - intros city startId i st' Hcity Hi. unfold labelled.
    rewrite cityStation_not_highway.
    destruct (cityStation_shape Math_PI Math_cos Math_sin
                (hub_name city) (hub_coords city) startId i st')
      as (r1 & r2 & _ & _ & _ & Hop & suffix & Hs & Hname).
    split; [exact Hop |].
    exists city. split; [exact Hcity |].
    exists suffix, (i + 1)%nat. split; [exact Hs |]. split; [lia | exact Hname].
  - intros hw i st' Hlook. unfold labelled.
    rewrite generateHighwayStation_highway.
    destruct (generateHighwayStation_shape (fst hw) (snd hw) i st')
      as (rx & ry & _ & _ & _ & Hop & Hname).
    split; [exact Hop |].
    exists hw. split; [| exact Hname].
    apply list_elem_of_In. eapply list_elem_of_lookup_2. exact Hlook.
Qed.

Lemma forEach_push_Forall2 {T U} (R : T -> U -> Prop) (f : T -> Rand U) (xs : list T) :
  (forall x st, R x (fst (f x st))) ->
  forall st, Forall2 R xs (fst (forEach (fun x => rbind (f x) (fun s => rret [s])) xs st)).
Proof.
  intros HR. induction xs as [| x xs IH]; intros st.
  - constructor.
  - rewrite forEach_cons, push_one_fst. cbn [app]. constructor; [apply HR | apply IH].
Qed.

Lemma snd_imap_pair {A} (l : list A) : snd <$> imap pair l = l.
Proof.
  enough (forall g : nat -> nat, snd <$> imap (fun i x => (g i, x)) l = l) as H
    by exact (H (fun i => i)).
  induction l as [| x l IH]; intros g; [reflexivity |].
  cbn. f_equal. exact (IH (fun i => g (S i))).
Qed.

Lemma jitter_near c r :
  (0 <= r)%Q -> (r < 1)%Q -> (Qabs (c + (r - 0.5) * 0.01 - c) <= 0.005)%Q.
Proof.
  intros H0 H1. apply Qabs_Qle_condition. split; lra.
Qed.

Lemma highwayPass_follows hws st :
  Forall2 (fun hw s => isHighway s = true /\
                       name s = fst hw +:+ " Charging Plaza" /\
                       nearPoint (snd hw) 0.005 0.005 (coordinates s))
          hws (fst (highwayPass hws st)).
Proof.
  unfold highwayPass.
  rewrite <- (snd_imap_pair hws) at 1. apply Forall2_fmap_l.
  apply (forEach_push_Forall2
           (fun ih s => isHighway s = true /\
                        name s = fst (snd ih) +:+ " Charging Plaza" /\
                        nearPoint (snd (snd ih)) 0.005 0.005 (coordinates s))
           (fun ih => generateHighwayStation (fst (snd ih)) (snd (snd ih)) (fst ih))).
  intros [i hw] st'. cbn [fst snd].
  split; [apply generateHighwayStation_highway |].
  destruct (generateHighwayStation_shape (fst hw) (snd hw) i st')
    as (rx & ry & Hx & Hy & Hc & _ & Hname).
  split; [exact Hname |].
  rewrite Hc. unfold nearPoint. cbn [fst snd].
  split; apply jitter_near; tauto.
Qed.

Lemma cityPass_length Math_PI Math_cos Math_sin hubs stationId0 st :
  length (fst (cityPass Math_PI Math_cos Math_sin hubs stationId0 st))
  = totalDensity hubs.
Proof.
  rewrite <- (length_map id), cityPass_ids, length_map, length_seq. reflexivity.
Qed.

(** X3.  The highway stations are the last [length hws] entries of the
    list; the i-th of them carries a [highway-] id, is named after the i-th
    point of the highway list and lies within 0.005 degrees of it in
    longitude and in latitude. *)
Theorem highway_stations_follow_points
    (Math_PI : Q) (Math_cos Math_sin : Q -> Q)
    (hubs : list CityHub) (hws : list (string * (Q * Q))) (st : Z) :
  Forall2 (fun hw s => isHighway s = true /\
                       name s = fst hw +:+ " Charging Plaza" /\
                       nearPoint (snd hw) 0.005 0.005 (coordinates s))
          hws
          (drop (totalDensity hubs)
                (fst (generateStationsFrom Math_PI Math_cos Math_sin hubs hws st))).
Proof.
  unfold generateStationsFrom.
  rewrite rbind_fst, rbind_fst. cbn [rret fst].
  rewrite drop_app_length' by (symmetry; apply cityPass_length).
  apply highwayPass_follows.
Qed.

Lemma offset_near c t d k :
  (Qabs t <= 1)%Q -> (0 <= d)%Q -> (d <= 0.08)%Q -> (0 <= k)%Q -> (k <= 1)%Q ->
  (Qabs (c + t * d * k - c) <= 0.08 * k)%Q.
Proof.
  intros Ht Hd0 Hd1 Hk0 Hk1.
  apply Qabs_Qle_condition in Ht as [Ht0 Ht1].
  assert (0 <= d * k)%Q as Hm0 by (apply Qmult_le_0_compat; assumption).
  assert (d * k <= 0.08 * k)%Q as Hm1 by (apply Qmult_le_compat_r; assumption).
  assert (0 <= (1 - t) * (d * k))%Q as Ha by (apply Qmult_le_0_compat; [lra | assumption]).
  assert (0 <= (1 + t) * (d * k))%Q as Hb by (apply Qmult_le_0_compat; [lra | assumption]).
  apply Qabs_Qle_condition. split; lra.
Qed.

(** X4.  When [Math.cos] and [Math.sin] stay within [-1, 1], every city
    station lies within 0.08 degrees of longitude and 0.056 degrees of
    latitude of the centre of the hub it is named after. *)
Theorem city_stations_near_hub
    (Math_PI : Q) (Math_cos Math_sin : Q -> Q)
    (hubs : list CityHub) (hws : list (string * (Q * Q))) (st : Z) :
  (forall x, (Qabs (Math_cos x) <= 1)%Q) ->
  (forall x, (Qabs (Math_sin x) <= 1)%Q) ->
  Forall (fun s => isHighway s = false ->
                   exists hub, In hub hubs /\ namedAfterHub hub s /\
                               nearPoint (hub_coords hub) 0.08 0.056 (coordinates s))
         (fst (generateStationsFrom Math_PI Math_cos Math_sin hubs hws st)).
Proof.
  intros Hcos Hsin. apply generateStationsFrom_Forall.
  - intros city startId i st' Hcity Hi _.
    destruct (cityStation_shape Math_PI Math_cos Math_sin
                (hub_name city) (hub_coords city) startId i st')
      as (r1 & r2 & Hr1 & Hr2 & Hc & _ & suffix & Hs & Hname).
    exists city. split; [exact Hcity |]. split.
    + exists suffix, (i + 1)%nat. split; [exact Hs |]. split; [lia | exact Hname].
    + rewrite Hc. unfold nearPoint. cbn [fst snd]. split.
      * pose proof (offset_near (fst (hub_coords city)) (Math_cos (r1 * Math_PI * 2)%Q)
                      (0.02 + r2 * 0.06)%Q 1%Q (Hcos _)
                      ltac:(lra) ltac:(lra) ltac:(lra) ltac:(lra)) as H.
        eapply Qle_trans; [| apply H].
        apply Qle_lteq. right. apply Qabs_wd. ring.
      * pose proof (offset_near (snd (hub_coords city)) (Math_sin (r1 * Math_PI * 2)%Q)
                      (0.02 + r2 * 0.06)%Q 0.7%Q (Hsin _)
                      ltac:(lra) ltac:(lra) ltac:(lra) ltac:(lra)) as H.
        eapply Qle_trans; [apply H | lra].
  - intros hw i st' _ Hh. rewrite generateHighwayStation_highway in Hh. discriminate.
Qed.

Lemma city_stations_near_hub_witness :
  Forall (fun s => isHighway s = false ->
                   exists hub, In hub cityHubs /\ namedAfterHub hub s /\
                               nearPoint (hub_coords hub) 0.08 0.056 (coordinates s))
         (fst (generateStationsFrom anyPI unitTrig unitTrig cityHubs highwayStations 123)).
Proof.
  exact (city_stations_near_hub anyPI unitTrig unitTrig cityHubs highwayStations 123
           (fun _ => ltac:(unfold unitTrig, Qle; cbn; lia))
           (fun _ => ltac:(unfold unitTrig, Qle; cbn; lia))).
Defined.

Lemma filter_isHighway_ids (p : bool -> bool) (l : list ChargingStation) :
  map id (List.filter (fun s => p (isHighway s)) l)
  = List.filter (fun i => p (String.prefix "highway-" i)) (map id l).
Proof.
  induction l as [| s l IH]; [reflexivity |].
  cbn [List.filter map]. unfold isHighway at 1.
  destruct (p (String.prefix "highway-" (id s))); cbn [map]; rewrite IH; reflexivity.
Qed.

Lemma filter_prefix_stationIds (p : bool -> bool) (ns : list nat) :
  List.filter (fun i => p (String.prefix "highway-" i)) (map stationId ns)
  = if p false then map stationId ns else [].
Proof.
  induction ns as [| n ns IH]; [destruct (p false); reflexivity |].
  cbn [map List.filter]. unfold stationId at 1. rewrite prefix_station, IH.
  destruct (p false); reflexivity.
Qed.

Lemma filter_prefix_highwayIds (p : bool -> bool) (ns : list nat) :
  List.filter (fun i => p (String.prefix "highway-" i)) (map highwayId ns)
  = if p true then map highwayId ns else [].
Proof.
  induction ns as [| n ns IH]; [destruct (p true); reflexivity |].
  cbn [map List.filter]. unfold highwayId at 1. rewrite prefix_highway, IH.
  destruct (p true); reflexivity.
Qed.

(** X5.  The station list holds one station per unit of hub density and
    one per highway point; the test the network generator splits it with,
    [id.startsWith('highway-')], selects exactly the highway stations, and
    its negation exactly the city stations. *)
Theorem station_list_partition
    (Math_PI : Q) (Math_cos Math_sin : Q -> Q)
    (hubs : list CityHub) (hws : list (string * (Q * Q))) (st : Z) :
  let stations := fst (generateStationsFrom Math_PI Math_cos Math_sin hubs hws st) in
  length stations = (totalDensity hubs + length hws)%nat /\
  map id (List.filter isHighway stations) = map highwayId (seq 0 (length hws)) /\
  map id (List.filter (fun s => negb (isHighway s)) stations)
  = map stationId (seq 0 (totalDensity hubs)).
Proof.
  cbv zeta. split; [| split].
  - rewrite <- (length_map id), generateStationsFrom_ids.
    rewrite length_app, !length_map, !length_seq. reflexivity.
  - rewrite (filter_isHighway_ids (fun b => b)), generateStationsFrom_ids.
    rewrite List.filter_app.
    rewrite (filter_prefix_stationIds (fun b => b)), (filter_prefix_highwayIds (fun b => b)).
    reflexivity.
  - rewrite (filter_isHighway_ids negb), generateStationsFrom_ids.
    rewrite List.filter_app.
    rewrite (filter_prefix_stationIds negb), (filter_prefix_highwayIds negb).
    cbn [negb]. apply app_nil_r.
Qed.

Lemma state_after_add a b st :
  Prng.state_after (a + b) st = Prng.state_after b (Prng.state_after a st).
Proof.
  induction b as [| b IH]; [rewrite Nat.add_0_r; reflexivity |].
  rewrite Nat.add_succ_r. cbn [Prng.state_after]. rewrite IH. reflexivity.
Qed.

Lemma drawsOfStations_app l1 l2 :
  drawsOfStations (l1 ++ l2) = (drawsOfStations l1 + drawsOfStations l2)%nat.
Proof.
  induction l1 as [| s l1 IH]; [reflexivity |].
  cbn [app drawsOfStations foldr]. fold (drawsOfStations (l1 ++ l2)).
  fold (drawsOfStations l1). rewrite IH. lia.
Qed.

Lemma forEach_draws {T} (f : T -> Rand (list ChargingStation)) (xs : list T) :
  (forall x st, snd (f x st) = Prng.state_after (drawsOfStations (fst (f x st))) st) ->
  forall st,
    snd (forEach f xs st) = Prng.state_after (drawsOfStations (fst (forEach f xs st))) st.
Proof.
  intros Hf. induction xs as [| x xs IH]; intros st; [reflexivity |].
  rewrite forEach_cons, forEach_cons_snd, drawsOfStations_app, state_after_add.
  rewrite IH, <- Hf. reflexivity.
Qed.

Lemma drawsOfStations_bounds (l : list ChargingStation) :
  (6 * length l <= drawsOfStations l <= 8 * length l)%nat /\
  (Forall (fun s => isHighway s = true) l -> drawsOfStations l = (6 * length l)%nat) /\
  (Forall (fun s => isHighway s = false) l -> (7 * length l <= drawsOfStations l)%nat).
Proof.
  induction l as [| s l (IH1 & IH2 & IH3)]; [cbn; repeat split; intros; lia |].
  cbn [drawsOfStations foldr length]. fold (drawsOfStations l).
  split; [| split].
  - unfold drawsOfStation. destruct (isHighway s); [| destruct (type s)]; lia.
  - intros H. apply Forall_cons in H as [Hs Hl]. specialize (IH2 Hl).
    unfold drawsOfStation. rewrite Hs. lia.
  - intros H. apply Forall_cons in H as [Hs Hl]. specialize (IH3 Hl).
    unfold drawsOfStation. rewrite Hs. destruct (type s); lia.
Qed.

Section StationDraws.
Variable Math_PI : Q.
Variables Math_cos Math_sin : Q -> Q.

Lemma cityPass_draws hubs : forall stationId0 st,
  let run := cityPass Math_PI Math_cos Math_sin hubs stationId0 st in
  snd run = Prng.state_after (drawsOfStations (fst run)) st.
Proof.
  induction hubs as [| city rest IH]; intros start st; [reflexivity |].
  cbv zeta in *. cbn [cityPass].
  rewrite rbind_fst, rbind_snd, rbind_fst, rbind_snd. cbn [rret fst snd].
  rewrite drawsOfStations_app, state_after_add, IH. f_equal.
  unfold generateStationsAroundCity. apply forEach_draws.
  intros i st'. rewrite push_one_fst, push_one_snd.
  cbn [drawsOfStations foldr]. rewrite Nat.add_0_r. apply cityStation_draws.
Qed.

End StationDraws.

Lemma highwayPass_draws hws st :
  snd (highwayPass hws st)
  = Prng.state_after (drawsOfStations (fst (highwayPass hws st))) st.
Proof.
  unfold highwayPass. apply forEach_draws.
  intros ih st'. rewrite push_one_fst, push_one_snd.
  cbn [drawsOfStations foldr]. rewrite Nat.add_0_r. apply generateHighwayStation_draws.
Qed.

(** X6.  The generator state a run of the station generator leaves behind
    is the state after one draw sequence whose length is read off the
    stations built: six draws per highway station, seven per superfast city
    station and eight per other city station.  The run therefore consumes
    between [7 C + 6 H] and [8 C + 6 H] draws for [C] city and [H] highway
    stations. *)
Theorem station_generator_draws
    (Math_PI : Q) (Math_cos Math_sin : Q -> Q)
    (hubs : list CityHub) (hws : list (string * (Q * Q))) (st : Z) :
  let run := generateStationsFrom Math_PI Math_cos Math_sin hubs hws st in
  snd run = Prng.state_after (drawsOfStations (fst run)) st /\
  (7 * totalDensity hubs + 6 * length hws <= drawsOfStations (fst run))%nat /\
  (drawsOfStations (fst run) <= 8 * totalDensity hubs + 6 * length hws)%nat.
Proof.
  cbv zeta. unfold generateStationsFrom.
  rewrite !rbind_fst, !rbind_snd. cbn [rret fst snd].
  rewrite drawsOfStations_app.
  set (cs := cityPass Math_PI Math_cos Math_sin hubs 0 st).
  set (hs := highwayPass hws (snd cs)).
  assert (length (fst cs) = totalDensity hubs) as Hlc by apply cityPass_length.
  assert (length (fst hs) = length hws) as Hlh.
  { unfold hs. rewrite <- (length_map id), highwayPass_ids, length_map, length_seq.
    reflexivity. }
  assert (Forall (fun s => isHighway s = false) (fst cs)) as Hc.
  { apply cityPass_Forall. intros. apply cityStation_not_highway. }
  assert (Forall (fun s => isHighway s = true) (fst hs)) as Hh.
  { apply highwayPass_Forall. intros. apply generateHighwayStation_highway. }
  destruct (drawsOfStations_bounds (fst cs)) as (Hb1 & _ & Hb3).
  destruct (drawsOfStations_bounds (fst hs)) as (_ & Hb2 & _).
  specialize (Hb3 Hc). specialize (Hb2 Hh).
  split; [| lia].
  rewrite state_after_add. unfold hs. rewrite highwayPass_draws. f_equal.
  apply cityPass_draws.
Qed.

(** ** The demand edges: every edge follows its rule *)

Lemma In_take {A} (x : A) n (l : list A) : In x (take n l) -> In x l.
Proof.
  intros H. rewrite <- (take_drop n l). apply in_or_app. left. exact H.
Qed.

Lemma weight_range r base span :
  (0 <= r)%Q -> (r < 1)%Q -> 0 < span ->
  base <= base + Math_floor (r * inject_Z span) <= base + span - 1.
Proof.
  intros H0 H1 Hs. pose proof (floor_draw_range r span H0 H1 Hs). lia.
Qed.

Section EdgeRules.
Context {engine : ArraySort}.
Variable getDistance : Q * Q -> Q * Q -> Q.
Hypothesis sortPermutes : SortPermutes engine.

Lemma sortRandom_In {T} (l : list T) st x : In x (fst (sortRandom l st)) -> In x l.
Proof. apply Permutation_in, sortPermutes. Qed.

Lemma findNearbyStations_In station stations minKm maxKm st s :
  In s (fst (findNearbyStations getDistance station stations minKm maxKm st)) ->
  In s stations /\ inWindow getDistance station minKm maxKm s = true.
Proof.
  unfold findNearbyStations. intros H.
  apply sortRandom_In, filter_In in H. exact H.
Qed.

Variable stations : list ChargingStation.

Lemma highwayCorridor_rule station st :
  In station stations -> isHighway station = true ->
  Forall (edgeFollowsRule getDistance stations)
         (fst (highwayCorridor getDistance stations station st)).
Proof.
  intros Hin Hhw. unfold highwayCorridor. rewrite rbind_fst.
  apply forEach_Forall. intros target st' Ht.
  apply In_take, findNearbyStations_In in Ht as [Ht Hw].
  destruct (isHighway target) eqn:Etarget; [| constructor].
  rewrite rbind_fst. cbn [rret fst]. constructor; [| constructor].
  unfold edgeFollowsRule. cbn [from to tripType weight].
  split; [exact Hin |]. split; [exact Ht |]. left.
  repeat split; try assumption.
  all: pose proof (random_range st') as [H0 H1];
       pose proof (weight_range _ 3 4 H0 H1 ltac:(lia)) as Hwt;
       change (inject_Z 4) with 4%Q in Hwt; lia.
Qed.

Lemma cityToHighway_rule highwayStations station st :
  (forall h, In h highwayStations -> In h stations /\ isHighway h = true) ->
  In station stations -> isHighway station = false ->
  Forall (edgeFollowsRule getDistance stations)
         (fst (cityToHighway getDistance highwayStations station st)).
Proof.
  intros Hhws Hin Hcity. unfold cityToHighway. rewrite rbind_fst.
  destruct (Qgtb _ 0.3); [constructor |].
  rewrite rbind_fst.
  destruct (head _) as [nearbyHighway |] eqn:Ehead; [| constructor].
  cbn [rret fst]. constructor; [| constructor].
  apply head_Some_elem_of, list_elem_of_In, sortRandom_In, filter_In in Ehead
    as [Hh Hd].
  apply Qltb_lt in Hd. destruct (Hhws _ Hh) as [Hh1 Hh2].
  unfold edgeFollowsRule. cbn [from to tripType weight].
  split; [exact Hin |]. split; [exact Hh1 |]. right. tauto.
Qed.

Lemma localCommuter_rule station st :
  In station stations -> isHighway station = false ->
  Forall (edgeFollowsRule getDistance stations)
         (fst (localCommuter getDistance stations station st)).
Proof.
  intros Hin Hcity. unfold localCommuter. rewrite rbind_fst.
  apply forEach_Forall. intros target st' Ht.
  apply In_take, filter_In in Ht as [Ht Hnot].
  apply findNearbyStations_In in Ht as [Ht Hw].
  apply negb_true_iff in Hnot.
  rewrite rbind_fst. cbn [rret fst]. constructor; [| constructor].
  unfold edgeFollowsRule. cbn [from to tripType weight].
  split; [exact Hin |]. split; [exact Ht |].
  repeat split; try assumption.
  all: pose proof (random_range st') as [H0 H1];
       pose proof (weight_range _ 4 4 H0 H1 ltac:(lia)) as Hwt;
       change (inject_Z 4) with 4%Q in Hwt; lia.
Qed.

Lemma deliveryRoutes_rule hub st :
  In hub stations -> isHighway hub = false -> isSuperfast hub = true ->
  Forall (edgeFollowsRule getDistance stations)
         (fst (deliveryRoutes getDistance stations hub st)).
Proof.
  intros Hin Hcity Hsuper. unfold deliveryRoutes. rewrite rbind_fst.
  apply forEach_Forall. intros target st' Ht.
  apply In_take, findNearbyStations_In in Ht as [Ht Hw].
  rewrite rbind_fst. cbn [rret fst]. constructor; [| constructor].
  unfold edgeFollowsRule. cbn [from to tripType weight].
  split; [exact Hin |]. split; [exact Ht |].
  repeat split; try assumption.
  all: pose proof (random_range st') as [H0 H1];
       pose proof (weight_range _ 5 5 H0 H1 ltac:(lia)) as Hwt;
       change (inject_Z 5) with 5%Q in Hwt; lia.
Qed.

Lemma script_edges_follow_rules st :
  Forall (edgeFollowsRule getDistance stations)
         (fst (script_generateEVRouteNetwork getDistance stations st)).
Proof.
  unfold script_generateEVRouteNetwork.
  rewrite !rbind_fst. cbn [rret fst].
  repeat (apply Forall_app; split); apply forEach_Forall; intros s st' Hs.
  - apply filter_In in Hs as [Hs Hh]. apply highwayCorridor_rule; assumption.
  - apply filter_In in Hs as [Hs Hh]. apply negb_true_iff in Hh.
    apply cityToHighway_rule; try assumption.
    intros h Hin. apply filter_In in Hin. exact Hin.
  - apply filter_In in Hs as [Hs Hh]. apply negb_true_iff in Hh.
    apply localCommuter_rule; assumption.
  - apply filter_In in Hs as [Hs Hsuper]. apply filter_In in Hs as [Hs Hh].
    apply negb_true_iff in Hh. apply deliveryRoutes_rule; assumption.
Qed.

End EdgeRules.

(** X7.  On any engine whose sort returns a permutation of its input, every
    edge the script's network generator emits, for any station list and any
    generator state, joins two stations of the list and follows one of the
    four rules: highway corridor (both highway, 20 to 80 km, weight 3..6),
    city to highway (under 40 km, weight 2), commuter (both city, 3 to
    25 km, weight 4..7) or delivery (from a superfast city station, 2 to
    15 km, weight 5..9). *)
Theorem network_edges_follow_rules
    (engine : ArraySort) (getDistance : Q * Q -> Q * Q -> Q)
    (stations : list ChargingStation) (st : Z) :
  SortPermutes engine ->
  Forall (edgeFollowsRule getDistance stations)
         (fst (script_generateEVRouteNetwork getDistance stations st)).
Proof.
  intros Hperm. apply script_edges_follow_rules. exact Hperm.
Qed.

Lemma network_edges_follow_rules_witness :
  Forall (edgeFollowsRule meridianDistance sampleStations)
         (fst (script_generateEVRouteNetwork (engine := runInsertionEngine)
                 meridianDistance sampleStations 42)).
Proof.
  exact (network_edges_follow_rules runInsertionEngine meridianDistance sampleStations 42
           runInsertionEngine_permutes).
Defined.

Lemma inWindow_ids getDistance station minKm maxKm s :
  inWindow getDistance station minKm maxKm s = true -> id s <> id station.
Proof.
  unfold inWindow. destruct (String.eqb (id s) (id station)) eqn:E; [discriminate |].
  intros _. apply String.eqb_neq. exact E.
Qed.

Lemma isHighway_ids a b : isHighway a <> isHighway b -> id a <> id b.
Proof. unfold isHighway. intros H Heq. apply H. rewrite Heq. reflexivity. Qed.

Lemma rule_edge_sound getDistance stations r :
  edgeFollowsRule getDistance stations r ->
  id (to r) <> id (from r) /\ 2 <= weight r <= 9.
Proof.
  unfold edgeFollowsRule. intros (_ & _ & H).
  destruct (tripType r).
  - destruct H as (_ & _ & Hw & Hwt). split; [eapply inWindow_ids; exact Hw | lia].
  - destruct H as [(_ & _ & Hw & Hwt) | (Hf & Ht & _ & Hwt)].
    + split; [eapply inWindow_ids; exact Hw | lia].
    + split; [| lia]. apply isHighway_ids. rewrite Hf, Ht. discriminate.
  - destruct H as (_ & _ & Hw & Hwt). split; [eapply inWindow_ids; exact Hw | lia].
Qed.

(** X8.  The network the application builds at load time (tripData.ts) has
    no edge from a station to itself and no edge of weight below 2 or above
    9, so the trip expander's [LOOP_DURATION / numTrips] never divides by
    zero. *)
Theorem live_network_no_self_loop
    (engine : ArraySort) (getDistance : Q * Q -> Q * Q -> Q)
    (moduleStations : list ChargingStation) (st : Z) :
  SortPermutes engine ->
  Forall (fun r => id (to r) <> id (from r) /\ 2 <= weight r <= 9)
         (fst (live_generateEVRouteNetwork getDistance moduleStations st)).
Proof.
  intros Hperm. rewrite live_network_is_script_network.
  eapply Forall_impl; [apply script_edges_follow_rules; exact Hperm |].
  intros r Hr. cbv beta. eapply rule_edge_sound. exact Hr.
Qed.

Lemma live_network_no_self_loop_witness :
  Forall (fun r => id (to r) <> id (from r) /\ 2 <= weight r <= 9)
         (fst (live_generateEVRouteNetwork (engine := runInsertionEngine)
                 meridianDistance sampleStations 42)).
Proof.
  exact (live_network_no_self_loop runInsertionEngine meridianDistance sampleStations 42
           runInsertionEngine_permutes).
Defined.

(** ** The fifth group of rules *)

Section ExtraRules.
Context {engine : ArraySort}.
Variable getDistance : Q * Q -> Q * Q -> Q.
Hypothesis sortPermutes : SortPermutes engine.
Variable stations : list ChargingStation.

Lemma interCity_rule rotterdamStations amsStation st :
  (forall s, In s rotterdamStations ->
             In s stations /\ isHighway s = false /\ inCity "Rotterdam" s = true) ->
  In amsStation stations -> isHighway amsStation = false ->
  inCity "Amsterdam" amsStation = true ->
  Forall (edgeFollowsExtraRule getDistance stations)
         (fst (interCity rotterdamStations amsStation st)).
Proof.
  intros Hrot Hin Hcity Hams. unfold interCity.
  apply forEach_Forall. intros rotStation st' Ht.
  apply In_take, Hrot in Ht as (Ht & Hth & Htr).
  rewrite rbind_fst. destruct (Qgtb _ 0.6); [constructor |].
  rewrite rbind_fst. cbn [rret fst]. constructor; [| constructor].
  unfold edgeFollowsExtraRule. cbn [from to tripType weight].
  repeat split; try assumption.
  all: match goal with
       | |- context [Math_floor (fst (Prng.random ?s) * 3)] =>
           pose proof (random_range s) as [H0 H1];
           pose proof (weight_range _ 3 3 H0 H1 ltac:(lia)) as Hwt;
           change (inject_Z 3) with 3%Q in Hwt; lia
       end.
Qed.

Lemma internalCommuter_rule city cityGroup station st :
  city = "Amsterdam" \/ city = "Rotterdam" ->
  (forall s, In s cityGroup ->
             In s stations /\ isHighway s = false /\ inCity city s = true) ->
  In station cityGroup ->
  Forall (edgeFollowsExtraRule getDistance stations)
         (fst (internalCommuter cityGroup station st)).
Proof.
  intros Hname Hgroup Hin. unfold internalCommuter. rewrite rbind_fst.
  apply forEach_Forall. intros target st' Ht.
  apply In_take, (sortRandom_In sortPermutes), filter_In in Ht as [Ht Hne].
  apply negb_true_iff, String.eqb_neq in Hne.
  destruct (Hgroup _ Hin) as (Hs1 & Hs2 & Hs3).
  destruct (Hgroup _ Ht) as (Ht1 & Ht2 & Ht3).
  rewrite rbind_fst. cbn [rret fst]. constructor; [| constructor].
  unfold edgeFollowsExtraRule. cbn [from to tripType weight].
  split; [exact Hs1 |]. split; [exact Ht1 |]. split; [exact Hs2 |].
  split; [exact Hne |]. split; [exact Ht2 |].
  split; [exists city; tauto |].
  pose proof (random_range st') as [H0 H1].
  pose proof (weight_range _ 5 5 H0 H1 ltac:(lia)) as Hwt.
  change (inject_Z 5) with 5%Q in Hwt. lia.
Qed.

Lemma deliveryBoost_rule hub st :
  In hub stations -> isHighway hub = false -> isFastOrSuperfast hub = true ->
  inCity "Amsterdam" hub = true \/ inCity "Rotterdam" hub = true ->
  Forall (edgeFollowsExtraRule getDistance stations)
         (fst (deliveryBoost getDistance stations hub st)).
Proof.
  intros Hin Hcity Hfast Hname. unfold deliveryBoost. rewrite rbind_fst.
  apply forEach_Forall. intros target st' Ht.
  apply In_take, (findNearbyStations_In getDistance sortPermutes) in Ht as [Ht Hw].
  rewrite rbind_fst. cbn [rret fst]. constructor; [| constructor].
  unfold edgeFollowsExtraRule. cbn [from to tripType weight].
  split; [exact Hin |]. split; [exact Ht |]. split; [exact Hcity |].
  split; [exact Hfast |]. split; [exact Hname |]. split; [exact Hw |].
  pose proof (random_range st') as [H0 H1].
  pose proof (weight_range _ 6 6 H0 H1 ltac:(lia)) as Hwt.
  change (inject_Z 6) with 6%Q in Hwt. lia.
Qed.

Lemma extraRoutes_rule cityStations st :
  (forall s, In s cityStations -> In s stations /\ isHighway s = false) ->
  Forall (edgeFollowsExtraRule getDistance stations)
         (fst (extraRoutes getDistance stations cityStations st)).
Proof.
  intros Hcs. unfold extraRoutes.
  assert (forall city s,
             In s (List.filter (fun s => includes city (name s)) cityStations) ->
             In s stations /\ isHighway s = false /\ inCity city s = true) as Hgroup.
  { intros city s Hs. apply filter_In in Hs as [Hs Hc].
    destruct (Hcs _ Hs). tauto. }
  rewrite !rbind_fst. cbn [rret fst].
  repeat (apply Forall_app; split); apply forEach_Forall; intros s st' Hs.
  - apply In_take in Hs. destruct (Hgroup _ _ Hs) as (H1 & H2 & H3).
    apply interCity_rule; try assumption. apply Hgroup.
  - apply (internalCommuter_rule "Amsterdam"); [tauto | apply Hgroup | exact Hs].
  - apply (internalCommuter_rule "Rotterdam"); [tauto | apply Hgroup | exact Hs].
  - apply in_app_or in Hs as [Hs | Hs]; apply filter_In in Hs as [Hs Hf];
      destruct (Hgroup _ _ Hs) as (H1 & H2 & H3);
      apply deliveryBoost_rule; tauto.
Qed.

End ExtraRules.

(** X9.  The application variant that reads the precomputed table emits the
    script's edges first, in the same order and from the same draws, and
    then the edges of its fifth group of rules; on a permuting engine each
    of the latter starts at an Amsterdam or Rotterdam city station and is an
    Amsterdam to Rotterdam road trip (weight 3..5), a commuter edge inside
    one of the two cities with no distance window (weight 5..9), or a
    delivery edge from a fast or superfast station to a station 1 to 20 km
    away (weight 6..11). *)
Theorem precomputed_network_adds_extra_rules
    (engine : ArraySort) (getDistance : Q * Q -> Q * Q -> Q)
    (moduleStations : list ChargingStation) (st : Z) :
  SortPermutes engine ->
  let scriptRun := script_generateEVRouteNetwork getDistance moduleStations st in
  let extras :=
    fst (extraRoutes getDistance moduleStations
           (List.filter (fun s => negb (isHighway s)) moduleStations) (snd scriptRun)) in
  fst (precomputed_generateEVRouteNetwork getDistance moduleStations st)
  = fst scriptRun ++ extras /\
  Forall (edgeFollowsRule getDistance moduleStations) (fst scriptRun) /\
  Forall (edgeFollowsExtraRule getDistance moduleStations) extras.
Proof.
  intros Hperm. cbv zeta. split; [apply precomputed_network_extends |].
  split; [apply script_edges_follow_rules; exact Hperm |].
  apply extraRoutes_rule; [exact Hperm |].
  intros s Hs. apply filter_In in Hs as [Hs Hh]. apply negb_true_iff in Hh. tauto.
Qed.

Lemma precomputed_network_adds_extra_rules_witness :
  let scriptRun :=
    script_generateEVRouteNetwork (engine := runInsertionEngine)
      meridianDistance sampleStations 42 in
  let extras :=
    fst (extraRoutes (engine := runInsertionEngine) meridianDistance sampleStations
           (List.filter (fun s => negb (isHighway s)) sampleStations) (snd scriptRun)) in
  fst (precomputed_generateEVRouteNetwork (engine := runInsertionEngine)
         meridianDistance sampleStations 42)
  = fst scriptRun ++ extras /\
  Forall (edgeFollowsRule meridianDistance sampleStations) (fst scriptRun) /\
  Forall (edgeFollowsExtraRule meridianDistance sampleStations) extras.
Proof.
  exact (precomputed_network_adds_extra_rules runInsertionEngine meridianDistance
           sampleStations 42 runInsertionEngine_permutes).
Defined.

(** ** The size of the network *)

Lemma take_length_le {A} n (l : list A) : (length (take n l) <= n)%nat.
Proof. rewrite length_take. lia. Qed.

Section NetworkSize.
Context {engine : ArraySort}.
Variable getDistance : Q * Q -> Q * Q -> Q.

Lemma highwayCorridor_length stations station st :
  (length (fst (highwayCorridor getDistance stations station st)) <= 3)%nat.
Proof.
  unfold highwayCorridor. rewrite rbind_fst.
  etransitivity; [apply (forEach_length_le _ 1) |].
  - intros target st'. destruct (isHighway target); [rewrite rbind_fst |]; cbn; lia.
  - pose proof (take_length_le 3
      (fst (findNearbyStations getDistance station stations 20 80 st))). lia.
Qed.

Lemma cityToHighway_length highwayStations station st :
  (length (fst (cityToHighway getDistance highwayStations station st)) <= 1)%nat.
Proof.
  unfold cityToHighway. rewrite rbind_fst.
  destruct (Qgtb _ 0.3); [cbn; lia |].
  rewrite rbind_fst. destruct (head _); cbn; lia.
Qed.

Lemma localCommuter_length stations station st :
  (length (fst (localCommuter getDistance stations station st)) <= 2)%nat.
Proof.
  unfold localCommuter. rewrite rbind_fst.
  etransitivity; [apply (forEach_length_le _ 1) |].
  - intros target st'. rewrite rbind_fst. cbn. lia.
  - match goal with |- (1 * length (take 2 ?l) <= 2)%nat =>
      pose proof (take_length_le 2 l) end. lia.
Qed.

Lemma deliveryRoutes_length stations hub st :
  (length (fst (deliveryRoutes getDistance stations hub st)) <= 4)%nat.
Proof.
  unfold deliveryRoutes. rewrite rbind_fst.
  etransitivity; [apply (forEach_length_le _ 1) |].
  - intros target st'. rewrite rbind_fst. cbn. lia.
  - match goal with |- (1 * length (take 4 ?l) <= 4)%nat =>
      pose proof (take_length_le 4 l) end. lia.
Qed.

End NetworkSize.

Lemma filter_length_split {A} (p : A -> bool) (l : list A) :
  (length (List.filter p l) + length (List.filter (fun x => negb (p x)) l))%nat
  = length l.
Proof.
  induction l as [| x l IH]; [reflexivity |].
  cbn [List.filter]. destruct (p x); cbn [negb length]; lia.
Qed.

Lemma filter_length_le {A} (p : A -> bool) (l : list A) :
  (length (List.filter p l) <= length l)%nat.
Proof. pose proof (filter_length_split p l). lia. Qed.

(** X10.  Whatever the engine's sort does, the network has at most three
    edges per highway station, three per city station (one to a highway,
    two commuter) and four more per superfast city station; hence at most
    seven edges per station. *)
Theorem network_size_bound
    (engine : ArraySort) (getDistance : Q * Q -> Q * Q -> Q)
    (stations : list ChargingStation) (st : Z) :
  let highwayStations := List.filter isHighway stations in
  let cityStations := List.filter (fun s => negb (isHighway s)) stations in
  let deliveryHubs := List.filter isSuperfast cityStations in
  let edges := fst (script_generateEVRouteNetwork getDistance stations st) in
  (length edges <= 3 * length highwayStations + 3 * length cityStations
                   + 4 * length deliveryHubs)%nat /\
  (length edges <= 7 * length stations)%nat.
Proof.
  cbv zeta. unfold script_generateEVRouteNetwork.
  rewrite !rbind_fst. cbn [rret fst]. rewrite !length_app.
  set (hs := List.filter isHighway stations).
  set (cs := List.filter (fun s => negb (isHighway s)) stations).
  set (ds := List.filter isSuperfast cs).
  match goal with
  | |- context [(length (fst (forEach (highwayCorridor _ _) hs ?s1))
                 + (length (fst (forEach (cityToHighway _ _) cs ?s2))
                    + (length (fst (forEach (localCommuter _ _) cs ?s3))
                       + length (fst (forEach (deliveryRoutes _ _) ds ?s4)))))%nat] =>
      pose proof (forEach_length_le (highwayCorridor getDistance stations) 3 hs
                    (highwayCorridor_length getDistance stations) s1) as H1;
      pose proof (forEach_length_le (cityToHighway getDistance hs) 1 cs
                    (cityToHighway_length getDistance hs) s2) as H2;
      pose proof (forEach_length_le (localCommuter getDistance stations) 2 cs
                    (localCommuter_length getDistance stations) s3) as H3;
      pose proof (forEach_length_le (deliveryRoutes getDistance stations) 4 ds
                    (deliveryRoutes_length getDistance stations) s4) as H4
  end.
  pose proof (filter_length_split isHighway stations) as Hsplit.
  pose proof (filter_length_le isSuperfast cs) as Hds.
  fold hs cs in Hsplit. fold ds in Hds.
  split; lia.
Qed.

(** ** The pairs to fetch *)

Lemma NoDup_snoc {A} (l : list A) (x : A) : NoDup l -> ~ In x l -> NoDup (l ++ [x]).
Proof.
  intros Hl Hx. apply NoDup_app. split; [exact Hl |]. split.
  - intros y Hy Hy'. apply list_elem_of_In in Hy.
    apply list_elem_of_singleton in Hy'. subst y. contradiction.
  - apply NoDup_singleton.
Qed.

Lemma collectStep_pairs acc route :
  let acc' := collectStep acc route in
  (forall k, k ∈ snd acc <-> In k (map pair_key (fst acc))) ->
  NoDup (map pair_key (fst acc)) ->
  NoDup (map pair_key (fst acc')) /\
  exists new, fst acc' = fst acc ++ new /\ (length new <= 2)%nat /\
              Forall (pairOfEdges [route]) new.
Proof.
  cbv zeta. destruct acc as [routePairs seenKeys]. cbn [fst snd]. intros Hinv Hnd.
  assert (pairOfEdges [route]
            {| pair_from := from route; pair_to := to route;
               pair_key := getRouteKey (id (from route)) (id (to route)) |}) as Hfwd.
  { split; [reflexivity |]. exists route. split; [left; reflexivity |]. left. tauto. }
  assert (pairOfEdges [route]
            {| pair_from := to route; pair_to := from route;
               pair_key := getRouteKey (id (to route)) (id (from route)) |}) as Hrev.
  { split; [reflexivity |]. exists route. split; [left; reflexivity |]. right. tauto. }
  unfold collectStep.
  set (key := getRouteKey (id (from route)) (id (to route))) in *.
  set (reverseKey := getRouteKey (id (to route)) (id (from route))) in *.
  destruct (decide (key ∈ seenKeys)) as [Hk | Hk].
  - destruct (decide (reverseKey ∈ seenKeys)) as [Hr | Hr]; cbn [fst snd].
    + split; [exact Hnd |]. exists []. rewrite app_nil_r.
      split; [reflexivity |]. split; [cbn; lia | constructor].
    + split.
      * rewrite map_app. apply NoDup_snoc; [exact Hnd |]. rewrite <- Hinv. exact Hr.
      * eexists. split; [reflexivity |]. split; [cbn; lia |].
        constructor; [exact Hrev | constructor].
  - assert (~ In key (map pair_key routePairs)) as Hk' by (rewrite <- Hinv; exact Hk).
    destruct (decide (reverseKey ∈ {[key]} ∪ seenKeys)) as [Hr | Hr]; cbn [fst snd].
    + split.
      * rewrite map_app. apply NoDup_snoc; assumption.
      * eexists. split; [reflexivity |]. split; [cbn; lia |].
        constructor; [exact Hfwd | constructor].
    + split.
      * rewrite map_app. apply NoDup_snoc.
        { rewrite map_app. apply NoDup_snoc; assumption. }
        rewrite map_app, in_app_iff. cbn [map pair_key In].
        rewrite elem_of_union, elem_of_singleton in Hr.
        rewrite <- Hinv. intuition congruence.
      * exists [ {| pair_from := from route; pair_to := to route; pair_key := key |};
                 {| pair_from := to route; pair_to := from route; pair_key := reverseKey |} ].
        split; [rewrite <- app_assoc; reflexivity |]. split; [cbn; lia |].
        constructor; [exact Hfwd | constructor; [exact Hrev | constructor]].
Qed.

Lemma pairOfEdges_mono l1 l2 p :
  (forall r, In r l1 -> In r l2) -> pairOfEdges l1 p -> pairOfEdges l2 p.
Proof.
  intros Hsub (Hk & r & Hr & H). split; [exact Hk |]. exists r. auto.
Qed.

Lemma collect_fold_pairs evRoutes : forall acc,
  (forall k, k ∈ snd acc <-> In k (map pair_key (fst acc))) ->
  NoDup (map pair_key (fst acc)) ->
  let acc' := fold_left collectStep evRoutes acc in
  NoDup (map pair_key (fst acc')) /\
  exists new, fst acc' = fst acc ++ new /\
              (length new <= 2 * length evRoutes)%nat /\
              Forall (pairOfEdges evRoutes) new.
Proof.
  induction evRoutes as [| route rest IH]; intros acc Hinv Hnd; cbv zeta.
  - cbn [fold_left]. split; [exact Hnd |]. exists []. rewrite app_nil_r.
    split; [reflexivity |]. split; [cbn; lia | constructor].
  - cbn [fold_left].
    destruct (collectStep_spec acc route Hinv) as (Hinv1 & _ & _).
    destruct (collectStep_pairs acc route Hinv Hnd) as (Hnd1 & new1 & E1 & Hlen1 & Hall1).
    destruct (IH (collectStep acc route) Hinv1 Hnd1) as (Hnd2 & new2 & E2 & Hlen2 & Hall2).
    split; [exact Hnd2 |].
    exists (new1 ++ new2). split; [rewrite E2, E1, app_assoc; reflexivity |].
    split; [rewrite length_app; cbn [length]; lia |].
    apply Forall_app. split.
    + eapply Forall_impl; [exact Hall1 |]. intros p. apply pairOfEdges_mono.
      intros r [<- | []]. left. reflexivity.
    + eapply Forall_impl; [exact Hall2 |]. intros p. apply pairOfEdges_mono.
      intros r Hr. right. exact Hr.
Qed.

Lemma collectRoutePairs_NoDup evRoutes :
  NoDup (map pair_key (collectRoutePairs evRoutes)).
Proof.
  destruct (collect_fold_pairs evRoutes ([], ∅)) as (Hnd & _).
  - intros k. cbn. set_solver.
  - constructor.
  - exact Hnd.
Qed.

(** X11.  The pairs the script collects from a list of demand edges have
    pairwise distinct keys; each pair is an edge of the list or its
    reverse, keyed by the ids of its own two stations; there are at most
    two pairs per edge; and the two keys of every edge are among them. *)
Theorem route_pairs_unique_and_complete (evRoutes : list EVRoute) :
  let routePairs := collectRoutePairs evRoutes in
  NoDup (map pair_key routePairs) /\
  Forall (pairOfEdges evRoutes) routePairs /\
  (length routePairs <= 2 * length evRoutes)%nat /\
  Forall (fun route => Forall (fun k => In k (map pair_key routePairs))
                              (lookupKeys route))
         evRoutes.
Proof.
  cbv zeta.
  destruct (collect_fold_pairs evRoutes ([], ∅)) as (Hnd & new & E & Hlen & Hall).
  { intros k. cbn. set_solver. }
  { constructor. }
  unfold collectRoutePairs. cbn [fst app] in E. rewrite E.
  split; [rewrite <- E; exact Hnd |]. split; [exact Hall |]. split; [exact Hlen |].
  rewrite <- E. apply collectRoutePairs_covers.
Qed.

(** ** The persisted table *)

Lemma persist_fold_other fetched routePairs :
  forall (table : gmap string RouteGeometry) (k : string),
  ~ In k (map pair_key routePairs) ->
  fold_left (persistStep fetched) routePairs table !! k = table !! k.
Proof.
  induction routePairs as [| p rest IH]; intros table k Hk; [reflexivity |].
  cbn [fold_left]. rewrite IH by (intros H; apply Hk; right; exact H).
  unfold persistStep. destruct (fetched _ _); [| reflexivity].
  apply lookup_insert_ne. intros Heq. apply Hk. left. exact Heq.
Qed.

Lemma persist_fold_lookup fetched routePairs :
  forall (table : gmap string RouteGeometry),
  NoDup (map pair_key routePairs) ->
  (forall k, In k (map pair_key routePairs) -> table !! k = None) ->
  Forall (fun p => fold_left (persistStep fetched) routePairs table !! pair_key p
                   = fetched (coordinates (pair_from p)) (coordinates (pair_to p)))
         routePairs.
Proof.
  induction routePairs as [| p rest IH]; intros table Hnd Hfresh; [constructor |].
  cbn [map] in Hnd. apply NoDup_cons in Hnd as [Hp Hnd].
  rewrite list_elem_of_In in Hp.
  cbn [fold_left]. constructor.
  - rewrite persist_fold_other by exact Hp.
    unfold persistStep. destruct (fetched _ _) as [route |].
    + apply lookup_insert_eq.
    + apply Hfresh. left. reflexivity.
  - apply IH; [exact Hnd |].
    intros k Hk. unfold persistStep. destruct (fetched _ _).
    + rewrite lookup_insert_ne by (intros <-; contradiction).
      apply Hfresh. right. exact Hk.
    + apply Hfresh. right. exact Hk.
Qed.

(** X12.  In the table the script persists, the key of every collected pair
    holds exactly what the fetch of that pair returned (its route, or no
    entry when the fetch gave [null]), whatever happened to the pairs
    fetched after it; and no other key has an entry. *)
Theorem persisted_table_reflects_fetches
    (fetched : Q * Q -> Q * Q -> option RouteGeometry) (evRoutes : list EVRoute) :
  let routePairs := collectRoutePairs evRoutes in
  let table := persistRoutes fetched routePairs in
  Forall (fun p => table !! pair_key p
                   = fetched (coordinates (pair_from p)) (coordinates (pair_to p)))
         routePairs /\
  forall k, table !! k <> None -> In k (map pair_key routePairs).
Proof.
  cbv zeta. split.
  - apply persist_fold_lookup; [apply collectRoutePairs_NoDup |].
    intros k _. apply lookup_empty.
  - intros k Hk. destruct (persist_fold_keys fetched _ ∅ k Hk) as [H | H]; [| exact H].
    rewrite lookup_empty in H. congruence.
Qed.

(** ** The batches of the fetch loop *)

Lemma batchCallback_fold fetched batch : forall acc,
  let acc' := fold_left (batchCallback fetched) batch acc in
  routeGeometries acc' = fold_left (persistStep fetched) batch (routeGeometries acc) /\
  (fetchedCount acc' + failedCount acc'
   = fetchedCount acc + failedCount acc + length batch)%nat /\
  fetchedCount acc'
  = (fetchedCount acc
     + length (List.filter
                 (fun p => bool_decide
                             (is_Some (fetched (coordinates (pair_from p))
                                               (coordinates (pair_to p)))))
                 batch))%nat /\
  batchSleeps acc' = batchSleeps acc.
Proof.
  induction batch as [| p rest IH]; intros acc; cbv zeta.
  - cbn. repeat split; lia.
  - cbn [fold_left List.filter length].
    destruct (IH (batchCallback fetched acc p)) as (H1 & H2 & H3 & H4).
    rewrite H1, H2, H3, H4. unfold batchCallback, persistStep.
    destruct (fetched _ _) as [route |]; cbn; repeat split; lia.
Qed.

Lemma fetchLoop_spec fetched routePairs : forall fuel i acc,
  (length routePairs - i <= fuel)%nat ->
  let acc' := fetchLoop fuel fetched routePairs i acc in
  routeGeometries acc'
  = fold_left (persistStep fetched) (drop i routePairs) (routeGeometries acc) /\
  (fetchedCount acc' + failedCount acc'
   = fetchedCount acc + failedCount acc + (length routePairs - i))%nat /\
  fetchedCount acc'
  = (fetchedCount acc
     + length (List.filter
                 (fun p => bool_decide
                             (is_Some (fetched (coordinates (pair_from p))
                                               (coordinates (pair_to p)))))
                 (drop i routePairs)))%nat /\
  batchSleeps acc'
  = batchSleeps acc ++ repeat delayBetweenBatches ((length routePairs - i + 1) / 2 - 1).
Proof.
  induction fuel as [| fuel IH]; intros i acc Hfuel; cbv zeta.
  - cbn [fetchLoop]. rewrite drop_ge by lia.
    replace (length routePairs - i)%nat with 0%nat by lia.
    cbn. rewrite app_nil_r. repeat split; lia.
  - cbn [fetchLoop]. destruct (Nat.ltb_spec i (length routePairs)) as [Hi | Hi].
    + set (batch := take batchSize (drop i routePairs)).
      destruct (batchCallback_fold fetched batch acc) as (B1 & B2 & B3 & B4).
      set (acc1 := fold_left (batchCallback fetched) batch acc) in *.
      assert (drop i routePairs = batch ++ drop (i + batchSize) routePairs) as Hsplit.
      { unfold batch. rewrite <- drop_drop. symmetry. apply take_drop. }
      assert (length batch = Nat.min batchSize (length routePairs - i)) as Hlen.
      { unfold batch. rewrite length_take, length_drop. reflexivity. }
      unfold batchSize in *.
      destruct (Nat.ltb_spec (i + 2) (length routePairs)) as [Hmore | Hlast].
      * match goal with |- context [fetchLoop fuel fetched routePairs (i + 2) ?a] =>
          destruct (IH (i + 2)%nat a ltac:(lia)) as (L1 & L2 & L3 & L4)
        end.
        cbn [routeGeometries fetchedCount failedCount batchSleeps] in *.
        rewrite L1, L2, L3, L4, B1, B2, B3, B4, Hsplit.
        rewrite fold_left_app, List.filter_app, length_app.
        split; [reflexivity |]. split; [lia |]. split; [lia |].
        rewrite <- app_assoc. f_equal.
        replace ((length routePairs - i + 1) / 2 - 1)%nat
          with (S ((length routePairs - (i + 2) + 1) / 2 - 1)).
        { reflexivity. }
        assert (length routePairs - i + 1
                = 1 * 2 + (length routePairs - (i + 2) + 1))%nat as -> by lia.
        rewrite Nat.div_add_l by lia.
        assert (1 <= (length routePairs - (i + 2) + 1) / 2)%nat.
        { apply Nat.div_le_lower_bound; lia. }
        lia.
      * destruct (IH (i + 2)%nat acc1 ltac:(lia)) as (L1 & L2 & L3 & L4).
        rewrite L1, L2, L3, L4, B1, B2, B3, B4, Hsplit.
        rewrite fold_left_app, List.filter_app, length_app.
        split; [reflexivity |]. split; [lia |]. split; [lia |].
        f_equal.
        replace (length routePairs - (i + 2) + 1)%nat with 1%nat by lia.
        assert ((length routePairs - i + 1) / 2 = 1)%nat as ->.
        { assert (length routePairs - i = 1 \/ length routePairs - i = 2)%nat
            as [-> | ->] by lia; reflexivity. }
        reflexivity.
    + rewrite drop_ge by lia.
      replace (length routePairs - i)%nat with 0%nat by lia.
      cbn. rewrite app_nil_r. repeat split; lia.
Qed.

Lemma batchCallback_swap fetched acc p q :
  pair_key p <> pair_key q ->
  batchCallback fetched (batchCallback fetched acc p) q
  = batchCallback fetched (batchCallback fetched acc q) p.
Proof.
  intros Hne. unfold batchCallback.
  destruct (fetched (coordinates (pair_from p)) (coordinates (pair_to p))) as [rp |];
    destruct (fetched (coordinates (pair_from q)) (coordinates (pair_to q))) as [rq |];
    cbn [routeGeometries fetchedCount failedCount batchSleeps]; try reflexivity.
  f_equal. apply insert_insert_ne. intros Heq. apply Hne. symmetry. exact Heq.
Qed.

Lemma batch_order_irrelevant fetched batch batch' :
  Permutation batch batch' ->
  NoDup (map pair_key batch) ->
  forall acc,
    fold_left (batchCallback fetched) batch' acc
    = fold_left (batchCallback fetched) batch acc.
Proof.
  induction 1 as [| x l l' Hperm IH | x y l | l l' l'' H1 IH1 H2 IH2];
    intros Hnd acc.
  - reflexivity.
  - cbn [map] in Hnd. apply NoDup_cons in Hnd as [_ Hnd].
    cbn [fold_left]. apply IH. exact Hnd.
  - cbn [map] in Hnd. apply NoDup_cons in Hnd as [Hy _].
    cbn [fold_left]. rewrite batchCallback_swap; [reflexivity |].
    intros Heq. apply Hy. rewrite Heq. left.
  - assert (map pair_key l ≡ₚ map pair_key l') as Hkeys
      by (apply Permutation_map; exact H1).
    rewrite IH2, IH1; [reflexivity | exact Hnd |].
    rewrite <- Hkeys. exact Hnd.
Qed.

(** X13.  The batched fetch loop of the script terminates within
    [routePairs.length] iterations having handled every pair: its table is
    the one obtained by taking the pairs one by one, [fetched + failed]
    equals the number of pairs, [fetched] counts the pairs whose fetch
    returned a route, and it sleeps 500 ms once between consecutive batches
    of two, never after the last batch.  The order in which the concurrent
    fetches of a batch settle does not matter when the keys of the batch
    differ, as the keys of collected pairs do. *)
Theorem fetch_loop_handles_every_pair
    (fetched : Q * Q -> Q * Q -> option RouteGeometry) (routePairs : list RoutePair) :
  let done := fetchAllPairs fetched routePairs in
  routeGeometries done = persistRoutes fetched routePairs /\
  (fetchedCount done + failedCount done = length routePairs)%nat /\
  fetchedCount done
  = length (List.filter
              (fun p => bool_decide
                          (is_Some (fetched (coordinates (pair_from p))
                                            (coordinates (pair_to p)))))
              routePairs) /\
  batchSleeps done = repeat delayBetweenBatches ((length routePairs + 1) / 2 - 1) /\
  (forall extra : nat,
      fetchLoop (length routePairs + extra) fetched routePairs 0
        {| routeGeometries := ∅; fetchedCount := 0; failedCount := 0; batchSleeps := [] |}
      = done) /\
  (forall batch settled acc,
      Permutation batch settled -> NoDup (map pair_key batch) ->
      fold_left (batchCallback fetched) settled acc
      = fold_left (batchCallback fetched) batch acc).
Proof.
  cbv zeta. unfold fetchAllPairs.
  set (init := {| routeGeometries := ∅; fetchedCount := 0; failedCount := 0;
                  batchSleeps := [] |}).
  destruct (fetchLoop_spec fetched routePairs (length routePairs) 0 init ltac:(lia))
    as (L1 & L2 & L3 & L4).
  rewrite Nat.sub_0_r in *. cbn [drop] in *.
  split; [exact L1 |]. split; [exact L2 |]. split; [exact L3 |]. split; [exact L4 |].
  split; [| intros batch settled acc Hperm Hnd; apply batch_order_irrelevant; assumption].
  intros extra.
  destruct (fetchLoop_spec fetched routePairs (length routePairs + extra) 0 init
              ltac:(lia)) as (M1 & M2 & M3 & M4).
  rewrite Nat.sub_0_r in *. cbn [drop] in *.
  destruct (fetchLoop (length routePairs + extra) fetched routePairs 0 init)
    as [g1 a1 b1 s1].
  destruct (fetchLoop (length routePairs) fetched routePairs 0 init) as [g2 a2 b2 s2].
  cbn [routeGeometries fetchedCount failedCount batchSleeps] in *.
  subst. f_equal. lia.
Qed.

(** ** Route keys *)

Lemma pretty_N_go_noDash (x : N) : forall s,
  noDash s = true -> noDash (pretty_N_go x s) = true.
Proof.
  induction (N.lt_wf_0 x) as [x _ IH]. intros s Hs.
  destruct (decide (x = 0)%N) as [-> | Hx].
  - rewrite pretty_N_go_0. exact Hs.
  - rewrite pretty_N_go_step by lia. apply IH.
    + apply N.div_lt; lia.
    + cbn [noDash]. rewrite Hs, andb_true_r.
      unfold pretty_N_char. repeat case_match; reflexivity.
Qed.

Lemma pretty_nat_noDash (n : nat) : noDash (pretty n) = true.
Proof.
  unfold pretty, pretty_nat, pretty, pretty_N.
  destruct (decide (N.of_nat n = 0%N)); [reflexivity |].
  apply pretty_N_go_noDash. reflexivity.
Qed.

(** Two strings cut at their first [-] agree part by part. *)
Lemma split_at_dash s1 : forall s2 t1 t2,
  noDash s1 = true -> noDash s2 = true ->
  s1 +:+ "-" +:+ t1 = s2 +:+ "-" +:+ t2 -> s1 = s2 /\ t1 = t2.
Proof.
  induction s1 as [| c1 s1 IH]; intros [| c2 s2] t1 t2 H1 H2 Heq; simpl in *.
  - injection Heq as Heq. tauto.
  - injection Heq as Hc _. subst c2. simpl in H2. discriminate.
  - injection Heq as Hc _. subst c1. simpl in H1. discriminate.
  - injection Heq as Hc Heq. subst c2.
    apply andb_true_iff in H1 as [_ H1]. apply andb_true_iff in H2 as [_ H2].
    destruct (IH s2 t1 t2 H1 H2 Heq) as [-> ->]. tauto.
Qed.

Lemma generated_id_shape a :
  isGeneratedId a ->
  exists (p : string) (n : nat), (p = "station-" \/ p = "highway-") /\ a = p +:+ pretty n.
Proof.
  intros [n [-> | ->]]; [exists "station-", n | exists "highway-", n]; tauto.
Qed.

(** X14.  [getRouteKey] joins two ids with a [-], which the ids themselves
    contain.  On ids of the form the station generator produces the key
    still determines both ids, so the keys of two different station pairs
    differ and the key of a pair differs from the key of its reverse; on
    arbitrary strings two different pairs can share a key. *)
Theorem route_key_determines_generated_ids (a b c d : string) :
  isGeneratedId a -> isGeneratedId c ->
  getRouteKey a b = getRouteKey c d ->
  a = c /\ b = d.
Proof.
  intros Ha Hc Heq.
  apply generated_id_shape in Ha as (p & n & Hp & ->).
  apply generated_id_shape in Hc as (q & m & Hq & ->).
  unfold getRouteKey in Heq.
  assert (p = q /\ pretty n +:+ "-" +:+ b = pretty m +:+ "-" +:+ d) as [-> Hrest].
  { destruct Hp as [-> | ->], Hq as [-> | ->]; cbn in Heq;
      try discriminate; injection Heq as Heq; tauto. }
  apply split_at_dash in Hrest as [-> ->]; auto using pretty_nat_noDash.
Qed.

Lemma route_key_determines_generated_ids_witness :
  stationId 12 = stationId 12 /\ highwayId 3 = highwayId 3.
Proof.
  apply (route_key_determines_generated_ids
           (stationId 12) (highwayId 3) (stationId 12) (highwayId 3)).
  - exists 12%nat. left. reflexivity.
  - exists 12%nat. left. reflexivity.
  - reflexivity.
Defined.

Lemma string_app_assoc (a b c : string) : (a +:+ b) +:+ c = a +:+ (b +:+ c).
Proof.
  induction a as [| ch a IH]; [reflexivity |].
  change (String ch ((a +:+ b) +:+ c) = String ch (a +:+ (b +:+ c))).
  rewrite IH. reflexivity.
Qed.

Lemma string_length_app (a b : string) :
  String.length (a +:+ b) = (String.length a + String.length b)%nat.
Proof.
  induction a as [| ch a IH]; [reflexivity |].
  change (S (String.length (a +:+ b)) = S (String.length a + String.length b)).
  rewrite IH. reflexivity.
Qed.

(** X15.  On arbitrary strings the key is ambiguous: for all [a], [b] and
    [c] the pair [(a-b, c)] and the different pair [(a, b-c)] have the same
    key. *)
Theorem route_key_ambiguous_on_dashed_ids (a b c : string) :
  getRouteKey (a +:+ "-" +:+ b) c = getRouteKey a (b +:+ "-" +:+ c) /\
  a +:+ "-" +:+ b <> a.
Proof.
  split.
  - unfold getRouteKey. rewrite string_app_assoc. reflexivity.
  - intros H. apply (f_equal String.length) in H.
    rewrite !string_length_app in H. cbn in H. lia.
Qed.

(** ** The trip expander: what every trip is built from *)

Lemma numberedFrom_nil P n : numberedFrom P n [].
Proof. intros k t H. rewrite lookup_nil in H. discriminate. Qed.

Lemma numberedFrom_one (P : nat -> TripData -> Prop) n t : P n t -> numberedFrom P n [t].
Proof.
  intros H k t' Hk. destruct k as [| k]; cbn in Hk.
  - injection Hk as <-. rewrite Nat.add_0_r. exact H.
  - try rewrite lookup_nil in Hk. discriminate.
Qed.

Lemma numberedFrom_app P n l1 l2 :
  numberedFrom P n l1 -> numberedFrom P (n + length l1) l2 ->
  numberedFrom P n (l1 ++ l2).
Proof.
  intros H1 H2 k t Hk. apply lookup_app_Some in Hk as [Hk | [Hlen Hk]].
  - apply H1. exact Hk.
  - apply H2 in Hk. replace (n + k)%nat with (n + length l1 + (k - length l1))%nat by lia.
    exact Hk.
Qed.

Lemma numberedFrom_impl (P Q : nat -> TripData -> Prop) n l :
  (forall k t, P k t -> Q k t) -> numberedFrom P n l -> numberedFrom Q n l.
Proof. intros HPQ H k t Hk. apply HPQ, H, Hk. Qed.

Section TripStructure.
Variable table : gmap string RouteGeometry.

Lemma forwardTrip_built evRoute startTime ev tripId st :
  In ev (eligibleEVsFor evRoute) ->
  (0 <= startTime)%Q -> (startTime < LOOP_DURATION)%Q ->
  let res := fst (forwardTrip
                    (table !! getRouteKey (id (from evRoute)) (id (to evRoute)))
                    startTime ev tripId evRoute st) in
  snd res = (tripId + length (fst res))%nat /\
  numberedFrom (builtFor table evRoute) tripId (fst res) /\
  (length (fst res) <= 1)%nat.
Proof.
  intros Hev Hs0 Hs1. cbv zeta. unfold forwardTrip.
  destruct (table !! _) as [route |] eqn:Ek.
  - rewrite rbind_fst. cbn [rret fst snd length]. split; [lia |]. split; [| lia].
    apply numberedFrom_one.
    exists evRoute, route, startTime, ev, st. tauto.
  - cbn. split; [lia |]. split; [apply numberedFrom_nil | lia].
Qed.

Lemma returnTrip_built evRoute startTime tripId st :
  (0 <= startTime)%Q ->
  let res := fst (returnTrip
                    (table !! getRouteKey (id (to evRoute)) (id (from evRoute)))
                    startTime (eligibleEVsFor evRoute) tripId evRoute st) in
  snd res = (tripId + length (fst res))%nat /\
  numberedFrom (builtFor table evRoute) tripId (fst res) /\
  (length (fst res) <= 1)%nat.
Proof.
  intros Hs0. cbv zeta. unfold returnTrip. rewrite rbind_fst.
  destruct (table !! _) as [route |] eqn:Ek;
    [| cbn; split; [lia |]; split; [apply numberedFrom_nil | lia]].
  destruct (Qgtb _ 0.3); [| cbn; split; [lia |]; split; [apply numberedFrom_nil | lia]].
  rewrite !rbind_fst. cbn [rret fst snd length]. split; [lia |]. split; [| lia].
  apply numberedFrom_one.
  match goal with
  | |- context [generateEVTripFromRoute route ?s ?e tripId _ ?st'] =>
      exists (reverseEdge evRoute), route, s, e, st'
  end.
  split; [right; reflexivity |]. split; [exact Ek |].
  split; [apply drawEV_in_range |].
  split; [| split; [| reflexivity]];
    apply returnStart_range; solve [exact Hs0 | apply random_range].
Qed.

Lemma tripIteration_built evRoute i tripId st :
  0 <= i < weight evRoute ->
  let res := fst (tripIteration table evRoute i tripId st) in
  snd res = (tripId + length (fst res))%nat /\
  numberedFrom (builtFor table evRoute) tripId (fst res) /\
  (length (fst res) <= 2)%nat.
Proof.
  intros Hi. cbv zeta. unfold tripIteration.
  rewrite !rbind_fst. cbn [rret fst snd].
  destruct (startTime_range i (weight evRoute) (fst (Prng.random st)) Hi
              (proj1 (random_range st))) as [Hs0 Hs1].
  match goal with
  | |- context [forwardTrip _ ?s ?e tripId evRoute ?st'] =>
      destruct (forwardTrip_built evRoute s e tripId st'
                  ltac:(apply drawEV_in_range) Hs0 Hs1) as (Ha1 & Ha2 & Ha3);
      set (a := forwardTrip
                  (table !! getRouteKey (id (from evRoute)) (id (to evRoute)))
                  s e tripId evRoute st') in *
  end.
  match goal with
  | |- context [returnTrip _ ?s _ (snd (fst a)) evRoute ?st'] =>
      destruct (returnTrip_built evRoute s (snd (fst a)) st' Hs0) as (Hb1 & Hb2 & Hb3);
      set (b := returnTrip
                  (table !! getRouteKey (id (to evRoute)) (id (from evRoute)))
                  s (eligibleEVsFor evRoute) (snd (fst a)) evRoute st') in *
  end.
  rewrite length_app. split; [lia |]. split; [| lia].
  apply numberedFrom_app; [exact Ha2 |]. rewrite <- Ha1. exact Hb2.
Qed.

Lemma tripLoop_built evRoute indices : forall tripId st,
  Forall (fun i => 0 <= i < weight evRoute) indices ->
  let res := fst (tripLoop table evRoute indices tripId st) in
  snd res = (tripId + length (fst res))%nat /\
  numberedFrom (builtFor table evRoute) tripId (fst res) /\
  (length (fst res) <= 2 * length indices)%nat.
Proof.
  induction indices as [| i rest IH]; intros tripId st Hall; cbv zeta.
  - cbn. split; [lia |]. split; [apply numberedFrom_nil | lia].
  - apply Forall_cons in Hall as [Hi Hrest].
    cbn [tripLoop]. rewrite !rbind_fst. cbn [rret fst snd].
    destruct (tripIteration_built evRoute i tripId st Hi) as (Ha1 & Ha2 & Ha3).
    set (a := tripIteration table evRoute i tripId st) in *.
    destruct (IH (snd (fst a)) (snd a) Hrest) as (Hb1 & Hb2 & Hb3).
    set (b := tripLoop table evRoute rest (snd (fst a)) (snd a)) in *.
    rewrite length_app. cbn [length]. split; [lia |]. split; [| lia].
    apply numberedFrom_app; [exact Ha2 |]. rewrite <- Ha1. exact Hb2.
Qed.

Lemma routesLoop_built evRoutes : forall tripId st,
  let res := fst (routesLoop table evRoutes tripId st) in
  snd res = (tripId + length (fst res))%nat /\
  numberedFrom (fun n t => exists evRoute, In evRoute evRoutes /\
                                           builtFor table evRoute n t)
               tripId (fst res) /\
  (length (fst res) <= 2 * totalWeight evRoutes)%nat.
Proof.
  induction evRoutes as [| evRoute rest IH]; intros tripId st; cbv zeta.
  - cbn. split; [lia |]. split; [apply numberedFrom_nil | lia].
  - cbn [routesLoop]. rewrite !rbind_fst. cbn [rret fst snd].
    assert (Hidx : Forall (fun i => 0 <= i < weight evRoute) (seqZ 0 (weight evRoute))).
    { apply Forall_forall. intros i Hi. apply elem_of_seqZ in Hi. lia. }
    destruct (tripLoop_built evRoute (seqZ 0 (weight evRoute)) tripId st Hidx)
      as (Ha1 & Ha2 & Ha3).
    rewrite length_seqZ in Ha3.
    set (a := tripLoop table evRoute (seqZ 0 (weight evRoute)) tripId st) in *.
    destruct (IH (snd (fst a)) (snd a)) as (Hb1 & Hb2 & Hb3).
    set (b := routesLoop table rest (snd (fst a)) (snd a)) in *.
    rewrite length_app. cbn [totalWeight foldr]. fold (totalWeight rest).
    split; [lia |]. split; [| lia].
    apply numberedFrom_app.
    + eapply numberedFrom_impl; [| exact Ha2].
      intros k t Hk. exists evRoute. split; [left; reflexivity | exact Hk].
    + rewrite <- Ha1. eapply numberedFrom_impl; [| exact Hb2].
      intros k t (r & Hr & Hk). exists r. split; [right; exact Hr | exact Hk].
Qed.

Lemma generateTripData_built evRoutes :
  let trips := generateTripData table evRoutes in
  numberedFrom (fun n t => exists evRoute, In evRoute evRoutes /\
                                           builtFor table evRoute n t)
               0 trips /\
  (length trips <= 2 * totalWeight evRoutes)%nat.
Proof.
  cbv zeta. unfold generateTripData.
  destruct (routesLoop_built evRoutes 0 (Prng.seededRandom 42)) as (_ & H2 & H3).
  split; assumption.
Qed.

End TripStructure.

Lemma numberedFrom_Forall (P : nat -> TripData -> Prop) n l :
  numberedFrom P n l -> Forall (fun t => exists k, P k t) l.
Proof.
  intros H. apply Forall_forall. intros t Ht.
  apply list_elem_of_lookup_1 in Ht as [k Hk]. exists (n + k)%nat. apply H, Hk.
Qed.

Lemma built_trip_fields route startTime ev n edge st :
  let t := fst (generateEVTripFromRoute route startTime ev n edge st) in
  trip_id t = "ev-" +:+ pretty n +:+ "-" +:+
              String.substring 0 10 (name (from edge)) +:+ "-" +:+
              String.substring 0 10 (name (to edge)) /\
  waypoints t = waypointsOf route startTime ev /\
  vehicle t = ev_type ev /\
  exists avgBattery, color t = tripColor edge avgBattery.
Proof.
  cbv zeta. unfold generateEVTripFromRoute. rewrite rbind_fst. cbn [rret fst].
  cbn [trip_id waypoints vehicle color].
  split; [reflexivity |]. split; [reflexivity |]. split; [reflexivity |].
  eexists. reflexivity.
Qed.

(** X16.  Trips are numbered in the order they are pushed: the [k]-th trip
    of the result carries the id [ev-k-from-to], where [from] and [to] are
    the first ten characters of the station names of a demand edge or of
    its reverse; hence no two trips share an id. *)
Theorem trip_ids_numbered_and_unique
    (table : gmap string RouteGeometry) (evRoutes : list EVRoute) :
  let trips := generateTripData table evRoutes in
  (forall k t, trips !! k = Some t ->
     exists evRoute edge,
       In evRoute evRoutes /\ (edge = evRoute \/ edge = reverseEdge evRoute) /\
       trip_id t = "ev-" +:+ pretty k +:+ "-" +:+
                   String.substring 0 10 (name (from edge)) +:+ "-" +:+
                   String.substring 0 10 (name (to edge))) /\
  NoDup (map trip_id trips).
Proof.
  cbv zeta.
  destruct (generateTripData_built table evRoutes) as [Hnum _].
  assert (forall k t, generateTripData table evRoutes !! k = Some t ->
            exists evRoute edge,
              In evRoute evRoutes /\ (edge = evRoute \/ edge = reverseEdge evRoute) /\
              trip_id t = "ev-" +:+ pretty k +:+ "-" +:+
                          String.substring 0 10 (name (from edge)) +:+ "-" +:+
                          String.substring 0 10 (name (to edge))) as Hids.
  { intros k t Hk. apply Hnum in Hk as (evRoute & Hin & edge & route & s & ev & st
                                        & Hedge & _ & _ & _ & _ & ->).
    exists evRoute, edge. split; [exact Hin |]. split; [exact Hedge |].
    apply (built_trip_fields route s ev (0 + k) edge st). }
  split; [exact Hids |].
  apply NoDup_alt. intros i j x Hi Hj.
  change (map trip_id (generateTripData table evRoutes))
    with (trip_id <$> generateTripData table evRoutes) in Hi, Hj.
  rewrite list_lookup_fmap in Hi, Hj.
  destruct (generateTripData table evRoutes !! i) as [ti |] eqn:Ei; [| discriminate].
  destruct (generateTripData table evRoutes !! j) as [tj |] eqn:Ej; [| discriminate].
  cbn in Hi, Hj. injection Hi as Hi. injection Hj as Hj.
  destruct (Hids i ti Ei) as (_ & e1 & _ & _ & H1).
  destruct (Hids j tj Ej) as (_ & e2 & _ & _ & H2).
  rewrite Hi in H1. rewrite Hj in H2. rewrite H1 in H2.
  cbn in H2. injection H2 as H2.
  apply split_at_dash in H2 as [Hp _]; [| apply pretty_nat_noDash ..].
  apply (inj pretty) in Hp. exact Hp.
Qed.

Lemma tripColor_cases edge avgBattery :
  match tripType edge with
  | delivery => tripColor edge avgBattery = amber
  | _ => In (tripColor edge avgBattery) tripPalette /\
         tripColor edge avgBattery <> amber
  end.
Proof.
  unfold tripColor, getBatteryColor.
  destruct (tripType edge); [| | reflexivity];
    destruct (Qgtb avgBattery 60); [| destruct (Qgtb avgBattery 30) | |
                                      destruct (Qgtb avgBattery 30)];
    (split; [cbn; tauto | discriminate]).
Qed.

Lemma eligibleEVs_van evRoute ev :
  In ev (eligibleEVsFor evRoute) ->
  In (ev_type ev) ["sedan"; "suv"; "hatchback"; "van"] /\
  (ev_type ev = "van" <-> tripType evRoute = delivery).
Proof.
  intros Hin. split.
  - apply eligibleEVs_catalog in Hin.
    assert (Forall (fun ev => In (ev_type ev) ["sedan"; "suv"; "hatchback"; "van"])
                   evTypes) as Hall
      by (unfold evTypes;
          repeat (apply List.Forall_cons; [cbn; auto 10 |]); apply List.Forall_nil).
    rewrite Forall_forall in Hall. apply Hall, list_elem_of_In, Hin.
  - unfold eligibleEVsFor in Hin.
    destruct (tripType evRoute); apply filter_In in Hin as [_ Hv]; unfold isVan in Hv.
    + apply negb_true_iff, String.eqb_neq in Hv. split; [contradiction | discriminate].
    + apply negb_true_iff, String.eqb_neq in Hv. split; [contradiction | discriminate].
    + apply String.eqb_eq in Hv. tauto.
Qed.

Lemma builtFor_fields table evRoute n t :
  builtFor table evRoute n t ->
  exists edge route startTime ev avgBattery,
    (edge = evRoute \/ edge = reverseEdge evRoute) /\
    table !! getRouteKey (id (from edge)) (id (to edge)) = Some route /\
    In ev (eligibleEVsFor evRoute) /\
    waypoints t = waypointsOf route startTime ev /\
    vehicle t = ev_type ev /\
    color t = tripColor edge avgBattery /\
    tripType edge = tripType evRoute.
Proof.
  intros (edge & route & startTime & ev & st & Hedge & Hkey & Hev & _ & _ & ->).
  destruct (built_trip_fields route startTime ev n edge st)
    as (_ & Hw & Hv & avg & Hc).
  exists edge, route, startTime, ev, avg.
  repeat (split; [assumption |]).
  destruct Hedge as [-> | ->]; reflexivity.
Qed.

Lemma builtFor_colour table evRoute n t :
  builtFor table evRoute n t ->
  In (vehicle t) ["sedan"; "suv"; "hatchback"; "van"] /\
  In (color t) tripPalette /\
  (vehicle t = "van" <-> color t = amber).
Proof.
  intros Hbuilt.
  apply builtFor_fields in Hbuilt
    as (edge & route & s & ev & avg & _ & _ & Hev & _ & Hv & Hc & Htype).
  destruct (eligibleEVs_van evRoute ev Hev) as [Hcat Hvan].
  rewrite Hv, Hc. split; [exact Hcat |].
  pose proof (tripColor_cases edge avg) as Hcol. rewrite Htype in Hcol.
  rewrite Hvan.
  destruct (tripType evRoute).
  - destruct Hcol as [Hp Hne]. split; [exact Hp |]. split; [discriminate | contradiction].
  - destruct Hcol as [Hp Hne]. split; [exact Hp |]. split; [discriminate | contradiction].
  - rewrite Hcol. split; [left; reflexivity | tauto].
Qed.

(** X17.  Whatever the table and the demand edges, every trip is driven by
    a vehicle of one of the four catalogue types and coloured with one of
    the seven colours of the palette; a trip is amber exactly when its
    vehicle is a van, that is, when it comes from a delivery edge. *)
Theorem trip_vehicle_matches_colour
    (table : gmap string RouteGeometry) (evRoutes : list EVRoute) :
  Forall (fun t => In (vehicle t) ["sedan"; "suv"; "hatchback"; "van"] /\
                   In (color t) tripPalette /\
                   (vehicle t = "van" <-> color t = amber))
         (generateTripData table evRoutes).
Proof.
  destruct (generateTripData_built table evRoutes) as [Hnum _].
  apply numberedFrom_Forall in Hnum.
  eapply Forall_impl; [exact Hnum |].
  intros t (k & evRoute & _ & Hbuilt). cbv beta.
  eapply builtFor_colour. exact Hbuilt.
Qed.

Lemma waypointsOf_coordinates route startTime ev :
  map wp_coordinates (waypointsOf route startTime ev) = route_coordinates route.
Proof.
  unfold waypointsOf.
  change (map wp_coordinates ?l) with (wp_coordinates <$> l).
  rewrite fmap_imap. rewrite (imap_ext _ (fun _ x => x)) by reflexivity.
  generalize (route_coordinates route). intros l.
  enough (forall (A : Type) (l : list A), imap (fun _ x => x) l = l) as H by apply H.
  clear. intros A l. induction l as [| x l IH]; [reflexivity |].
  cbn. f_equal. exact IH.
Qed.

(** C7, as the code has it: the trip at each position of the list
    [generateTripData] returns is the one [generateEVTripFromRoute] builds
    for a demand edge or its reverse, from the table's geometry for that
    direction, with a vehicle eligible for the edge, at a start time that
    is reduced modulo the loop length and lies in [0, loopLength).  When
    the geometries of the table have non-negative durations, the waypoint
    timestamps of that trip are non-decreasing and run, in equal steps
    along the geometry's coordinates, from that start time to (with two
    waypoints or more) that start time plus the geometry's duration scaled
    for that vehicle.  The timestamps after the first are not reduced
    modulo the loop length. *)
Theorem C7_trip_timestamps
    (routeGeometries : gmap string RouteGeometry) (evRoutes : list EVRoute) :
  (forall key route, routeGeometries !! key = Some route -> (0 <= duration route)%Q) ->
  forall k t, generateTripData routeGeometries evRoutes !! k = Some t ->
    exists evRoute edge route ev startTime st,
      In evRoute evRoutes /\
      (edge = evRoute \/ edge = reverseEdge evRoute) /\
      routeGeometries !! getRouteKey (id (from edge)) (id (to edge)) = Some route /\
      In ev (eligibleEVsFor evRoute) /\
      t = fst (generateEVTripFromRoute route startTime ev k edge st) /\
      vehicle t = ev_type ev /\
      map wp_coordinates (waypoints t) = route_coordinates route /\
      (0 <= startTime)%Q /\ (startTime < LOOP_DURATION)%Q /\
      nonDecreasing (waypoints t) /\
      timedBy route ev startTime (waypoints t).
Proof.
  intros Hdur k t Hk.
  destruct (generateTripData_built routeGeometries evRoutes) as [Hnum _].
  apply Hnum in Hk as (evRoute & Hin & edge & route & s & ev & st
                       & Hedge & Hkey & Hev & Hs0 & Hs1 & Ht).
  change (0 + k)%nat with k in Ht.
  destruct (built_trip_fields route s ev k edge st) as (_ & Hw & Hv & _).
  cbv zeta in Hw, Hv. rewrite <- Ht in Hw, Hv.
  destruct (eligibleEVs_positive evRoute ev Hev) as [Hspeed _].
  exists evRoute, edge, route, ev, s, st.
  split; [exact Hin |]. split; [exact Hedge |]. split; [exact Hkey |].
  split; [exact Hev |]. split; [exact Ht |]. split; [exact Hv |].
  rewrite Hw.
  split; [apply waypointsOf_coordinates |].
  split; [exact Hs0 |]. split; [exact Hs1 |].
  split.
  - apply waypointsOf_nonDecreasing. apply timePerStep_nonneg; [| exact Hspeed].
    exact (Hdur _ route Hkey).
  - split; [| split].
    + intros i w Hi. apply waypointsOf_lookup in Hi as [Hi _]. exact Hi.
    + intros w0 Hw0. exact (waypointsOf_head route s ev w0 Hw0).
    + intros wn Hwn Hlen. rewrite waypointsOf_length in Hlen.
      exact (waypointsOf_last route s ev wn Hspeed Hwn Hlen).
Qed.

(** The second trip of the sample table, the one whose last timestamp
    lies beyond the loop length. *)
Lemma C7_trip_timestamps_sample :
  exists t evRoute edge route ev startTime st,
    generateTripData sampleTable [sampleEdge] !! 1%nat = Some t /\
    In evRoute [sampleEdge] /\
    (edge = evRoute \/ edge = reverseEdge evRoute) /\
    sampleTable !! getRouteKey (id (from edge)) (id (to edge)) = Some route /\
    In ev (eligibleEVsFor evRoute) /\
    t = fst (generateEVTripFromRoute route startTime ev 1 edge st) /\
    vehicle t = ev_type ev /\
    map wp_coordinates (waypoints t) = route_coordinates route /\
    (0 <= startTime)%Q /\ (startTime < LOOP_DURATION)%Q /\
    nonDecreasing (waypoints t) /\
    timedBy route ev startTime (waypoints t).
Proof.
  assert (Hdur : forall key route, sampleTable !! key = Some route ->
                                   (0 <= duration route)%Q).
  { intros key route Hk. unfold sampleTable in Hk.
    apply lookup_singleton_Some in Hk as [_ <-]. vm_compute. discriminate. }
  assert (Hk : exists t, generateTripData sampleTable [sampleEdge] !! 1%nat = Some t)
    by (eexists; vm_compute; reflexivity).
  destruct Hk as [t Hk].
  destruct (C7_trip_timestamps sampleTable [sampleEdge] Hdur 1%nat t Hk)
    as (evRoute & edge & route & ev & startTime & st & H).
  exists t, evRoute, edge, route, ev, startTime, st.
  split; [exact Hk | exact H].
Defined.

(** X18.  The path of every trip is the coordinate list of a route of the
    table, point for point and in order: the route stored under the key of
    a demand edge, or of its reverse. *)
Theorem trip_path_is_table_route
    (table : gmap string RouteGeometry) (evRoutes : list EVRoute) :
  Forall (fun t => exists evRoute edge route,
                     In evRoute evRoutes /\
                     (edge = evRoute \/ edge = reverseEdge evRoute) /\
                     table !! getRouteKey (id (from edge)) (id (to edge)) = Some route /\
                     map wp_coordinates (waypoints t) = route_coordinates route)
         (generateTripData table evRoutes).
Proof.
  destruct (generateTripData_built table evRoutes) as [Hnum _].
  apply numberedFrom_Forall in Hnum.
  eapply Forall_impl; [exact Hnum |].
  intros t (k & evRoute & Hin & Hbuilt). cbv beta.
  apply builtFor_fields in Hbuilt
    as (edge & route & s & ev & avg & Hedge & Hkey & _ & Hw & _).
  exists evRoute, edge, route. rewrite Hw, waypointsOf_coordinates. tauto.
Qed.

Section TripCount.
Variable table : gmap string RouteGeometry.

Lemma tripIteration_forward evRoute i tripId st :
  table !! getRouteKey (id (from evRoute)) (id (to evRoute)) <> None ->
  (1 <= length (fst (fst (tripIteration table evRoute i tripId st))))%nat.
Proof.
  intros Hkey. unfold tripIteration.
  rewrite !rbind_fst. cbn [rret fst]. rewrite length_app.
  unfold forwardTrip at 1.
  destruct (table !! getRouteKey (id (from evRoute)) (id (to evRoute)));
    [| contradiction].
  rewrite rbind_fst. cbn [rret fst length]. lia.
Qed.

Lemma tripLoop_forward evRoute indices : forall tripId st,
  table !! getRouteKey (id (from evRoute)) (id (to evRoute)) <> None ->
  (length indices <= length (fst (fst (tripLoop table evRoute indices tripId st))))%nat.
Proof.
  induction indices as [| i rest IH]; intros tripId st Hkey; [cbn; lia |].
  cbn [tripLoop]. rewrite !rbind_fst. cbn [rret fst]. rewrite length_app.
  pose proof (tripIteration_forward evRoute i tripId st Hkey) as Ha.
  set (a := tripIteration table evRoute i tripId st) in *.
  pose proof (IH (snd (fst a)) (snd a) Hkey) as Hb.
  cbn [length]. lia.
Qed.

Lemma routesLoop_forward evRoutes : forall tripId st,
  (forwardWeight table evRoutes
   <= length (fst (fst (routesLoop table evRoutes tripId st))))%nat.
Proof.
  induction evRoutes as [| evRoute rest IH]; intros tripId st; [cbn; lia |].
  cbn [routesLoop forwardWeight foldr]. fold (forwardWeight table rest).
  rewrite !rbind_fst. cbn [rret fst]. rewrite length_app.
  set (a := tripLoop table evRoute (seqZ 0 (weight evRoute)) tripId st).
  pose proof (IH (snd (fst a)) (snd a)) as Hb.
  destruct (table !! getRouteKey (id (from evRoute)) (id (to evRoute))) eqn:Ekey;
    [| lia].
  pose proof (tripLoop_forward evRoute (seqZ 0 (weight evRoute)) tripId st
                ltac:(rewrite Ekey; discriminate)) as Ha.
  rewrite length_seqZ in Ha. fold a in Ha. lia.
Qed.

End TripCount.

(** X19.  The number of trips lies between the total weight of the edges
    whose forward route is in the table, each of which yields one forward
    trip per unit of weight, and twice the total weight of all edges, a
    forward and a return trip per iteration of the inner loop; an edge of
    weight zero or below contributes none. *)
Theorem trip_count_bounds
    (table : gmap string RouteGeometry) (evRoutes : list EVRoute) :
  (forwardWeight table evRoutes <= length (generateTripData table evRoutes))%nat /\
  (length (generateTripData table evRoutes) <= 2 * totalWeight evRoutes)%nat.
Proof.
  split.
  - unfold generateTripData. apply routesLoop_forward.
  - destruct (generateTripData_built table evRoutes) as [_ Hlen]. exact Hlen.
Qed.

(** X20.  When the table has a route for neither direction of any demand
    edge, the expander returns no trip at all, whatever the edges. *)
Theorem no_geometry_no_trips
    (table : gmap string RouteGeometry) (evRoutes : list EVRoute) :
  Forall (fun evRoute => Forall (fun k => table !! k = None) (lookupKeys evRoute))
         evRoutes ->
  generateTripData table evRoutes = [].
Proof.
  intros Hmiss.
  destruct (generateTripData_built table evRoutes) as [Hnum _].
  destruct (generateTripData table evRoutes) as [| t rest] eqn:E; [reflexivity |].
  exfalso.
  destruct (Hnum 0%nat t eq_refl)
    as (evRoute & Hin & edge & route & s & ev & st & Hedge & Hkey & _).
  rewrite Forall_forall in Hmiss. apply list_elem_of_In in Hin.
  specialize (Hmiss evRoute Hin). unfold lookupKeys in Hmiss.
  apply Forall_cons in Hmiss as [Hf Hr]. apply Forall_cons in Hr as [Hr _].
  destruct Hedge as [-> | ->]; cbn [reverseEdge from to] in Hkey; congruence.
Qed.

Lemma no_geometry_no_trips_witness :
  generateTripData ∅ [sampleEdge; reverseEdge sampleEdge] = [].
Proof.
  apply (no_geometry_no_trips ∅ [sampleEdge; reverseEdge sampleEdge]).
  repeat constructor; apply lookup_empty.
Defined.

(** ** The dashboard and the layers *)

Lemma visibleTrips_filter (tripFilters : list Legend.TripType) (t : TripData) :
  (let '(c0, c1, c2) := color t in
   if (180 <? c0) && (100 <? c1) && (c1 <? 120)
   then Set_has Legend.TripType_eqb tripFilters Legend.delivery
   else if (150 <? c1) && (c0 <? 150)
   then Set_has Legend.TripType_eqb tripFilters Legend.high_battery
   else if (180 <? c0) && (c1 <? 140) && (c2 <? 140)
   then Set_has Legend.TripType_eqb tripFilters Legend.low_battery
   else Set_has Legend.TripType_eqb tripFilters Legend.medium_battery)
  = Set_has Legend.TripType_eqb tripFilters (TripsLayer.getTripTypeFromColor (color t)).
Proof.
  unfold TripsLayer.getTripTypeFromColor.
  destruct (color t) as [[c0 c1] c2].
  destruct ((180 <? c0) && (100 <? c1) && (c1 <? 120)); [reflexivity |].
  destruct ((150 <? c1) && (c0 <? 150)); [reflexivity |].
  destruct ((180 <? c0) && (c1 <? 140) && (c2 <? 140)); reflexivity.
Qed.

Lemma filter_ext_length {A} (p q : A -> bool) (l : list A) :
  (forall x, p x = q x) -> length (List.filter p l) = length (List.filter q l).
Proof.
  intros H. induction l as [| x l IH]; [reflexivity |].
  cbn [List.filter]. rewrite H. destruct (q x); cbn [length]; rewrite IH; reflexivity.
Qed.

Lemma filter_false {A} (l : list A) : List.filter (fun _ => false) l = [].
Proof. induction l as [| x l IH]; [reflexivity | exact IH]. Qed.

(** X21.  With a non-empty filter set the dashboard counts exactly the
    stations and the trips the layers draw: its inline colour test picks the
    same trips as the trip layer's [getTripTypeFromColor].  With an empty
    filter set the two disagree: each layer falls back to drawing all its
    data, while the dashboard reports no visible station and no visible
    trip. *)
Theorem dashboard_counts_match_layers
    (stations : list ChargingStation) (trips : list TripData)
    (stationFilters : list StationType) (tripFilters : list Legend.TripType) :
  ((0 < Set_size stationFilters)%nat ->
   StatsDashboard.visibleStations stations stationFilters
   = length (ChargingStationLayer.filteredData stations (Some stationFilters))) /\
  ((0 < Set_size tripFilters)%nat ->
   StatsDashboard.visibleTrips trips tripFilters
   = length (TripsLayer.filteredData trips (Some tripFilters))) /\
  (StatsDashboard.visibleStations stations [] = 0%nat /\
   ChargingStationLayer.filteredData stations (Some []) = stations) /\
  (StatsDashboard.visibleTrips trips [] = 0%nat /\
   TripsLayer.filteredData trips (Some []) = trips).
Proof.
  split; [| split; [| split]].
  - intros Hsize. unfold StatsDashboard.visibleStations, ChargingStationLayer.filteredData.
    apply Nat.ltb_lt in Hsize. rewrite Hsize. reflexivity.
  - intros Hsize. unfold StatsDashboard.visibleTrips, TripsLayer.filteredData.
    apply Nat.ltb_lt in Hsize. rewrite Hsize.
    apply filter_ext_length. intros t. apply visibleTrips_filter.
  - split; [| reflexivity].
    unfold StatsDashboard.visibleStations. cbn [Set_has existsb].
    rewrite filter_false. reflexivity.
  - split; reflexivity.
Qed.

Lemma filter_three_way {A} (p q r : A -> bool) (l : list A) :
  (forall x, (p x = true /\ q x = false /\ r x = false) \/
             (p x = false /\ q x = true /\ r x = false) \/
             (p x = false /\ q x = false /\ r x = true)) ->
  (length (List.filter p l) + length (List.filter q l) + length (List.filter r l))%nat
  = length l.
Proof.
  intros H. induction l as [| x l IH]; [reflexivity |].
  cbn [List.filter].
  destruct (H x) as [(-> & -> & ->) | [(-> & -> & ->) | (-> & -> & ->)]];
    cbn [length]; lia.
Qed.

(** X22.  The dashboard's three station counts add up to the number of
    stations and its three trip counts to the number of trips: every
    station has one type and the colour test gives every trip one type; the
    visible counts never exceed the totals. *)
Theorem dashboard_counts_partition
    (stations : list ChargingStation) (trips : list TripData)
    (stationFilters : list StationType) (tripFilters : list Legend.TripType) :
  (StatsDashboard.stationsOfType superfast stations
   + StatsDashboard.stationsOfType fast stations
   + StatsDashboard.stationsOfType standard stations)%nat
  = StatsDashboard.totalStations stations /\
  (StatsDashboard.tripsOfType commuter trips
   + StatsDashboard.tripsOfType delivery trips
   + StatsDashboard.tripsOfType roadtrip trips)%nat
  = StatsDashboard.totalTrips trips /\
  (StatsDashboard.visibleStations stations stationFilters
   <= StatsDashboard.totalStations stations)%nat /\
  (StatsDashboard.visibleTrips trips tripFilters
   <= StatsDashboard.totalTrips trips)%nat.
Proof.
  split; [| split; [| split]].
  - apply filter_three_way. intros s. destruct (type s); cbn; tauto.
  - apply filter_three_way. intros t.
    destruct (StatsDashboard.getTripTypeFromColor (color t)); cbn; tauto.
  - apply filter_length_le.
  - unfold StatsDashboard.visibleTrips, StatsDashboard.totalTrips.
    destruct (0 <? Set_size tripFilters)%nat; [apply filter_length_le | lia].
Qed.

Lemma charger_sums (l : list ChargingStation) : forall a b,
  Forall (fun s => 0 <= available s <= chargers s) l ->
  0 <= b <= a ->
  0 <= fold_left (fun sum s => sum + available s) l b
    <= fold_left (fun sum s => sum + chargers s) l a.
Proof.
  induction l as [| s l IH]; intros a b Hall Hab; [exact Hab |].
  apply Forall_cons in Hall as [Hs Hall]. cbn [fold_left].
  apply IH; [exact Hall | lia].
Qed.

Lemma Math_round_range (x : Q) (lo hi : Z) :
  (inject_Z lo <= x)%Q -> (x <= inject_Z hi)%Q -> lo <= Math_round x <= hi.
Proof.
  intros Hlo Hhi. unfold Math_round. split.
  - apply Qfloor_resp_le in Hlo. rewrite Qfloor_Z in Hlo.
    assert (Qfloor x <= Qfloor (x + (1 # 2))) by (apply Qfloor_resp_le; lra). lia.
  - assert (x + (1 # 2) < inject_Z (hi + 1))%Q as Hlt.
    { rewrite inject_Z_plus. change (inject_Z 1) with 1%Q. lra. }
    apply Qfloor_lt_int in Hlt. lia.
Qed.

Lemma utilization_range (stations : list ChargingStation) :
  Forall (fun s => 0 <= available s <= chargers s) stations ->
  0 <= StatsDashboard.utilization stations <= 100.
Proof.
  intros Hall. unfold StatsDashboard.utilization.
  destruct (Z.ltb_spec 0 (StatsDashboard.totalChargers stations)) as [Hpos | _]; [| lia].
  pose proof (charger_sums stations 0 0 Hall ltac:(lia)) as Hsum.
  fold (StatsDashboard.totalChargers stations) in Hsum.
  fold (StatsDashboard.availableChargers stations) in Hsum.
  set (T := StatsDashboard.totalChargers stations) in *.
  set (A := StatsDashboard.availableChargers stations) in *.
  assert (0 < inject_Z T)%Q as HT by (change 0%Q with (inject_Z 0); rewrite <- Zlt_Qlt; lia).
  assert (0 <= inject_Z (T - A))%Q as H0
    by (change 0%Q with (inject_Z 0); rewrite <- Zle_Qle; lia).
  assert (inject_Z (T - A) <= inject_Z T)%Q as H1 by (rewrite <- Zle_Qle; lia).
  apply Math_round_range.
  - change (inject_Z 0) with 0%Q.
    pose proof (Qdiv_nonneg _ _ H0 HT). lra.
  - change (inject_Z 100) with 100%Q.
    assert (inject_Z (T - A) / inject_Z T <= 1)%Q.
    { apply Qle_shift_div_r; [exact HT |]. lra. }
    lra.
Qed.

(** X23.  The usage figure of the dashboard is an integer percentage
    between 0 and 100 whenever no station reports more available chargers
    than it has, and 0 for an empty list; this holds for every list the
    station generator produces. *)
Theorem dashboard_utilization_is_percentage
    (Math_PI : Q) (Math_cos Math_sin : Q -> Q)
    (hubs : list CityHub) (hws : list (string * (Q * Q))) (st : Z) :
  (forall stations,
      Forall (fun s => 0 <= available s <= chargers s) stations ->
      0 <= StatsDashboard.utilization stations <= 100) /\
  StatsDashboard.utilization [] = 0 /\
  0 <= StatsDashboard.utilization
         (fst (generateStationsFrom Math_PI Math_cos Math_sin hubs hws st)) <= 100.
Proof.
  split; [exact utilization_range |]. split; [reflexivity |].
  apply utilization_range.
  eapply Forall_impl;
    [apply (generateStationsFrom_Forall Math_PI Math_cos Math_sin countsInBounds) |].
  - intros. apply cityStation_counts.
  - intros. apply generateHighwayStation_counts.
  - intros s (_ & H & _). exact H.
Qed.

Lemma filter_true {A} (p : A -> bool) (l : list A) :
  (forall x, p x = true) -> List.filter p l = l.
Proof.
  intros H. induction l as [| x l IH]; [reflexivity |].
  cbn [List.filter]. rewrite H, IH. reflexivity.
Qed.

(** X24.  The dashboard's colour test and the trip layer's single out the
    same colours as deliveries.  Each row of the legend shows a colour that
    the trip layer's test maps back to the row's own type, and among the
    four legend colours the dashboard counts exactly the delivery row's as
    a delivery.  The filter set the app starts with holds the types of the
    legend's rows, all four; with it the layer draws every trip and the
    dashboard counts every trip as visible. *)
Theorem colour_tests_agree_with_legend (trips : list TripData) :
  (forall c, StatsDashboard.getTripTypeFromColor c = delivery <->
             TripsLayer.getTripTypeFromColor c = Legend.delivery) /\
  Forall (fun item => TripsLayer.getTripTypeFromColor (Legend.item_color item)
                      = Legend.item_type item) Legend.tripItems /\
  Forall (fun item => StatsDashboard.getTripTypeFromColor (Legend.item_color item) = delivery
                      <-> Legend.item_type item = Legend.delivery) Legend.tripItems /\
  map Legend.item_type Legend.tripItems = initialTripFilters /\
  TripsLayer.filteredData trips (Some initialTripFilters) = trips /\
  StatsDashboard.visibleTrips trips initialTripFilters = length trips.
Proof.
  assert (Hall : forall x, Set_has Legend.TripType_eqb initialTripFilters x = true)
    by (intros []; reflexivity).
  split; [| split; [| split; [| split; [| split]]]].
  - intros [[c0 c1] c2].
    unfold StatsDashboard.getTripTypeFromColor, TripsLayer.getTripTypeFromColor.
    destruct ((180 <? c0) && (100 <? c1) && (c1 <? 120)).
    + split; reflexivity.
    + split; intros H.
      * destruct ((100 <? c0) && (100 <? c1) && (100 <? c2)); discriminate H.
      * destruct ((150 <? c1) && (c0 <? 150)); [discriminate H |].
        destruct ((180 <? c0) && (c1 <? 140) && (c2 <? 140)); discriminate H.
  - unfold Legend.tripItems.
    repeat (apply List.Forall_cons; [reflexivity |]). apply List.Forall_nil.
  - unfold Legend.tripItems.
    repeat (apply List.Forall_cons; [cbn; split; (reflexivity || discriminate) |]).
    apply List.Forall_nil.
  - reflexivity.
  - unfold TripsLayer.filteredData. cbn [Set_size initialTripFilters length Nat.ltb Nat.leb].
    apply filter_true. intros t. apply Hall.
  - unfold StatsDashboard.visibleTrips.
    cbn [Set_size initialTripFilters length Nat.ltb Nat.leb].
    f_equal. apply filter_true. intros t.
    rewrite visibleTrips_filter. apply Hall.
Qed.

(** ** The animation clock *)

Lemma animate_range animationSpeed delta t :
  (0 <= animationSpeed)%Q -> (0 <= delta)%Q ->
  (0 <= t)%Q -> (t <= MAX_TRIP_TIME)%Q ->
  (0 <= animate animationSpeed delta t)%Q /\
  (animate animationSpeed delta t <= MAX_TRIP_TIME)%Q.
Proof.
  intros Hs Hd H0 H1. unfold animate. cbv zeta.
  destruct (Qgtb _ MAX_TRIP_TIME) eqn:E.
  - split; [lra | discriminate].
  - apply Qgtb_false_le in E. split; [| exact E].
    pose proof (Qmult_le_0_compat _ _ Hd Hs).
    assert (delta * 0.1 * animationSpeed == 0.1 * (delta * animationSpeed))%Q as ->
      by ring.
    lra.
Qed.

(** X25.  The animation clock never leaves the loop: started inside
    [0, MAX_TRIP_TIME], and advanced by frames of non-negative duration at a
    non-negative speed, it stays inside [0, MAX_TRIP_TIME] after any number
    of frames; a frame that would pass [MAX_TRIP_TIME] sets the clock to 0
    and drops the overshoot.  Every speed the controls offer is
    non-negative. *)
Theorem animation_clock_stays_in_loop
    (animationSpeed : Q) (deltas : list Q) (t : Q) :
  (0 <= animationSpeed)%Q ->
  Forall (fun delta => (0 <= delta)%Q) deltas ->
  (0 <= t)%Q -> (t <= MAX_TRIP_TIME)%Q ->
  (0 <= runFrames animationSpeed deltas t)%Q /\
  (runFrames animationSpeed deltas t <= MAX_TRIP_TIME)%Q /\
  (forall delta, (MAX_TRIP_TIME < t + delta * 0.1 * animationSpeed)%Q ->
                 animate animationSpeed delta t = 0%Q) /\
  Forall (fun speed => (0 <= speed)%Q) speeds.
Proof.
  intros Hs Hdeltas H0 H1.
  assert ((0 <= runFrames animationSpeed deltas t)%Q /\
          (runFrames animationSpeed deltas t <= MAX_TRIP_TIME)%Q) as [Ha Hb].
  { revert t H0 H1. unfold runFrames.
    induction Hdeltas as [| delta rest Hd _ IH]; intros t H0 H1; [tauto |].
    cbn [fold_left].
    destruct (animate_range animationSpeed delta t Hs Hd H0 H1) as [Hn0 Hn1].
    apply IH; assumption. }
  split; [exact Ha |]. split; [exact Hb |]. split.
  - intros delta Hover. unfold animate. cbv zeta.
    apply Qgtb_true_lt in Hover. rewrite Hover. reflexivity.
  - unfold speeds. repeat constructor; discriminate.
Qed.

Lemma animation_clock_stays_in_loop_witness :
  (0 <= runFrames 2 [16; 17; 9000; 16] 1795)%Q /\
  (runFrames 2 [16; 17; 9000; 16] 1795 <= MAX_TRIP_TIME)%Q /\
  (forall delta, (MAX_TRIP_TIME < 1795 + delta * 0.1 * 2)%Q ->
                 animate 2 delta 1795 = 0%Q) /\
  Forall (fun speed => (0 <= speed)%Q) speeds.
Proof.
  apply (animation_clock_stays_in_loop 2 [16; 17; 9000; 16]%Q 1795).
  - discriminate.
  - repeat constructor; discriminate.
  - discriminate.
  - discriminate.
Defined.

(** ** The retry loop, for any service *)

Section RetryClosedForm.
Variable service : Service.
Variables start end_ : Q * Q.
Variable maxRetries : nat.
Variable retryDelay : Q.

Lemma retryLoop_closed : forall iterations attempt w,
  (attempt + iterations = maxRetries)%nat ->
  requests w = attempt ->
  let m := lastAttempt service start end_ retryDelay iterations attempt in
  retryLoop service start end_ maxRetries retryDelay (S iterations) attempt w
  = (outcome (service m start end_),
     {| requests := S m;
        sleeps := sleeps w ++ map (waitAfter service start end_ retryDelay)
                                  (seq attempt (m - attempt)) |}) /\
  (attempt <= m <= maxRetries)%nat /\
  (forall k, (attempt <= k < m)%nat ->
             is_Some (retryWait retryDelay k (service k start end_))) /\
  ((m < maxRetries)%nat -> retryWait retryDelay m (service m start end_) = None).
Proof.
  induction iterations as [| rest IH]; intros attempt w Hsum Hreq; cbv zeta.
  - assert (attempt = maxRetries) as Hlast by lia.
    cbn [lastAttempt retryLoop]. unfold request. rewrite Hreq.
    rewrite Nat.sub_diag. cbn [seq map]. rewrite app_nil_r.
    assert ((attempt <? maxRetries)%nat = false) as Hnlt by (apply Nat.ltb_ge; lia).
    rewrite Hnlt.
    split; [| split; [lia | split; [intros k Hk; lia | intros Hk; lia]]].
    unfold outcome.
    destruct (service attempt start end_) as [| status routes]; [reflexivity |].
    destruct (status =? 429); [destruct routes; reflexivity |].
    destruct (negb (isOk status)); destruct routes; reflexivity.
  - assert ((attempt <? maxRetries)%nat = true) as Hlt by (apply Nat.ltb_lt; lia).
    cbn [lastAttempt].
    destruct (retryWait retryDelay attempt (service attempt start end_)) as [d |] eqn:Ed.
    + destruct (IH (S attempt)
                  (sleep d {| requests := S attempt; sleeps := sleeps w |})
                  ltac:(lia) eq_refl) as (Hrun & Hm & Hfail & Hstop).
      set (m := lastAttempt service start end_ retryDelay rest (S attempt)) in *.
      split; [| split; [lia | split; [| exact Hstop]]].
      * assert (retryLoop service start end_ maxRetries retryDelay (S (S rest)) attempt w
                = retryLoop service start end_ maxRetries retryDelay (S rest) (S attempt)
                    (sleep d {| requests := S attempt; sleeps := sleeps w |})) as ->.
        { cbn [retryLoop]. unfold request. rewrite Hreq, Hlt.
          unfold retryWait in Ed.
          destruct (service attempt start end_) as [| status routes].
          - injection Ed as <-. reflexivity.
          - destruct (status =? 429).
            + injection Ed as <-. reflexivity.
            + destruct (negb (isOk status)); [| discriminate Ed].
              injection Ed as <-. reflexivity. }
        rewrite Hrun. cbn [sleep sleeps]. rewrite <- app_assoc. do 3 f_equal.
        replace (m - attempt)%nat with (S (m - S attempt)) by lia.
        cbn [seq map]. unfold waitAfter at 2. rewrite Ed. reflexivity.
      * intros k Hk. destruct (decide (k = attempt)) as [-> | Hne].
        { rewrite Ed. eexists. reflexivity. }
        apply Hfail. lia.
    + rewrite Nat.sub_diag. cbn [seq map]. rewrite app_nil_r.
      split; [| split; [lia | split; [intros k Hk; lia | intros _; exact Ed]]].
      cbn [retryLoop]. unfold request. rewrite Hreq.
      unfold retryWait in Ed. unfold outcome.
      destruct (service attempt start end_) as [| status routes]; [discriminate Ed |].
      destruct (status =? 429); [discriminate Ed |].
      destruct (negb (isOk status)); [discriminate Ed |].
      destruct routes; reflexivity.
Qed.

End RetryClosedForm.

(** X26.  Whatever the service answers, [fetchRouteWithRetry] stops at the
    first attempt [m] whose response calls for no retry, or at attempt
    [maxRetries]: it has then issued [m + 1] requests, at most
    [maxRetries + 1], and slept once after each of the [m] earlier
    attempts.  It returns the first route of the last response when that
    response is a success other than 429 carrying a route, and null
    otherwise; in particular a success with an empty route list ends the
    loop at once and is not retried. *)
Theorem retry_loop_closed_form
    (service : Service) (start end_ : Q * Q) (maxRetries : nat) (retryDelay : Q) :
  let m := lastAttempt service start end_ retryDelay maxRetries 0 in
  fetchRouteWithRetry service start end_ maxRetries retryDelay
    {| requests := 0; sleeps := [] |}
  = (outcome (service m start end_),
     {| requests := S m;
        sleeps := map (waitAfter service start end_ retryDelay) (seq 0 m) |}) /\
  (m <= maxRetries)%nat /\
  (forall k, (k < m)%nat -> is_Some (retryWait retryDelay k (service k start end_))) /\
  ((m < maxRetries)%nat -> retryWait retryDelay m (service m start end_) = None) /\
  (forall status, isOk status = true -> status <> 429 ->
                  outcome (Http status []) = None /\
                  retryWait retryDelay m (Http status []) = None).
Proof.
  cbv zeta. unfold fetchRouteWithRetry.
  destruct (retryLoop_closed service start end_ maxRetries retryDelay maxRetries 0
              {| requests := 0; sleeps := [] |} ltac:(lia) eq_refl)
    as (Hrun & Hm & Hfail & Hstop).
  rewrite Nat.sub_0_r in Hrun. cbn [sleeps app] in Hrun.
  split; [exact Hrun |]. split; [lia |]. split; [intros k Hk; apply Hfail; lia |].
  split; [exact Hstop |].
  intros status Hok Hne. split; [reflexivity |].
  unfold retryWait. apply Z.eqb_neq in Hne. rewrite Hne, Hok. reflexivity.
Qed.

(** ** The route cache *)

Lemma fetchRoute_caches service start end_ c route :
  fst (fetchRoute service start end_ c) = Some route ->
  routeCache (snd (fetchRoute service start end_ c)) !! getCacheKey start end_
  = Some route.
Proof.
  unfold fetchRoute.
  destruct (routeCache c !! getCacheKey start end_) as [cached |] eqn:Ehit.
  - cbn [fst snd]. intros [= <-]. exact Ehit.
  - destruct (service (issued c) start end_) as [| status routes]; [discriminate |].
    destruct (negb (isOk status)); [discriminate |].
    destruct routes as [| r more]; [discriminate |].
    cbn [fst snd routeCache]. intros [= <-]. apply lookup_insert_eq.
Qed.

(** X27.  Reading and clearing the cache: after a call of [fetchRoute] that
    returned a route, [getRouteFromCache] for the same coordinates returns
    that route; a call that returned null leaves every cached entry as it
    was; [fetchRoute] never drops an entry; and after [clearRouteCache]
    nothing is cached, so the next [fetchRoute] issues a request. *)
Theorem cache_read_and_clear
    (service : Service) (start end_ : Q * Q) (c : Client) :
  let first := fetchRoute service start end_ c in
  (forall route, fst first = Some route ->
                 getRouteFromCache start end_ (snd first) = Some route) /\
  (fst first = None -> routeCache (snd first) = routeCache c) /\
  (forall key route, routeCache c !! key = Some route ->
                     routeCache (snd first) !! key = Some route) /\
  (forall start' end', getRouteFromCache start' end' (clearRouteCache c) = None) /\
  issued (snd (fetchRoute service start end_ (clearRouteCache c))) = S (issued c).
Proof.
  cbv zeta. unfold getRouteFromCache, fetchRoute.
  destruct (routeCache c !! getCacheKey start end_) as [cached |] eqn:Ehit.
  - cbn [fst snd]. split; [intros route [= <-]; exact Ehit |].
    split; [discriminate |]. split; [tauto |].
    split; [intros; apply lookup_empty |].
    cbn [clearRouteCache routeCache issued]. rewrite lookup_empty.
    destruct (service (issued c) start end_) as [| status routes]; [reflexivity |].
    destruct (negb (isOk status)); [reflexivity |]. destruct routes; reflexivity.
  - assert (forall start' end',
               (∅ : gmap string RouteGeometry) !! getCacheKey start' end' = None)
      as Hempty by (intros; apply lookup_empty).
    cbn [clearRouteCache routeCache issued]. rewrite lookup_empty.
    destruct (service (issued c) start end_) as [| status routes];
      [cbn [fst snd routeCache]; repeat split; try tauto; try discriminate; apply Hempty |].
    destruct (negb (isOk status));
      [cbn [fst snd routeCache]; repeat split; try tauto; try discriminate; apply Hempty |].
    destruct routes as [| route more];
      [cbn [fst snd routeCache]; repeat split; try tauto; try discriminate; apply Hempty |].
    cbn [fst snd routeCache issued].
    split; [intros r [= <-]; apply lookup_insert_eq |].
    split; [discriminate |]. split; [| split; [apply Hempty | reflexivity]].
    intros key r Hkey. rewrite lookup_insert_ne; [exact Hkey |].
    intros <-. congruence.
Qed.

(** X28.  The cache key keeps four decimals of each coordinate, so two
    requests whose coordinates agree after that rounding share one entry:
    once the first has been answered with a route, the second returns the
    same route without a request, although its coordinates differ. *)
Theorem cache_shared_by_nearby_coordinates
    (service : Service) (start end_ start' end_' : Q * Q) (c : Client)
    (route : RouteGeometry) :
  getCacheKey start end_ = getCacheKey start' end_' ->
  fst (fetchRoute service start end_ c) = Some route ->
  let first := fetchRoute service start end_ c in
  fetchRoute service start' end_' (snd first) = (Some route, snd first).
Proof.
  intros Hkey Hfirst. cbv zeta. apply fetchRoute_hit. rewrite <- Hkey.
  apply fetchRoute_caches. exact Hfirst.
Qed.

Lemma cache_shared_by_nearby_coordinates_witness :
  let first :=
    fetchRoute (stubRoute sampleRoute) (4.89511, 52.37021)%Q (4.46243, 51.92654)%Q
      freshClient in
  fetchRoute (stubRoute sampleRoute) (4.89514, 52.37018)%Q (4.46238, 51.92649)%Q
    (snd first)
  = (Some sampleRoute, snd first).
Proof.
  apply (cache_shared_by_nearby_coordinates (stubRoute sampleRoute)
           (4.89511, 52.37021)%Q (4.46243, 51.92654)%Q
           (4.89514, 52.37018)%Q (4.46238, 51.92649)%Q freshClient sampleRoute).
  - vm_compute. reflexivity.
  - reflexivity.
Defined.

(** ** The later station generator: coastal boundary, prices, utilisation *)

Lemma clampToBoundary_east boundary position st minLng :
  boundary = Some minLng ->
  (minLng <= fst (fst (clampToBoundary boundary position st)))%Q /\
  snd (fst (clampToBoundary boundary position st)) = snd position.
Proof.
  intros ->. unfold clampToBoundary.
  destruct (Qltb (fst position) minLng) eqn:E.
  - rewrite rbind_fst. cbn [rret fst snd]. split; [| reflexivity].
    destruct (random_range st) as [H0 _]. lra.
  - cbn [rret fst]. split; [| reflexivity].
    destruct (Qle_bool minLng (fst position)) eqn:E'.
    + apply Qle_bool_iff. exact E'.
    + unfold Qltb in E. rewrite E' in E. discriminate.
Qed.

Section PricedFacts.
Variable Math_PI : Q.
Variables Math_cos Math_sin : Q -> Q.

Lemma samplePosition_bounded boundary center : forall retriesLeft st,
  exists attempts : nat,
    (1 <= attempts <= S retriesLeft)%nat /\
    snd (samplePosition Math_PI Math_cos Math_sin retriesLeft boundary center st)
    = Prng.state_after (2 * attempts) st /\
    (boundary = None -> attempts = 1%nat).
Proof.
  induction retriesLeft as [| fewer IH]; intros st.
  - exists 1%nat. split; [lia |]. split; [| reflexivity].
    cbn [samplePosition]. rewrite !rbind_snd. cbv beta zeta.
    destruct (belowBoundary _ _); reflexivity.
  - cbn [samplePosition]. rewrite !rbind_snd. cbv beta zeta.
    destruct (belowBoundary boundary _) eqn:E.
    + destruct (IH (snd (Prng.random (snd (Prng.random st))))) as (k & Hk & Hs & _).
      exists (S k). split; [lia |]. split.
      * rewrite Hs. replace (2 * S k)%nat with (2 + 2 * k)%nat by lia.
        rewrite state_after_add. reflexivity.
      * intros ->. discriminate E.
    + exists 1%nat. split; [lia |]. split; reflexivity.
Qed.

(** X29.  A city with a coastal boundary gets no station west of it,
    whatever [Math.cos] returns: a point west of the boundary is drawn
    again, at most [maxAttempts] times in all, and a point still west of it
    after the last attempt is moved to within 0.01 degrees east of the
    boundary.  A city without a boundary is placed by its first sample. *)
Theorem coastal_boundary_respected
    (cityName : string) (minLng : Q) (center : Q * Q) (count startId : nat) (st : Z) :
  boundaryOf cityName = Some minLng ->
  Forall (fun s => (minLng <= fst (coordinates (base s)))%Q)
         (fst (pricedStationsAroundCity Math_PI Math_cos Math_sin
                 cityName center count startId st)) /\
  (forall boundary st',
      exists attempts : nat,
        (1 <= attempts <= maxAttempts)%nat /\
        snd (samplePosition Math_PI Math_cos Math_sin (maxAttempts - 1) boundary center st')
        = Prng.state_after (2 * attempts) st' /\
        (boundary = None -> attempts = 1%nat)).
Proof.
  intros Hb. split.
  - unfold pricedStationsAroundCity. apply forEach_Forall.
    intros i st' _. rewrite push_one_fst. constructor; [| constructor].
    unfold pricedCityStation.
    repeat (rewrite rbind_fst; cbv beta zeta).
    cbn [rret fst base coordinates].
    apply clampToBoundary_east. exact Hb.
  - intros boundary st'. apply samplePosition_bounded.
Qed.

End PricedFacts.

Lemma coastal_boundary_respected_witness :
  Forall (fun s => (4.30 <= fst (coordinates (base s)))%Q)
         (fst (pricedStationsAroundCity anyPI unitTrig unitTrig
                 "The Hague" (4.288788, 52.078663)%Q 18 45 123)) /\
  (forall boundary st',
      exists attempts : nat,
        (1 <= attempts <= maxAttempts)%nat /\
        snd (samplePosition anyPI unitTrig unitTrig (maxAttempts - 1) boundary
               (4.288788, 52.078663)%Q st')
        = Prng.state_after (2 * attempts) st' /\
        (boundary = None -> attempts = 1%nat)).
Proof.
  exact (coastal_boundary_respected anyPI unitTrig unitTrig
           "The Hague" 4.30%Q (4.288788, 52.078663)%Q 18 45 123 eq_refl).
Defined.

Lemma drawChargers_range t st :
  fst (chargersBand false t) <= fst (drawChargers t st) <= snd (chargersBand false t).
Proof.
  unfold drawChargers. rewrite rbind_fst. cbn [rret fst].
  destruct (random_range st) as [H0 H1].
  destruct t; cbn [chargersBand fst snd].
  - pose proof (floor_scaled _ 4 H0 H1 ltac:(lia)) as H.
    change (inject_Z 4) with 4%Q in H. lia.
  - pose proof (floor_scaled _ 6 H0 H1 ltac:(lia)) as H.
    change (inject_Z 6) with 6%Q in H. lia.
  - pose proof (floor_scaled _ 8 H0 H1 ltac:(lia)) as H.
    change (inject_Z 8) with 8%Q in H. lia.
Qed.

Lemma roundToCents_band price lo hi :
  (inject_Z lo <= price * 100)%Q -> (price * 100 <= inject_Z hi)%Q ->
  exists cents : Z, (roundToCents price == inject_Z cents / 100)%Q /\ lo <= cents <= hi.
Proof.
  intros Hlo Hhi. exists (Math_round (price * 100)). split; [reflexivity |].
  apply Math_round_range; assumption.
Qed.

Lemma cityBaseUtil_band h r :
  (0 <= r)%Q -> (r < 1)%Q ->
  fst (utilizationBand false h) <= Math_round (cityBaseUtil h r * 100)
    <= snd (utilizationBand false h).
Proof.
  intros H0 H1. unfold utilizationBand, cityBaseUtil.
  destruct ((7 <=? h)%nat && (h <=? 9)%nat);
    [| destruct ((17 <=? h)%nat && (h <=? 19)%nat);
       [| destruct ((10 <=? h)%nat && (h <=? 16)%nat);
          [| destruct ((20 <=? h)%nat && (h <=? 23)%nat)]]];
    cbn [fst snd]; apply Math_round_range;
    match goal with
    | |- (inject_Z ?z <= _)%Q => change (inject_Z z) with (z # 1)%Q
    | |- (_ <= inject_Z ?z)%Q => change (inject_Z z) with (z # 1)%Q
    end; lra.
Qed.

Lemma highwayBaseUtil_band h r :
  (0 <= r)%Q -> (r < 1)%Q ->
  fst (utilizationBand true h) <= Math_round (highwayBaseUtil h r * 100)
    <= snd (utilizationBand true h).
Proof.
  intros H0 H1. unfold utilizationBand, highwayBaseUtil.
  destruct ((6 <=? h)%nat && (h <=? 22)%nat);
    cbn [fst snd]; apply Math_round_range;
    match goal with
    | |- (inject_Z ?z <= _)%Q => change (inject_Z z) with (z # 1)%Q
    | |- (_ <= inject_Z ?z)%Q => change (inject_Z z) with (z # 1)%Q
    end; lra.
Qed.

Lemma drawUtilizationHistory_bands (onHighway : bool) (baseUtil : nat -> Q -> Q) st :
  (forall h r, (0 <= r)%Q -> (r < 1)%Q ->
               fst (utilizationBand onHighway h) <= Math_round (baseUtil h r * 100)
                 <= snd (utilizationBand onHighway h)) ->
  map hour (fst (drawUtilizationHistory baseUtil st)) = seq 0 24 /\
  Forall (fun p => fst (utilizationBand onHighway (hour p)) <= utilization p
                   <= snd (utilizationBand onHighway (hour p)))
         (fst (drawUtilizationHistory baseUtil st)).
Proof.
  intros Hband. unfold drawUtilizationHistory. split.
  - rewrite <- (map_id (seq 0 24)) at 2.
    apply (forEach_push_map
             (fun h => rbind Prng.random
                         (fun r => rret {| hour := h;
                                           utilization := Math_round (baseUtil h r * 100) |}))
             hour (fun h => h)).
    intros h st'. rewrite rbind_fst. reflexivity.
  - apply forEach_Forall. intros h st' _.
    rewrite rbind_fst. cbn [rret fst]. constructor; [| constructor].
    cbn [hour utilization]. destruct (random_range st') as [H0 H1].
    apply Hband; assumption.
Qed.

Section PricedBands.
Variable Math_PI : Q.
Variables Math_cos Math_sin : Q -> Q.

Lemma pricedCityStation_bands cityName center startId i st :
  let s := fst (pricedCityStation Math_PI Math_cos Math_sin cityName center startId i st) in
  pricedWithinBands s /\ id (base s) = stationId (startId + i).
Proof.
  cbv zeta. unfold pricedCityStation.
  repeat (rewrite rbind_fst; cbv beta zeta).
  cbn [rret fst]. split; [| reflexivity].
  unfold pricedWithinBands, countsInBounds, isHighway.
  cbn [base pricePerKwh utilizationHistory id type chargers available].
  rewrite !prefix_station.
  match goal with
  | |- context [drawChargers ?t ?s] =>
      pose proof (drawChargers_range t s) as Hn;
      set (n := fst (drawChargers t s)) in *;
      set (ty := t) in *
  end.
  split; [| split].
  - split; [exact Hn |]. split; [| discriminate].
    match goal with
    | |- context [Math_floor (fst (Prng.random ?s) * inject_Z (n + 1))%Q] =>
        destruct (random_range s) as [H0 H1];
        apply (available_range _ n H0 H1)
    end.
    destruct ty; cbn [chargersBand fst snd] in Hn; lia.
  - unfold drawCityPrice. rewrite rbind_fst. cbn [rret fst].
    match goal with
    | |- context [(fst (Prng.random ?s) * 0.20)%Q] =>
        destruct (random_range s) as [H0 H1]
    end.
    destruct ty; cbn [priceBand fst snd]; apply roundToCents_band;
      match goal with
      | |- (inject_Z ?z <= _)%Q => change (inject_Z z) with (z # 1)%Q
      | |- (_ <= inject_Z ?z)%Q => change (inject_Z z) with (z # 1)%Q
      end; lra.
  - apply (drawUtilizationHistory_bands false). apply cityBaseUtil_band.
Qed.

Lemma pricedHighwayStation_bands hname coords i st :
  let s := fst (pricedHighwayStation hname coords i st) in
  pricedWithinBands s /\ id (base s) = highwayId i.
Proof.
  cbv zeta. unfold pricedHighwayStation.
  repeat (rewrite rbind_fst; cbv beta zeta).
  cbn [rret fst]. split; [| reflexivity].
  unfold pricedWithinBands, countsInBounds, isHighway.
  cbn [base pricePerKwh utilizationHistory id type chargers available].
  rewrite !prefix_highway.
  destruct (random_range (snd (Prng.random st))) as [Hc0 Hc1].
  set (rc := fst (Prng.random (snd (Prng.random st)))) in *.
  match goal with
  | |- context [roundToCents (match _ with superfast => (0.50 + fst (Prng.random ?s) * 0.20)%Q
                                          | _ => _ end)] =>
      destruct (random_range s) as [Hp0 Hp1];
      set (rp := fst (Prng.random s)) in *
  end.
  assert (forall n, 0 <= n ->
            forall s, 0 <= Math_floor (fst (Prng.random s) * inject_Z (n + 1)) <= n)
    as Havail.
  { intros n Hn s. destruct (random_range s) as [H0 H1].
    apply available_range; assumption. }
  pose proof (floor_scaled rc 12 Hc0 Hc1 ltac:(lia)) as H12.
  change (inject_Z 12) with 12%Q in H12.
  pose proof (floor_scaled rc 8 Hc0 Hc1 ltac:(lia)) as H8.
  change (inject_Z 8) with 8%Q in H8.
  destruct (Qltb (fst (Prng.random st)) 0.4); cbn [chargersBand priceBand fst snd].
  - split; [| split].
    + split; [lia |]. split; [apply Havail; lia | intros _; discriminate].
    + apply roundToCents_band;
        match goal with
        | |- (inject_Z ?z <= _)%Q => change (inject_Z z) with (z # 1)%Q
        | |- (_ <= inject_Z ?z)%Q => change (inject_Z z) with (z # 1)%Q
        end; lra.
    + apply (drawUtilizationHistory_bands true). apply highwayBaseUtil_band.
  - split; [| split].
    + split; [lia |]. split; [apply Havail; lia | intros _; discriminate].
    + apply roundToCents_band;
        match goal with
        | |- (inject_Z ?z <= _)%Q => change (inject_Z z) with (z # 1)%Q
        | |- (_ <= inject_Z ?z)%Q => change (inject_Z z) with (z # 1)%Q
        end; lra.
    + apply (drawUtilizationHistory_bands true). apply highwayBaseUtil_band.
Qed.

Lemma pricedCityPass_spec hubs : forall stationId0 st,
  let stations := fst (pricedCityPass Math_PI Math_cos Math_sin hubs stationId0 st) in
  Forall pricedWithinBands stations /\
  map (fun s => id (base s)) stations = map stationId (seq stationId0 (totalDensity hubs)).
Proof.
  induction hubs as [| city rest IH]; intros start st; cbv zeta.
  - split; [constructor | reflexivity].
  - cbn [pricedCityPass totalDensity foldr].
    rewrite rbind_fst, rbind_fst. cbn [rret fst].
    destruct (IH (start + density city)%nat
                 (snd (pricedStationsAroundCity Math_PI Math_cos Math_sin
                         (hub_name city) (hub_coords city) (density city) start st)))
      as [IH1 IH2].
    split.
    + apply Forall_app. split; [| exact IH1].
      unfold pricedStationsAroundCity. apply forEach_Forall.
      intros i st' _. rewrite push_one_fst. constructor; [| constructor].
      apply pricedCityStation_bands.
    + rewrite map_app, IH2, seq_app, map_app. f_equal.
      unfold pricedStationsAroundCity.
      rewrite (forEach_push_map _ (fun s => id (base s))
                 (fun i => stationId (start + i)%nat))
        by (intros; apply pricedCityStation_bands).
      replace (seq start (density city)) with (seq (start + 0) (density city))
        by (f_equal; lia).
      rewrite <- (fmap_add_seq start 0 (density city)).
      rewrite <- list_fmap_compose. reflexivity.
Qed.

End PricedBands.

Lemma pricedHighwayPass_spec hws st :
  let stations := fst (pricedHighwayPass hws st) in
  Forall pricedWithinBands stations /\
  map (fun s => id (base s)) stations = map highwayId (seq 0 (length hws)).
Proof.
  cbv zeta. unfold pricedHighwayPass. split.
  - apply forEach_Forall. intros ih st' _. rewrite push_one_fst.
    constructor; [| constructor]. apply pricedHighwayStation_bands.
  - rewrite (forEach_push_map _ (fun s => id (base s)) (fun ih => highwayId (fst ih)))
      by (intros; apply pricedHighwayStation_bands).
    change (map (fun ih : nat * (string * (Q * Q)) => highwayId ih.1) (imap pair hws))
      with ((fun ih : nat * (string * (Q * Q)) => highwayId ih.1) <$> imap pair hws).
    rewrite fmap_imap.
    rewrite (imap_ext _ (fun n _ => highwayId n)) by reflexivity.
    apply imap_seq_0.
Qed.

(** X30.  Every station of the later generator keeps the guarantees of the
    earlier one, with charger counts and availability in range and the same
    pairwise distinct ids, and adds a price that is a whole number of cents
    inside the band of its type (25..35, 35..50 or 45..65 in a city, 40..55
    or 50..70 on a highway) and a utilisation history of 24 points, one per
    hour 0..23 in order, each an integer percentage inside the band of its
    hour (never below 10 nor above 95). *)
Theorem priced_stations_within_bands
    (Math_PI : Q) (Math_cos Math_sin : Q -> Q)
    (hubs : list CityHub) (hws : list (string * (Q * Q))) (st : Z) :
  let stations := fst (pricedStationsFrom Math_PI Math_cos Math_sin hubs hws st) in
  Forall pricedWithinBands stations /\
  map (fun s => id (base s)) stations
  = map stationId (seq 0 (totalDensity hubs)) ++ map highwayId (seq 0 (length hws)) /\
  NoDup (map (fun s => id (base s)) stations) /\
  forall onHighway h,
    10 <= fst (utilizationBand onHighway h) /\ snd (utilizationBand onHighway h) <= 95.
Proof.
  cbv zeta. unfold pricedStationsFrom.
  rewrite rbind_fst, rbind_fst. cbn [rret fst].
  destruct (pricedCityPass_spec Math_PI Math_cos Math_sin hubs 0 st) as [Hc1 Hc2].
  destruct (pricedHighwayPass_spec hws
              (snd (pricedCityPass Math_PI Math_cos Math_sin hubs 0 st))) as [Hh1 Hh2].
  assert (map (fun s => id (base s))
              (fst (pricedCityPass Math_PI Math_cos Math_sin hubs 0 st) ++
               fst (pricedHighwayPass hws
                      (snd (pricedCityPass Math_PI Math_cos Math_sin hubs 0 st))))
          = map stationId (seq 0 (totalDensity hubs))
            ++ map highwayId (seq 0 (length hws))) as Hids
    by (rewrite map_app, Hc2, Hh2; reflexivity).
  split; [apply Forall_app; split; assumption |].
  split; [exact Hids |]. split.
  - rewrite Hids. rewrite <- (generateStationsFrom_ids Math_PI Math_cos Math_sin hubs hws st).
    apply ids_NoDup.
  - intros onHighway h. unfold utilizationBand.
    destruct onHighway; repeat (destruct (_ && _)); cbn; lia.
Qed.
